(** * Data-Analysis-Agent front end: auth facade, backend client and
      conversation controller

    A shallow embedding of
      - [src/context/AuthContext.tsx] (the [AuthProvider]: [login], [signup],
        [logout] and the hydration effect),
      - [src/services/api.ts] (the two analyze requests),
      - [src/components/Chat.tsx] and [src/components/AgentPage.tsx]
        ([handleSendMessage], [handleClearChat] and the input handlers),
    together with the part of the browser platform these functions call:
    [localStorage], [JSON.parse] / [JSON.stringify], [encodeURIComponent]
    and [String.prototype.trim].

    Strings are byte strings (UTF-8), read as UTF-16 code units where the
    platform looks at code units; asynchronous functions are split at their
    [await]. *)

From Stdlib Require Import ZArith Ascii String List Bool Lia.
From stdpp Require Import base option list strings gmap.

Local Open Scope char_scope.
Local Open Scope list_scope.

(** ** Text *)

(** Program text is handled as a list of characters; [string] is used at the
    interfaces ([localStorage] items, message contents). *)
Abbreviation text := (list ascii).

Definition text_of (s : string) : text := list_ascii_of_string s.
Definition string_of (t : text) : string := string_of_list_ascii t.

Definition dquote : ascii := "034".
Definition backslash : ascii := "\".

(** ** JSON values *)

(** The value domain of [JSON.parse]. A number is kept as the numeral that
    was read; its value is the double of [Number.of_numeral]. An object
    keeps its members in source order, and a later member shadows an
    earlier one with the same key. *)
#[warnings="-register-all"]
Inductive json : Type :=
| JNull
| JBool (b : bool)
| JNum (numeral : string)
| JStr (s : string)
| JArr (items : list json)
| JObj (members : list (string * json)).

(** ** Numbers *)

(** The Number a JSON numeral denotes is the IEEE 754 double nearest to its
    decimal value, ties to even; [Number::toString] writes a double with
    the fewest digits that read back as the same double. *)
Module Number.

(** A double that is not NaN. The two zeros are one here: both are falsy
    and both are written [0]. A finite double is [m * 2^e] with
    [2^52 <= m < 2^53], or [0 < m < 2^52] and [e = -1074]. *)
Inductive double : Type :=
| Zero
| Finite (negative : bool) (m : N) (e : Z)
| Infinite (negative : bool).

Definition same (x y : double) : bool :=
  match x, y with
  | Zero, Zero => true
  | Finite s m e, Finite s' m' e' => Bool.eqb s s' && (m =? m')%N && (e =? e')%Z
  | Infinite s, Infinite s' => Bool.eqb s s'
  | _, _ => false
  end.

Definition pow2 (e : Z) : N := (2 ^ Z.to_N e)%N.
Definition pow10 (e : Z) : N := (10 ^ Z.to_N e)%N.

(** The double nearest to [p / q], for positive [p] and [q]. *)
Definition round (negative : bool) (p q : N) : double :=
  let e0 := (Z.of_N (N.log2 p) - Z.of_N (N.log2 q))%Z in
  let above := if (0 <=? e0)%Z then (q * pow2 e0 <=? p)%N
               else (q <=? p * pow2 (- e0))%N in
  (* [2^e1 <= p / q < 2^(e1 + 1)] *)
  let e1 := if above then e0 else (e0 - 1)%Z in
  let e := Z.max (e1 - 52) (-1074) in
  let num := if (e <? 0)%Z then (p * pow2 (- e))%N else p in
  let den := if (e <? 0)%Z then q else (q * pow2 e)%N in
  let m := (num / den)%N in
  let r := (num mod den)%N in
  let m := if (den <? 2 * r)%N || ((den =? 2 * r)%N && N.odd m) then (m + 1)%N else m in
  if (m =? 0)%N then Zero
  else
    let (m, e) := if (m =? 2 ^ 53)%N then ((2 ^ 52)%N, (e + 1)%Z) else (m, e) in
    if (971 <? e)%Z then Infinite negative else Finite negative m e.

Definition digit (c : ascii) : option N :=
  let n := N_of_ascii c in
  if ((48 <=? n) && (n <=? 57))%N then Some (n - 48)%N else None.

(** The digits at the head of a text, read after [acc]: their value, how
    many they are, and the rest of the text. *)
Fixpoint digits (s : text) (acc count : N) : N * N * text :=
  match s with
  | c :: r =>
      match digit c with
      | Some d => digits r (10 * acc + d)%N (count + 1)%N
      | None => (acc, count, s)
      end
  | [] => (acc, count, [])
  end.

(** [- coefficient * 10^exponent] *)
Record decimal : Type := { negative : bool; coefficient : N; exponent : Z }.

(** A numeral of the JSON grammar, [-? int frac? exp?]. *)
Definition decimal_of (numeral : text) : decimal :=
  let (neg, s1) :=
    match numeral with
    | c :: r => if c =? "-" then (true, r) else (false, numeral)
    | [] => (false, [])
    end in
  let '(i, _, s2) := digits s1 0 0 in
  let '(c, places, s3) :=
    match s2 with
    | p :: r => if p =? "." then digits r i 0 else (i, 0%N, s2)
    | [] => (i, 0%N, [])
    end in
  let e :=
    match s3 with
    | x :: r =>
        if (x =? "e") || (x =? "E") then
          match r with
          | sign :: r' =>
              if sign =? "-" then (- Z.of_N (digits r' 0 0).1.1)%Z
              else if sign =? "+" then Z.of_N (digits r' 0 0).1.1
              else Z.of_N (digits r 0 0).1.1
          | [] => 0%Z
          end
        else 0%Z
    | [] => 0%Z
    end in
  {| negative := neg; coefficient := c; exponent := (e - Z.of_N places)%Z |}.

Definition of_decimal (d : decimal) : double :=
  if (coefficient d =? 0)%N then Zero
  else if (0 <=? exponent d)%Z
       then round (negative d) (coefficient d * pow10 (exponent d)) 1
       else round (negative d) (coefficient d) (pow10 (- exponent d)).

Definition of_numeral (numeral : string) : double := of_decimal (decimal_of (text_of numeral)).

(** The decimal digits of a number, the last one first. *)
Fixpoint digits_rev (fuel : nat) (n : N) : text :=
  match fuel with
  | 0 => []
  | S fuel =>
      if (n <? 10)%N then [ascii_of_N (48 + n)]
      else ascii_of_N (48 + n mod 10) :: digits_rev fuel (n / 10)%N
  end.

Definition digits_of (n : N) : text := rev (digits_rev (S (N.to_nat (N.log2 n))) n).

(** For [p / q < 1]: how often it can be multiplied by ten and stay below
    one. *)
Fixpoint places_below (fuel : nat) (p q : N) (j : Z) : Z :=
  match fuel with
  | 0 => j
  | S fuel => if (10 * p <? q)%N then places_below fuel (10 * p)%N q (j + 1)%Z else j
  end.

(** [n] with [10^(n - 1) <= p / q < 10^n]. *)
Definition magnitude (p q : N) : Z :=
  if (q <=? p)%N then Z.of_nat (length (digits_of (p / q)))
  else (- places_below 400 p q 0)%Z.

Fixpoint strip_zeros_rev (s : text) : text :=
  match s with
  | c :: r => if c =? "0" then strip_zeros_rev r else s
  | [] => []
  end.

(** Without the zeros at the end. *)
Definition strip_zeros (s : text) : text := rev (strip_zeros_rev (rev s)).

(** The shortest digits for [m * 2^e]: the digits [s], without zeros at
    the end, and [n], such that [0.s * 10^n] reads back as the double. With
    [k] digits only the two [k]-digit decimals next to the double can read
    back as it; of two that do, the nearer one is taken, the even one on a
    tie. *)
Fixpoint shortest_from (fuel : nat) (k : Z) (m : N) (e : Z) (p q : N) (n0 : Z)
  : text * Z :=
  let num := if (0 <=? k - n0)%Z then (p * pow10 (k - n0))%N else p in
  let den := if (0 <=? k - n0)%Z then q else (q * pow10 (n0 - k))%N in
  let lo := (num / den)%N in
  let hi := (lo + 1)%N in
  let r := (num mod den)%N in
  let reads_back (s : N) :=
    same (Finite false m e)
         (if (0 <=? n0 - k)%Z then round false (s * pow10 (n0 - k)) 1
          else round false s (pow10 (k - n0))) in
  let result (s : N) :=
    (strip_zeros (digits_of s), (n0 + Z.of_nat (length (digits_of s)) - k)%Z) in
  let lo_nearer := (2 * r <? den)%N || ((2 * r =? den)%N && N.even lo) in
  match fuel with
  | 0 => result (if lo_nearer then lo else hi)
  | S fuel =>
      if reads_back lo && reads_back hi then result (if lo_nearer then lo else hi)
      else if reads_back lo then result lo
      else if reads_back hi then result hi
      else shortest_from fuel (k + 1)%Z m e p q n0
  end.

Definition shortest (m : N) (e : Z) : text * Z :=
  let p := if (0 <=? e)%Z then (m * pow2 e)%N else m in
  let q := if (0 <=? e)%Z then 1%N else pow2 (- e) in
  shortest_from 16 1 m e p q (magnitude p q).

Definition zeros (n : Z) : text := repeat "0" (Z.to_nat n).

(** [Number::toString] for digits [s] and [n], radix ten. *)
Definition format (s : text) (n : Z) : text :=
  let k := Z.of_nat (length s) in
  if ((k <=? n) && (n <=? 21))%Z then s ++ zeros (n - k)
  else if ((0 <? n) && (n <=? 21))%Z then
    firstn (Z.to_nat n) s ++ "." :: skipn (Z.to_nat n) s
  else if ((-6 <? n) && (n <=? 0))%Z then
    "0" :: "." :: zeros (- n) ++ s
  else
    let exp := (if (0 <=? n - 1)%Z then "+" else "-") :: digits_of (Z.abs_N (n - 1)) in
    match s with
    | [d] => d :: "e" :: exp
    | d :: ds => d :: "." :: ds ++ "e" :: exp
    | [] => []
    end.

Definition toString (x : double) : text :=
  match x with
  | Zero => ["0"]
  | Finite negative m e =>
      let (s, n) := shortest m e in
      (if negative then ["-"] else []) ++ format s n
  | Infinite negative => text_of (if negative then "-Infinity" else "Infinity")
  end.

(** [JSON.stringify] of a number: an infinite one is written [null]. *)
Definition stringify (x : double) : text :=
  match x with
  | Infinite _ => text_of "null"
  | _ => toString x
  end.

Definition nonzero (x : double) : bool :=
  match x with
  | Zero => false
  | _ => true
  end.

End Number.

Module JSON.

(** *** Serialisation ([JSON.stringify] without indentation) *)

Definition hex_digit (n : N) : ascii :=
  ascii_of_N (if (n <? 10)%N then 48 + n else 87 + n).

(** [QuoteJSONString]: one character of a string literal. *)
Definition quote_char (c : ascii) : text :=
  if c =? dquote then [backslash; dquote]
  else if c =? backslash then [backslash; backslash]
  else if c =? "008" then [backslash; "b"]
  else if c =? "012" then [backslash; "f"]
  else if c =? "010" then [backslash; "n"]
  else if c =? "013" then [backslash; "r"]
  else if c =? "009" then [backslash; "t"]
  else if (N_of_ascii c <? 32)%N then
    [backslash; "u"; "0"; "0";
     hex_digit (N_of_ascii c / 16); hex_digit (N_of_ascii c mod 16)]
  else [c].

(** The three bytes of a surrogate code unit: [ED], then [A0]..[AF] for a
    high one or [B0]..[BF] for a low one, then a continuation byte. *)
Definition surrogate_bytes (a b c : ascii) : bool :=
  ((N_of_ascii a =? 237) && (160 <=? N_of_ascii b) && (N_of_ascii b <=? 191)
   && (128 <=? N_of_ascii c) && (N_of_ascii c <=? 191))%N.

Definition high_bytes (a b c : ascii) : bool :=
  surrogate_bytes a b c && (N_of_ascii b <? 176)%N.

Definition low_bytes (a b c : ascii) : bool :=
  surrogate_bytes a b c && (176 <=? N_of_ascii b)%N.

Definition unit_of_bytes (b c : ascii) : N :=
  (53248 + 64 * (N_of_ascii b - 128) + (N_of_ascii c - 128))%N.

(** [\uXXXX], in lower case. *)
Definition escape_unit (u : N) : text :=
  [backslash; "u"; hex_digit (u / 4096); hex_digit ((u / 256) mod 16);
   hex_digit ((u / 16) mod 16); hex_digit (u mod 16)]%N.

(** The characters of a string literal. A surrogate that is not half of a
    pair is written as its escape; a pair stays as it is. *)
Fixpoint quote_chars (s : text) : text :=
  match s with
  | [] => []
  | a :: r =>
      match r with
      | b :: c :: r3 =>
          if low_bytes a b c then escape_unit (unit_of_bytes b c) ++ quote_chars r3
          else if high_bytes a b c then
            match r3 with
            | a' :: b' :: c' :: r6 =>
                if low_bytes a' b' c'
                then a :: b :: c :: a' :: b' :: c' :: quote_chars r6
                else escape_unit (unit_of_bytes b c) ++ quote_chars r3
            | _ => escape_unit (unit_of_bytes b c) ++ quote_chars r3
            end
          else quote_char a ++ quote_chars r
      | _ => quote_char a ++ quote_chars r
      end
  end.

Definition quote (s : text) : text :=
  dquote :: quote_chars s ++ [dquote].

(** Elements separated by commas. *)
Fixpoint commas (parts : list text) : text :=
  match parts with
  | [] => []
  | [p] => p
  | p :: ps => p ++ "," :: commas ps
  end.

Definition member (print : json -> text) (m : string * json) : text :=
  quote (text_of (fst m)) ++ ":" :: print (snd m).

Fixpoint print (v : json) : text :=
  match v with
  | JNull => text_of "null"
  | JBool true => text_of "true"
  | JBool false => text_of "false"
  | JNum numeral => Number.stringify (Number.of_numeral numeral)
  | JStr s => quote (text_of s)
  | JArr items => "[" :: commas (map print items) ++ ["]"]
  | JObj members => "{" :: commas (map (member print) members) ++ ["}"]
  end.

Definition stringify (v : json) : string := string_of (print v).

(** *** Parsing ([JSON.parse]) *)

Definition is_ws (c : ascii) : bool :=
  (c =? " ") || (c =? "009") || (c =? "010") || (c =? "013").

Fixpoint skip_ws (s : text) : text :=
  match s with
  | c :: r => if is_ws c then skip_ws r else s
  | [] => []
  end.

Definition hex_value (c : ascii) : option N :=
  let n := N_of_ascii c in
  if (48 <=? n)%N && (n <=? 57)%N then Some (n - 48)%N
  else if (97 <=? n)%N && (n <=? 102)%N then Some (n - 87)%N
  else if (65 <=? n)%N && (n <=? 70)%N then Some (n - 55)%N
  else None.

(** The code unit of a [\uXXXX] escape. *)
Definition code_unit (a b c d : ascii) : option N :=
  match hex_value a, hex_value b, hex_value c, hex_value d with
  | Some x, Some y, Some z, Some w => Some (4096 * x + 256 * y + 16 * z + w)%N
  | _, _, _, _ => None
  end.

(** A code point as UTF-8. *)
Definition utf8 (n : N) : text :=
  map ascii_of_N
    (if (n <? 128)%N then [n]
     else if (n <? 2048)%N then [192 + n / 64; 128 + n mod 64]
     else if (n <? 65536)%N then
       [224 + n / 4096; 128 + (n / 64) mod 64; 128 + n mod 64]
     else [240 + n / 262144; 128 + (n / 4096) mod 64;
           128 + (n / 64) mod 64; 128 + n mod 64])%N.

Definition high_surrogate (n : N) : bool := ((55296 <=? n) && (n <=? 56319))%N.
Definition low_surrogate (n : N) : bool := ((56320 <=? n) && (n <=? 57343))%N.

Definition with_prefix (p : text) (r : option (text * text)) : option (text * text) :=
  match r with
  | Some (cs, rest) => Some (p ++ cs, rest)
  | None => None
  end.

(** The characters of a string literal after its opening quote, up to and
    including the closing quote. A high surrogate escape directly followed
    by a low surrogate escape is one code point. *)
Fixpoint parse_chars (s : text) : option (text * text) :=
  match s with
  | [] => None
  | c :: r =>
      if c =? dquote then Some ([], r)
      else if c =? backslash then
        match r with
        | e :: r1 =>
            if e =? "u" then
              match r1 with
              | a :: b :: c1 :: d :: r2 =>
                  match code_unit a b c1 d with
                  | Some hi =>
                      if high_surrogate hi then
                        match r2 with
                        | b' :: u' :: e' :: f' :: g' :: h' :: r3 =>
                            match code_unit e' f' g' h' with
                            | Some lo =>
                                if (b' =? backslash) && (u' =? "u") && low_surrogate lo
                                then with_prefix
                                       (utf8 (65536 + 1024 * (hi - 55296) + (lo - 56320)))
                                       (parse_chars r3)
                                else with_prefix (utf8 hi) (parse_chars r2)
                            | None => with_prefix (utf8 hi) (parse_chars r2)
                            end
                        | _ => with_prefix (utf8 hi) (parse_chars r2)
                        end
                      else with_prefix (utf8 hi) (parse_chars r2)
                  | None => None
                  end
              | _ => None
              end
            else if e =? dquote then with_prefix [dquote] (parse_chars r1)
            else if e =? backslash then with_prefix [backslash] (parse_chars r1)
            else if e =? "/" then with_prefix ["/"] (parse_chars r1)
            else if e =? "b" then with_prefix ["008"] (parse_chars r1)
            else if e =? "f" then with_prefix ["012"] (parse_chars r1)
            else if e =? "n" then with_prefix ["010"] (parse_chars r1)
            else if e =? "r" then with_prefix ["013"] (parse_chars r1)
            else if e =? "t" then with_prefix ["009"] (parse_chars r1)
            else None
        | [] => None
        end
      else if (N_of_ascii c <? 32)%N then None
      else with_prefix [c] (parse_chars r)
  end.

(** Whether a text begins with the escape of a low surrogate. *)
Definition low_escape (s : text) : bool :=
  match s with
  | b :: u :: e :: f :: g :: h :: _ =>
      match code_unit e f g h with
      | Some lo => (b =? backslash) && (u =? "u") && low_surrogate lo
      | None => false
      end
  | _ => false
  end.

Definition is_digit (c : ascii) : bool :=
  ((48 <=? N_of_ascii c) && (N_of_ascii c <=? 57))%N.

Fixpoint span_digits (s : text) : text * text :=
  match s with
  | c :: r =>
      if is_digit c then let (ds, r') := span_digits r in (c :: ds, r')
      else ([], s)
  | [] => ([], [])
  end.

(** [int]: a zero, or digits that do not start with a zero. *)
Definition scan_int (s : text) : option (text * text) :=
  match span_digits s with
  | ([], _) => None
  | ([c], r) => Some ([c], r)
  | (c :: ds, r) => if c =? "0" then None else Some (c :: ds, r)
  end.

(** [frac]: nothing, or a point and at least one digit. *)
Definition scan_frac (s : text) : option (text * text) :=
  match s with
  | c :: r =>
      if c =? "." then
        match span_digits r with
        | ([], _) => None
        | (ds, r') => Some (c :: ds, r')
        end
      else Some ([], s)
  | [] => Some ([], [])
  end.

(** [exp]: nothing, or [e] / [E], a sign if any, and at least one digit. *)
Definition scan_exp (s : text) : option (text * text) :=
  match s with
  | c :: r =>
      if (c =? "e") || (c =? "E") then
        let (sign, r1) :=
          match r with
          | c' :: r' => if (c' =? "+") || (c' =? "-") then ([c'], r') else ([], r)
          | [] => ([], [])
          end in
        match span_digits r1 with
        | ([], _) => None
        | (ds, r2) => Some (c :: sign ++ ds, r2)
        end
      else Some ([], s)
  | [] => Some ([], [])
  end.

(** A number: [-? int frac? exp?]. *)
Definition parse_number (s : text) : option (json * text) :=
  let (sign, s1) :=
    match s with
    | c :: r => if c =? "-" then ([c], r) else ([], s)
    | [] => ([], [])
    end in
  match scan_int s1 with
  | Some (i, s2) =>
      match scan_frac s2 with
      | Some (f, s3) =>
          match scan_exp s3 with
          | Some (e, s4) => Some (JNum (string_of (sign ++ i ++ f ++ e)), s4)
          | None => None
          end
      | None => None
      end
  | None => None
  end.

(** [keyword k v s]: the literal [k] at the head of [s]. *)
Fixpoint keyword (k : text) (v : json) (s : text) : option (json * text) :=
  match k with
  | [] => Some (v, s)
  | c :: k' =>
      match s with
      | c' :: s' => if c =? c' then keyword k' v s' else None
      | [] => None
      end
  end.

Fixpoint parse_value (fuel : nat) (s : text) : option (json * text) :=
  match fuel with
  | 0 => None
  | S fuel =>
      match skip_ws s with
      | [] => None
      | c :: r =>
          if c =? "n" then keyword (text_of "ull") JNull r
          else if c =? "t" then keyword (text_of "rue") (JBool true) r
          else if c =? "f" then keyword (text_of "alse") (JBool false) r
          else if c =? dquote then
            match parse_chars r with
            | Some (cs, r') => Some (JStr (string_of cs), r')
            | None => None
            end
          else if c =? "[" then
            match skip_ws r with
            | c' :: r' =>
                if c' =? "]" then Some (JArr [], r')
                else match parse_elements fuel (c' :: r') with
                     | Some (vs, r'') => Some (JArr vs, r'')
                     | None => None
                     end
            | [] => None
            end
          else if c =? "{" then
            match skip_ws r with
            | c' :: r' =>
                if c' =? "}" then Some (JObj [], r')
                else match parse_members fuel (c' :: r') with
                     | Some (ms, r'') => Some (JObj ms, r'')
                     | None => None
                     end
            | [] => None
            end
          else parse_number (c :: r)
      end
  end
with parse_elements (fuel : nat) (s : text) : option (list json * text) :=
  match fuel with
  | 0 => None
  | S fuel =>
      match parse_value fuel s with
      | Some (v, r) =>
          match skip_ws r with
          | c :: r' =>
              if c =? "," then
                match parse_elements fuel r' with
                | Some (vs, r'') => Some (v :: vs, r'')
                | None => None
                end
              else if c =? "]" then Some ([v], r')
              else None
          | [] => None
          end
      | None => None
      end
  end
with parse_members (fuel : nat) (s : text) : option (list (string * json) * text) :=
  match fuel with
  | 0 => None
  | S fuel =>
      match skip_ws s with
      | q :: r0 =>
          if q =? dquote then
            match parse_chars r0 with
            | Some (k, r1) =>
                match skip_ws r1 with
                | c1 :: r2 =>
                    if c1 =? ":" then
                      match parse_value fuel r2 with
                      | Some (v, r3) =>
                          match skip_ws r3 with
                          | c :: r' =>
                              if c =? "," then
                                match parse_members fuel r' with
                                | Some (ms, r'') => Some ((string_of k, v) :: ms, r'')
                                | None => None
                                end
                              else if c =? "}" then Some ([(string_of k, v)], r')
                              else None
                          | [] => None
                          end
                      | None => None
                      end
                    else None
                | [] => None
                end
            | None => None
            end
          else None
      | [] => None
      end
  end.

(** [JSON.parse]: [None] stands for the [SyntaxError] it throws. The length
    of the text is fuel enough: see [JSON_fuel.parse_complete]. *)
Definition parse (s : string) : option json :=
  let t := text_of s in
  match parse_value (length t) t with
  | Some (v, r) => match skip_ws r with [] => Some v | _ :: _ => None end
  | None => None
  end.

(** The first character of a printed value: not white space, and none of
    the closing brackets the parser looks for. *)
Definition opens_value (c : ascii) : bool :=
  negb (is_ws c) && negb (c =? "]") && negb (c =? "}").

(** Values without numbers: what the application writes. *)
Fixpoint plain (v : json) : bool :=
  match v with
  | JNum _ => false
  | JArr items => forallb plain items
  | JObj members => forallb (fun m => plain (snd m)) members
  | _ => true
  end.

End JSON.

(** ** Strings as JavaScript sees them: UTF-16 code units *)

Module Utf16.
Local Open Scope list_scope.
Local Open Scope N_scope.

Definition continuation (c : ascii) : bool :=
  (128 <=? N_of_ascii c) && (N_of_ascii c <? 192).

Definition low6 (c : ascii) : N := N_of_ascii c - 128.

(** The code points of UTF-8 text; a byte that starts no sequence reads as
    U+FFFD. *)
Fixpoint code_points (s : text) : list N :=
  match s with
  | [] => []
  | a :: r =>
      let x := N_of_ascii a in
      let bad := 65533 :: code_points r in
      if x <? 128 then x :: code_points r
      else
        match r with
        | b :: r2 =>
            if negb (continuation b) then bad
            else if (192 <=? x) && (x <? 224) then
              (64 * (x - 192) + low6 b) :: code_points r2
            else
              match r2 with
              | c :: r3 =>
                  if negb (continuation c) then bad
                  else if (224 <=? x) && (x <? 240) then
                    (4096 * (x - 224) + 64 * low6 b + low6 c) :: code_points r3
                  else
                    match r3 with
                    | d :: r4 =>
                        if continuation d && (240 <=? x) && (x <? 248) then
                          (262144 * (x - 240) + 4096 * low6 b + 64 * low6 c + low6 d)
                            :: code_points r4
                        else bad
                    | [] => bad
                    end
              | [] => bad
              end
        | [] => bad
        end
  end.

(** A code point above the basic plane is a pair of surrogates. *)
Definition units_of (n : N) : list N :=
  if n <? 65536 then [n]
  else [55296 + (n - 65536) / 1024; 56320 + (n - 65536) mod 1024].

Definition code_units (s : string) : list N :=
  concat (map units_of (code_points (text_of s))).

(** [s.length] *)
Definition length (s : string) : nat := List.length (code_units s).


End Utf16.

Local Open Scope string_scope.

(** ** JavaScript runtime: exceptions, truthiness, property access *)

(** What a [throw] carries. Everything the platform throws here is an
    [Error] instance with a message; [Thrown] stands for any other value. *)
Inductive exn : Type :=
| SyntaxError (message : string)
| TypeError (message : string)
| URIError (message : string)
| Error (message : string)
| Thrown (v : json).

Definition instanceof_Error (e : exn) : bool :=
  match e with
  | Thrown _ => false
  | _ => true
  end.

Definition message (e : exn) : string :=
  match e with
  | SyntaxError m | TypeError m | URIError m | Error m => m
  | Thrown _ => ""
  end.

(** The outcome of evaluating an expression, and the state of a settled
    promise: [Normal] is a fulfilled promise, [Throw] a rejected one. *)
Inductive completion (A : Type) : Type :=
| Normal (a : A)
| Throw (e : exn).
Arguments Normal {A} a.
Arguments Throw {A} e.

(** A JavaScript value read from parsed JSON: [None] is [undefined]. *)
Abbreviation value := (option json).
Abbreviation undefined := (@None json).

(** A number is falsy when it is zero: when the double of its numeral
    is. *)
Definition nonzero (numeral : string) : bool :=
  Number.nonzero (Number.of_numeral numeral).

(** [ToBoolean]. *)
Definition truthy (v : value) : bool :=
  match v with
  | None | Some JNull => false
  | Some (JBool b) => b
  | Some (JNum numeral) => nonzero numeral
  | Some (JStr s) => negb (s =? "")
  | Some (JArr _) | Some (JObj _) => true
  end.

(** [localStorage.getItem] gives a string or [null]. *)
Definition truthy_string (s : option string) : bool :=
  match s with
  | Some s => negb (s =? "")
  | None => false
  end.

(** [ToString] of an item, as [JSON.parse] applies it to its argument. *)
Definition ToString (s : option string) : string :=
  match s with
  | Some s => s
  | None => "null"
  end.

(** [s || d] on an item of [localStorage]. *)
Definition or_default (s : option string) (d : string) : string :=
  match s with
  | Some s => if s =? "" then d else s
  | None => d
  end.

(** The member an object answers for key [k]: the last one written. *)
Fixpoint lookup_member (k : string) (members : list (string * json)) : value :=
  match members with
  | [] => None
  | (k', v) :: rest =>
      match lookup_member k rest with
      | Some v' => Some v'
      | None => if k =? k' then Some v else None
      end
  end.

(** [v.k] for the keys the application reads ([id], [name], [email],
    [password], [avatar]): reading from [undefined] or [null] throws, an
    object answers with its member, every other value has no such property. *)
Definition get (v : value) (k : string) : completion value :=
  match v with
  | None => Throw (TypeError ("Cannot read properties of undefined (reading '" +:+ k +:+ "')"))
  | Some JNull => Throw (TypeError ("Cannot read properties of null (reading '" +:+ k +:+ "')"))
  | Some (JObj members) => Normal (lookup_member k members)
  | Some _ => Normal undefined
  end.

(** [v === s] for a string [s]. *)
Definition strict_eq (v : value) (s : string) : bool :=
  match v with
  | Some (JStr s') => s' =? s
  | _ => false
  end.

(** [Array.prototype.find]; the callback may throw. *)
Fixpoint Array_find (callback : json -> completion bool) (items : list json)
  : completion value :=
  match items with
  | [] => Normal undefined
  | u :: rest =>
      match callback u with
      | Throw e => Throw e
      | Normal true => Normal (Some u)
      | Normal false => Array_find callback rest
      end
  end.

(** [users.find(callback)] on whatever [JSON.parse] returned. *)
Definition find (users : json) (callback : json -> completion bool) : completion value :=
  match users with
  | JArr items => Array_find callback items
  | JNull => Throw (TypeError "Cannot read properties of null (reading 'find')")
  | _ => Throw (TypeError "users.find is not a function")
  end.

(** [users.push(x)]. *)
Definition push (users : json) (x : json) : completion json :=
  match users with
  | JArr items => Normal (JArr (items ++ [x]))
  | JNull => Throw (TypeError "Cannot read properties of null (reading 'push')")
  | _ => Throw (TypeError "users.push is not a function")
  end.

(** An object literal [{k1: e1, ...}]. A property whose value is [undefined]
    reads back as [undefined] and is skipped by [JSON.stringify], so it is
    left out. *)
Definition object (fields : list (string * value)) : json :=
  JObj (omap (fun f => match f.2 with Some v => Some (f.1, v) | None => None end) fields).

(** [encodeURIComponent]: [Encode] over the code units of the string. A
    unit of the unreserved set stays; any other code point becomes the
    [%XX] of its UTF-8 bytes; a surrogate without its partner is a
    [URIError]. *)
Definition unreserved (c : ascii) : bool :=
  let n := N_of_ascii c in
  ((48 <=? n) && (n <=? 57))%N || ((65 <=? n) && (n <=? 90))%N
  || ((97 <=? n) && (n <=? 122))%N
  || existsb (Ascii.eqb c) (text_of "-_.!~*'()").

Definition HEX_digit (n : N) : ascii :=
  ascii_of_N (if (n <? 10)%N then 48 + n else 55 + n).

Definition escape (bytes : text) : text :=
  concat (map (fun c =>
    ["%"%char; HEX_digit (N_of_ascii c / 16); HEX_digit (N_of_ascii c mod 16)]) bytes).

Definition after (p : text) (c : completion text) : completion text :=
  match c with
  | Normal t => Normal (p ++ t)%list
  | Throw e => Throw e
  end.

Fixpoint Encode (units : list N) : completion text :=
  match units with
  | [] => Normal []
  | u :: rest =>
      if (u <? 128)%N && unreserved (ascii_of_N u) then after [ascii_of_N u] (Encode rest)
      else if JSON.low_surrogate u then Throw (URIError "URI malformed")
      else if JSON.high_surrogate u then
        match rest with
        | lo :: rest' =>
            if JSON.low_surrogate lo then
              after (escape (JSON.utf8 (65536 + 1024 * (u - 55296) + (lo - 56320))%N))
                    (Encode rest')
            else Throw (URIError "URI malformed")
        | [] => Throw (URIError "URI malformed")
        end
      else after (escape (JSON.utf8 u)) (Encode rest)
  end%list.

Definition encodeURIComponent (s : string) : completion string :=
  match Encode (Utf16.code_units s) with
  | Normal t => Normal (string_of t)
  | Throw e => Throw e
  end.

(** ** [AuthContext.tsx]: the [AuthProvider] *)

Module AuthContext.

(** The provider's React state [user : User | null] and the browser's
    [localStorage]. [user] holds what [setUser] was given: an object built
    by [login] / [signup], whatever [JSON.parse] made of the persisted
    session, or [JNull] for [null]. *)
Record state : Type := { user : json; localStorage : gmap string string }.

(** Statements of the provider run on the state and may throw. The three
    operations contain no [await]: an [async] one runs to its end and hands
    back a promise that is already settled. *)
Definition M (A : Type) : Type := state -> completion A * state.

Definition ret {A} (a : A) : M A := fun st => (Normal a, st).

Definition bind {A B} (m : M A) (k : A -> M B) : M B :=
  fun st =>
    match m st with
    | (Normal a, st') => k a st'
    | (Throw e, st') => (Throw e, st')
    end.

Definition lift {A} (c : completion A) : M A := fun st => (c, st).

Declare Scope js_scope.
Delimit Scope js_scope with js.
Notation "x <- m ; k" := (bind m (fun x => k))
  (at level 20, m at level 100, k at level 200, only parsing) : js_scope.
Notation "m ;; k" := (bind m (fun _ => k))
  (at level 100, k at level 200, only parsing, right associativity) : js_scope.
Local Open Scope js_scope.

Definition getItem (key : string) : M (option string) :=
  fun st => (Normal (localStorage st !! key), st).

Definition setItem (key item : string) : M unit :=
  fun st => (Normal tt, {| user := user st;
                           localStorage := <[key := item]> (localStorage st) |}).

Definition removeItem (key : string) : M unit :=
  fun st => (Normal tt, {| user := user st;
                           localStorage := delete key (localStorage st) |}).

Definition setUser (u : json) : M unit :=
  fun st => (Normal tt, {| user := u; localStorage := localStorage st |}).

Definition JSON_parse (s : string) : M json :=
  match JSON.parse s with
  | Some v => ret v
  | None => lift (Throw (SyntaxError "JSON.parse: unexpected input"))
  end.

(** [isAuthenticated: !!user]. *)
Definition isAuthenticated (st : state) : bool := truthy (Some (user st)).

(** The effect run once on mount. *)
Definition hydrate : M unit :=
  storedUser <- getItem "user";
  if truthy_string storedUser then
    u <- JSON_parse (ToString storedUser);
    setUser u
  else ret tt.

(** [(u: any) => u.email === email && u.password === password] *)
Definition login_callback (email password : string) (u : json) : completion bool :=
  match get (Some u) "email" with
  | Throw e => Throw e
  | Normal e =>
      if strict_eq e email then
        match get (Some u) "password" with
        | Throw e => Throw e
        | Normal p => Normal (strict_eq p password)
        end
      else Normal false
  end.

Definition login (email password : string) : M bool :=
  item <- getItem "users";
  users <- JSON_parse (or_default item "[]");
  foundUser <- lift (find users (login_callback email password));
  if truthy foundUser then
    id <- lift (get foundUser "id");
    name <- lift (get foundUser "name");
    email' <- lift (get foundUser "email");
    avatar <- lift (get foundUser "avatar");
    let userData :=
      object [("id", id); ("name", name); ("email", email'); ("avatar", avatar)] in
    setUser userData;;
    setItem "user" (JSON.stringify userData);;
    ret true
  else ret false.

(** [(u: any) => u.email === email] *)
Definition signup_callback (email : string) (u : json) : completion bool :=
  match get (Some u) "email" with
  | Throw e => Throw e
  | Normal e => Normal (strict_eq e email)
  end.

Definition avatar_url (name : string) : completion string :=
  match encodeURIComponent name with
  | Normal seed => Normal ("https://api.dicebear.com/7.x/initials/svg?seed=" +:+ seed)
  | Throw e => Throw e
  end.

(** [uuid] is what [crypto.randomUUID()] returns in this call. *)
Definition signup (uuid : string) (name email password : string) : M bool :=
  item <- getItem "users";
  users <- JSON_parse (or_default item "[]");
  existing <- lift (find users (signup_callback email));
  if truthy existing then ret false
  else
    url <- lift (avatar_url name);
    let newUser :=
      JObj [("id", JStr uuid);
            ("name", JStr name);
            ("email", JStr email);
            ("password", JStr password);
            ("avatar", JStr url)] in
    users' <- lift (push users newUser);
    setItem "users" (JSON.stringify users');;
    id <- lift (get (Some newUser) "id");
    name' <- lift (get (Some newUser) "name");
    email' <- lift (get (Some newUser) "email");
    avatar <- lift (get (Some newUser) "avatar");
    let userData :=
      object [("id", id); ("name", name'); ("email", email'); ("avatar", avatar)] in
    setUser userData;;
    setItem "user" (JSON.stringify userData);;
    ret true.

Definition logout : M unit :=
  setUser JNull;;
  removeItem "user".

End AuthContext.


(** ** [String.prototype.trim] *)

Module Trim.
Local Open Scope char_scope.
Local Open Scope list_scope.

(** The [WhiteSpace] and [LineTerminator] code points of ECMAScript, as
    UTF-8: one, two or three bytes. *)
Definition ws1 (a : ascii) : bool :=
  (a =? "009") || (a =? "010") || (a =? "011") || (a =? "012") || (a =? "013")
  || (a =? " ").

(** U+00A0 *)
Definition ws2 (a b : ascii) : bool := (a =? "194") && (b =? "160").

Definition ws3 (a b c : ascii) : bool :=
  let n := N_of_ascii c in
  (* U+1680 *)
  ((a =? "225") && (b =? "154") && (c =? "128"))
  (* U+2000 .. U+200A, U+2028, U+2029, U+202F *)
  || ((a =? "226") && (b =? "128")
      && (((128 <=? n) && (n <=? 138))%N || (c =? "168") || (c =? "169") || (c =? "175")))
  (* U+205F *)
  || ((a =? "226") && (b =? "129") && (c =? "159"))
  (* U+3000 *)
  || ((a =? "227") && (b =? "128") && (c =? "128"))
  (* U+FEFF *)
  || ((a =? "239") && (b =? "187") && (c =? "191")).

Fixpoint trimStart (s : text) : text :=
  match s with
  | [] => []
  | a :: r1 =>
      if ws1 a then trimStart r1
      else match r1 with
           | [] => s
           | b :: r2 =>
               if ws2 a b then trimStart r2
               else match r2 with
                    | [] => s
                    | c :: r3 => if ws3 a b c then trimStart r3 else s
                    end
           end
  end.

(** The longest suffix of white space is dropped. *)
Fixpoint trimEnd (s : text) : text :=
  match s with
  | [] => []
  | c :: r =>
      match trimStart s with
      | [] => []
      | _ :: _ => c :: trimEnd r
      end
  end.

Definition trim (s : string) : string :=
  string_of (trimEnd (trimStart (text_of s))).

(** One white-space code point. *)
Definition white_space (w : text) : Prop :=
  match w with
  | [a] => ws1 a = true
  | [a; b] => ws2 a b = true
  | [a; b; c] => ws3 a b c = true
  | _ => False
  end.

(** Text that consists of white space only. *)
Inductive blank : text -> Prop :=
| blank_nil : blank []
| blank_cons w s : white_space w -> blank s -> blank (w ++ s).

End Trim.

(** [!s] for a string. *)
Definition falsy_string (s : string) : bool := s =? "".

(** ** [services/api.ts] *)

Record ImageData : Type :=
  { url : string; title : string; description : string }.

Module AnalysisResponse.
Record t : Type :=
  { response : string;
    images : option (list ImageData);
    image_paths : option (list string);
    pdf_path : option string;
    ppt_path : option string;
    dashboard_path : option string }.
End AnalysisResponse.

Inductive AgentType : Type := auto | pdf | ppt | dashboard | data_analysis.

(** An [AgentType] is the string of its name. *)
Definition AgentType_string (a : AgentType) : string :=
  match a with
  | auto => "auto"
  | pdf => "pdf"
  | ppt => "ppt"
  | dashboard => "dashboard"
  | data_analysis => "data_analysis"
  end.

Module File.
Record t : Type := { name : string; contents : string }.
End File.

Inductive FormDataEntryValue : Type :=
| FormString (s : string)
| FormFile (f : File.t).

Abbreviation FormData := (list (string * FormDataEntryValue)).

(** [formData.append(name, value)] *)
Definition append (formData : FormData) (name : string) (v : FormDataEntryValue) : FormData :=
  (formData ++ [(name, v)])%list.

(** The argument of [fetch]; [path] is appended to [API_BASE_URL]. *)
Record Request : Type :=
  { path : string; method : string; body : FormData }.

(** What the [fetch] of an analyze request and the [response.json()] after it
    come to: [fetch] rejects, or there is a response with its [ok] flag and
    the outcome of reading its body, which has the declared shape
    [AnalysisResponse] when it can be read. *)
Inductive fetched : Type :=
| rejected (e : exn)
| responded (ok : bool) (json : completion AnalysisResponse.t).

Module api.

Definition API_BASE_URL (VITE_API_URL : option string) : string :=
  or_default VITE_API_URL "http://localhost:8000".

(** [uploadAndAnalyze] up to its [await fetch(...)]. *)
Definition uploadAndAnalyze_request
    (file : File.t) (prompt : string) (agentType : AgentType) : Request :=
  let formData := [] in
  let formData := append formData "file" (FormFile file) in
  let formData := append formData "prompt" (FormString prompt) in
  let formData :=
    if negb (AgentType_string agentType =? "auto")
    then append formData "agent_type" (FormString (AgentType_string agentType))
    else formData in
  {| path := "/analyze"; method := "POST"; body := formData |}.

(** [analyzeWithExistingData] up to its [await fetch(...)]. *)
Definition analyzeWithExistingData_request
    (prompt : string) (agentType : AgentType) : Request :=
  let formData := [] in
  let formData := append formData "prompt" (FormString prompt) in
  let formData :=
    if negb (AgentType_string agentType =? "auto")
    then append formData "agent_type" (FormString (AgentType_string agentType))
    else formData in
  {| path := "/analyze"; method := "POST"; body := formData |}.

(** The rest of both functions, from the [await] on. *)
Definition analyze_result (f : fetched) : completion AnalysisResponse.t :=
  match f with
  | rejected e => Throw e
  | responded ok json =>
      if negb ok then Throw (Error "Analysis request failed")
      else json
  end.

End api.

(** ** Messages *)

Inductive message_type : Type := user | assistant.

Module Message.
Record t : Type :=
  { id : string;
    type : message_type;
    content : string;
    timestamp : Z;
    images : option (list string);
    imageData : option (list ImageData);
    pdfPath : option string;
    pptPath : option string;
    dashboardPath : option string }.
End Message.

Definition LF : string := String "010"%char EmptyString.

(** The content of a user message sent with a file: a paper clip, the file
    name, an empty line, the prompt. *)
Definition with_attachment (name input : string) : string :=
  "📎 " +:+ name +:+ LF +:+ LF +:+ input.

(** An analyze call that has been issued and not yet settled: the request,
    and the [uploadedFile] the running [handleSendMessage] closed over. *)
Record in_flight : Type :=
  { request : Request; sent_file : option File.t }.

(** ** [components/Chat.tsx] *)

Module Chat.

(** The component's [useState] cells. An event handler, and the part of an
    [async] handler between two [await]s, runs to its end before React renders
    again, and the setter calls it made are applied together: a handler is one
    step from state to state. *)
Record state : Type :=
  { messages : list Message.t;
    input : string;
    loading : bool;
    uploadedFile : option File.t;
    dragActive : bool;
    latestPdf : option string;
    latestPpt : option string;
    latestDashboard : option string;
    showDashboard : bool;
    selectedAgent : AgentType }.

Definition initial : state :=
  {| messages := []; input := ""; loading := false; uploadedFile := None;
     dragActive := false; latestPdf := None; latestPpt := None;
     latestDashboard := None; showDashboard := false; selectedAgent := auto |}.

(** The state setters. [setMessages] takes an updater; [setMessages([])] is
    the constant one. *)
Definition setMessages (update : list Message.t -> list Message.t) (st : state) : state :=
  {| messages := update (messages st); input := input st; loading := loading st;
     uploadedFile := uploadedFile st; dragActive := dragActive st;
     latestPdf := latestPdf st; latestPpt := latestPpt st;
     latestDashboard := latestDashboard st; showDashboard := showDashboard st;
     selectedAgent := selectedAgent st |}.

Definition setInput (v : string) (st : state) : state :=
  {| messages := messages st; input := v; loading := loading st;
     uploadedFile := uploadedFile st; dragActive := dragActive st;
     latestPdf := latestPdf st; latestPpt := latestPpt st;
     latestDashboard := latestDashboard st; showDashboard := showDashboard st;
     selectedAgent := selectedAgent st |}.

Definition setLoading (v : bool) (st : state) : state :=
  {| messages := messages st; input := input st; loading := v;
     uploadedFile := uploadedFile st; dragActive := dragActive st;
     latestPdf := latestPdf st; latestPpt := latestPpt st;
     latestDashboard := latestDashboard st; showDashboard := showDashboard st;
     selectedAgent := selectedAgent st |}.

Definition setUploadedFile (v : option File.t) (st : state) : state :=
  {| messages := messages st; input := input st; loading := loading st;
     uploadedFile := v; dragActive := dragActive st; latestPdf := latestPdf st;
     latestPpt := latestPpt st; latestDashboard := latestDashboard st;
     showDashboard := showDashboard st; selectedAgent := selectedAgent st |}.

Definition setDragActive (v : bool) (st : state) : state :=
  {| messages := messages st; input := input st; loading := loading st;
     uploadedFile := uploadedFile st; dragActive := v; latestPdf := latestPdf st;
     latestPpt := latestPpt st; latestDashboard := latestDashboard st;
     showDashboard := showDashboard st; selectedAgent := selectedAgent st |}.

Definition setLatestPdf (v : option string) (st : state) : state :=
  {| messages := messages st; input := input st; loading := loading st;
     uploadedFile := uploadedFile st; dragActive := dragActive st; latestPdf := v;
     latestPpt := latestPpt st; latestDashboard := latestDashboard st;
     showDashboard := showDashboard st; selectedAgent := selectedAgent st |}.

Definition setLatestPpt (v : option string) (st : state) : state :=
  {| messages := messages st; input := input st; loading := loading st;
     uploadedFile := uploadedFile st; dragActive := dragActive st;
     latestPdf := latestPdf st; latestPpt := v;
     latestDashboard := latestDashboard st; showDashboard := showDashboard st;
     selectedAgent := selectedAgent st |}.

Definition setLatestDashboard (v : option string) (st : state) : state :=
  {| messages := messages st; input := input st; loading := loading st;
     uploadedFile := uploadedFile st; dragActive := dragActive st;
     latestPdf := latestPdf st; latestPpt := latestPpt st; latestDashboard := v;
     showDashboard := showDashboard st; selectedAgent := selectedAgent st |}.

Definition setShowDashboard (v : bool) (st : state) : state :=
  {| messages := messages st; input := input st; loading := loading st;
     uploadedFile := uploadedFile st; dragActive := dragActive st;
     latestPdf := latestPdf st; latestPpt := latestPpt st;
     latestDashboard := latestDashboard st; showDashboard := v;
     selectedAgent := selectedAgent st |}.

Definition setSelectedAgent (v : AgentType) (st : state) : state :=
  {| messages := messages st; input := input st; loading := loading st;
     uploadedFile := uploadedFile st; dragActive := dragActive st;
     latestPdf := latestPdf st; latestPpt := latestPpt st;
     latestDashboard := latestDashboard st; showDashboard := showDashboard st;
     selectedAgent := v |}.


(** [handleSendMessage] up to its [await]. [id] is the value of
    [Math.random().toString(36).substring(7)] and [now] of [new Date()] in
    this call; the result is the state after the synchronous part and the
    call that is now in flight, if one was issued. *)
Definition handleSendMessage (id : string) (now : Z) (st : state)
  : state * option in_flight :=
  if falsy_string (Trim.trim (input st)) then (st, None)
  else
    let userMessage :=
      {| Message.id := id;
         Message.type := user;
         Message.content :=
           match uploadedFile st with
           | Some file => with_attachment (File.name file) (input st)
           | None => input st
           end;
         Message.timestamp := now;
         Message.images := None;
         Message.imageData := None;
         Message.pdfPath := None;
         Message.pptPath := None;
         Message.dashboardPath := None |} in
    let st1 := setMessages (fun prev => (prev ++ [userMessage])%list) st in
    let st2 := setInput "" st1 in
    let st3 := setLoading true st2 in
    (st3,
     Some {| request :=
               match uploadedFile st with
               | Some file => api.uploadAndAnalyze_request file (input st) (selectedAgent st)
               | None => api.analyzeWithExistingData_request (input st) (selectedAgent st)
               end;
             sent_file := uploadedFile st |}).

(** The rest of [handleSendMessage], run when the call [call] settles
    with [outcome], on the state of that moment. *)
Definition handleSendMessage_settled
    (call : in_flight) (outcome : fetched) (id : string) (now : Z) (st : state)
  : state :=
  match api.analyze_result outcome with
  | Normal response =>
      let st := match sent_file call with
                | Some _ => setUploadedFile None st
                | None => st
                end in
      let st := if truthy_string (AnalysisResponse.pdf_path response)
                then setLatestPdf (AnalysisResponse.pdf_path response) st else st in
      let st := if truthy_string (AnalysisResponse.ppt_path response)
                then setLatestPpt (AnalysisResponse.ppt_path response) st else st in
      let st := if truthy_string (AnalysisResponse.dashboard_path response)
                then setLatestDashboard (AnalysisResponse.dashboard_path response) st
                else st in
      let assistantMessage :=
        {| Message.id := id;
           Message.type := assistant;
           Message.content := AnalysisResponse.response response;
           Message.timestamp := now;
           Message.images := AnalysisResponse.image_paths response;
           Message.imageData := AnalysisResponse.images response;
           Message.pdfPath := AnalysisResponse.pdf_path response;
           Message.pptPath := AnalysisResponse.ppt_path response;
           Message.dashboardPath := AnalysisResponse.dashboard_path response |} in
      let st := setMessages (fun prev => (prev ++ [assistantMessage])%list) st in
      setLoading false st
  | Throw error =>
      let errorMessage :=
        {| Message.id := id;
           Message.type := assistant;
           Message.content :=
             "Error: " +:+ (if instanceof_Error error then message error
                            else "An unexpected error occurred");
           Message.timestamp := now;
           Message.images := None;
           Message.imageData := None;
           Message.pdfPath := None;
           Message.pptPath := None;
           Message.dashboardPath := None |} in
      let st := setMessages (fun prev => (prev ++ [errorMessage])%list) st in
      setLoading false st
  end.

(** [confirmed] is the answer of the [confirm(...)] dialog. *)
Definition handleClearChat (confirmed : bool) (st : state) : state :=
  if confirmed then
    let st := setMessages (fun _ => []) st in
    let st := setUploadedFile None st in
    let st := setLatestPdf None st in
    let st := setLatestPpt None st in
    setLatestDashboard None st
  else st.

(** The text area: [onChange], and [onKeyDown] with the key and the shift
    flag of the event. The element carries [disabled={loading}]. *)
Definition textarea_onChange (v : string) (st : state) : state := setInput v st.

Definition textarea_onKeyDown (key : string) (shiftKey : bool)
    (id : string) (now : Z) (st : state) : state * option in_flight :=
  if (key =? "Enter") && negb shiftKey then
    if negb (falsy_string (Trim.trim (input st))) && negb (loading st)
    then handleSendMessage id now st
    else (st, None)
  else (st, None).

(** The send button: [disabled={loading || !input.trim()}]; a click on the
    enabled button submits the form, whose [onSubmit] is
    [handleSendMessage]. *)
Definition send_disabled (st : state) : bool :=
  loading st || falsy_string (Trim.trim (input st)).

Definition send_onClick (id : string) (now : Z) (st : state)
  : state * option in_flight :=
  if send_disabled st then (st, None) else handleSendMessage id now st.

End Chat.

(** ** [components/AgentPage.tsx] *)

Module AgentPage.

(** The [agentType] prop and the component's [useState] cells. *)
Record state : Type :=
  { agentType : AgentType;
    messages : list Message.t;
    input : string;
    loading : bool;
    uploadedFile : option File.t;
    dragActive : bool;
    latestPdf : option string;
    latestPpt : option string;
    latestDashboard : option string }.

Definition initial (agentType : AgentType) : state :=
  {| agentType := agentType; messages := []; input := ""; loading := false;
     uploadedFile := None; dragActive := false; latestPdf := None;
     latestPpt := None; latestDashboard := None |}.

Definition setMessages (update : list Message.t -> list Message.t) (st : state) : state :=
  {| agentType := agentType st; messages := update (messages st); input := input st;
     loading := loading st; uploadedFile := uploadedFile st;
     dragActive := dragActive st; latestPdf := latestPdf st;
     latestPpt := latestPpt st; latestDashboard := latestDashboard st |}.

Definition setInput (v : string) (st : state) : state :=
  {| agentType := agentType st; messages := messages st; input := v;
     loading := loading st; uploadedFile := uploadedFile st;
     dragActive := dragActive st; latestPdf := latestPdf st;
     latestPpt := latestPpt st; latestDashboard := latestDashboard st |}.

Definition setLoading (v : bool) (st : state) : state :=
  {| agentType := agentType st; messages := messages st; input := input st;
     loading := v; uploadedFile := uploadedFile st; dragActive := dragActive st;
     latestPdf := latestPdf st; latestPpt := latestPpt st;
     latestDashboard := latestDashboard st |}.

Definition setUploadedFile (v : option File.t) (st : state) : state :=
  {| agentType := agentType st; messages := messages st; input := input st;
     loading := loading st; uploadedFile := v; dragActive := dragActive st;
     latestPdf := latestPdf st; latestPpt := latestPpt st;
     latestDashboard := latestDashboard st |}.

Definition setDragActive (v : bool) (st : state) : state :=
  {| agentType := agentType st; messages := messages st; input := input st;
     loading := loading st; uploadedFile := uploadedFile st; dragActive := v;
     latestPdf := latestPdf st; latestPpt := latestPpt st;
     latestDashboard := latestDashboard st |}.

Definition setLatestPdf (v : option string) (st : state) : state :=
  {| agentType := agentType st; messages := messages st; input := input st;
     loading := loading st; uploadedFile := uploadedFile st;
     dragActive := dragActive st; latestPdf := v; latestPpt := latestPpt st;
     latestDashboard := latestDashboard st |}.

Definition setLatestPpt (v : option string) (st : state) : state :=
  {| agentType := agentType st; messages := messages st; input := input st;
     loading := loading st; uploadedFile := uploadedFile st;
     dragActive := dragActive st; latestPdf := latestPdf st; latestPpt := v;
     latestDashboard := latestDashboard st |}.

Definition setLatestDashboard (v : option string) (st : state) : state :=
  {| agentType := agentType st; messages := messages st; input := input st;
     loading := loading st; uploadedFile := uploadedFile st;
     dragActive := dragActive st; latestPdf := latestPdf st;
     latestPpt := latestPpt st; latestDashboard := v |}.

(** [handleSendMessage] up to its [await]. [id] is the value of
    [Math.random().toString(36).substring(7)] and [now] of [new Date()] in
    this call; the result is the state after the synchronous part and the
    call that is now in flight, if one was issued. *)
Definition handleSendMessage (id : string) (now : Z) (st : state)
  : state * option in_flight :=
  if falsy_string (Trim.trim (input st)) then (st, None)
  else
    let userMessage :=
      {| Message.id := id;
         Message.type := user;
         Message.content :=
           match uploadedFile st with
           | Some file => with_attachment (File.name file) (input st)
           | None => input st
           end;
         Message.timestamp := now;
         Message.images := None;
         Message.imageData := None;
         Message.pdfPath := None;
         Message.pptPath := None;
         Message.dashboardPath := None |} in
    let st1 := setMessages (fun prev => (prev ++ [userMessage])%list) st in
    let st2 := setInput "" st1 in
    let st3 := setLoading true st2 in
    (st3,
     Some {| request :=
               match uploadedFile st with
               | Some file => api.uploadAndAnalyze_request file (input st) (agentType st)
               | None => api.analyzeWithExistingData_request (input st) (agentType st)
               end;
             sent_file := uploadedFile st |}).

(** The rest of [handleSendMessage], run when the call [call] settles
    with [outcome], on the state of that moment. *)
Definition handleSendMessage_settled
    (call : in_flight) (outcome : fetched) (id : string) (now : Z) (st : state)
  : state :=
  match api.analyze_result outcome with
  | Normal response =>
      let st := match sent_file call with
                | Some _ => setUploadedFile None st
                | None => st
                end in
      let st := if truthy_string (AnalysisResponse.pdf_path response)
                then setLatestPdf (AnalysisResponse.pdf_path response) st else st in
      let st := if truthy_string (AnalysisResponse.ppt_path response)
                then setLatestPpt (AnalysisResponse.ppt_path response) st else st in
      let st := if truthy_string (AnalysisResponse.dashboard_path response)
                then setLatestDashboard (AnalysisResponse.dashboard_path response) st
                else st in
      let assistantMessage :=
        {| Message.id := id;
           Message.type := assistant;
           Message.content := AnalysisResponse.response response;
           Message.timestamp := now;
           Message.images := AnalysisResponse.image_paths response;
           Message.imageData := AnalysisResponse.images response;
           Message.pdfPath := AnalysisResponse.pdf_path response;
           Message.pptPath := AnalysisResponse.ppt_path response;
           Message.dashboardPath := AnalysisResponse.dashboard_path response |} in
      let st := setMessages (fun prev => (prev ++ [assistantMessage])%list) st in
      setLoading false st
  | Throw error =>
      let errorMessage :=
        {| Message.id := id;
           Message.type := assistant;
           Message.content :=
             "Error: " +:+ (if instanceof_Error error then message error
                            else "An unexpected error occurred");
           Message.timestamp := now;
           Message.images := None;
           Message.imageData := None;
           Message.pdfPath := None;
           Message.pptPath := None;
           Message.dashboardPath := None |} in
      let st := setMessages (fun prev => (prev ++ [errorMessage])%list) st in
      setLoading false st
  end.

(** The text area: [onChange], and [onKeyDown], which calls
    [handleSendMessage] on Enter without Shift. The element has no
    [disabled] attribute. *)
Definition textarea_onChange (v : string) (st : state) : state := setInput v st.

Definition textarea_onKeyDown (key : string) (shiftKey : bool)
    (id : string) (now : Z) (st : state) : state * option in_flight :=
  if (key =? "Enter") && negb shiftKey then handleSendMessage id now st
  else (st, None).

(** The send button: [disabled={loading || !input.trim()}]. *)
Definition send_disabled (st : state) : bool :=
  loading st || falsy_string (Trim.trim (input st)).

Definition send_onClick (id : string) (now : Z) (st : state)
  : state * option in_flight :=
  if send_disabled st then (st, None) else handleSendMessage id now st.

End AgentPage.

(** ** Credential records *)

(** The records [signup] writes to the [users] item: five strings, laid out
    as the [newUser] literal. [session] is the [userData] object built from
    such a record. *)
Module Credential.
Record t : Type :=
  { id : string; name : string; email : string; password : string; avatar : string }.

Definition to_json (c : t) : json :=
  JObj [("id", JStr (id c));
        ("name", JStr (name c));
        ("email", JStr (email c));
        ("password", JStr (password c));
        ("avatar", JStr (avatar c))].

Definition session (c : t) : json :=
  JObj [("id", JStr (id c));
        ("name", JStr (name c));
        ("email", JStr (email c));
        ("avatar", JStr (avatar c))].
End Credential.

(** The tests of the two [find] callbacks, on records. *)
Definition matches (email password : string) (c : Credential.t) : bool :=
  (Credential.email c =? email) && (Credential.password c =? password).

Definition same_email (email : string) (c : Credential.t) : bool :=
  Credential.email c =? email.

(** The record [signup] builds, [seed] being the encoded name. *)
Definition new_credential (uuid name email password seed : string) : Credential.t :=
  {| Credential.id := uuid;
     Credential.name := name;
     Credential.email := email;
     Credential.password := password;
     Credential.avatar := "https://api.dicebear.com/7.x/initials/svg?seed=" +:+ seed |}.

(** The [users] item of [localStorage] (or the default [[]]) parses to the
    records [store]. *)
Definition stored_credentials (st : AuthContext.state) (store : list Credential.t) : Prop :=
  JSON.parse (or_default (AuthContext.localStorage st !! "users") "[]")
  = Some (JArr (map Credential.to_json store)).

(** ** Sample data *)

Module Samples.
Import AuthContext.

(** Two records, as [signup] lays them out. *)
Definition ann : Credential.t :=
  {| Credential.id := "u-1"; Credential.name := "Ann Lee";
     Credential.email := "ann@x.io"; Credential.password := "secret1";
     Credential.avatar := "https://api.dicebear.com/7.x/initials/svg?seed=Ann%20Lee" |}.

Definition bob : Credential.t :=
  {| Credential.id := "u-2"; Credential.name := "Bob";
     Credential.email := "bob@x.io"; Credential.password := "hunter22";
     Credential.avatar := "https://api.dicebear.com/7.x/initials/svg?seed=Bob" |}.

Definition two_users : state :=
  {| user := JNull;
     localStorage :=
       {[ "users" := JSON.stringify (JArr (map Credential.to_json [ann; bob])) ]} |}.


(** A store whose [users] and [user] items are not JSON. *)
Definition corrupt : state :=
  {| user := JNull;
     localStorage := {[ "users" := "{oops"; "user" := "{oops" ]} |}.

Definition sales_csv : File.t :=
  {| File.name := "sales.csv"; File.contents := "month,total" |}.

(** A chat with a staged file and a typed prompt. *)
Definition chat_staged : Chat.state :=
  Chat.setInput "Summarise the sales" (Chat.setUploadedFile (Some sales_csv) Chat.initial).

(** A chat that has recorded a report and a deck. *)
Definition chat_with_reports : Chat.state :=
  Chat.setLatestPpt (Some "/files/deck.pptx")
    (Chat.setLatestPdf (Some "/files/report.pdf") Chat.initial).

Definition no_artifacts (text : string) : AnalysisResponse.t :=
  {| AnalysisResponse.response := text;
     AnalysisResponse.images := None;
     AnalysisResponse.image_paths := None;
     AnalysisResponse.pdf_path := None;
     AnalysisResponse.ppt_path := None;
     AnalysisResponse.dashboard_path := None |}.

(** A response whose [pdf_path] is present and empty. *)
Definition empty_pdf_path : AnalysisResponse.t :=
  {| AnalysisResponse.response := "done";
     AnalysisResponse.images := None;
     AnalysisResponse.image_paths := None;
     AnalysisResponse.pdf_path := Some "";
     AnalysisResponse.ppt_path := None;
     AnalysisResponse.dashboard_path := None |}.

(** A response that carries a dashboard path only. *)
Definition dashboard_only : AnalysisResponse.t :=
  {| AnalysisResponse.response := "done";
     AnalysisResponse.images := None;
     AnalysisResponse.image_paths := None;
     AnalysisResponse.pdf_path := None;
     AnalysisResponse.ppt_path := None;
     AnalysisResponse.dashboard_path := Some "/files/dash.html" |}.

(** A space, a tab, a line feed and a no-break space. *)
Definition spaces : string :=
  String " " (String "009" (String "010" (String "194" (String "160" EmptyString)))).

End Samples.

(** ** Using the auth facade *)

Module AuthUse.
Import AuthContext.

(** A page reload: the provider starts again with [user] null on the same
    [localStorage]; the mount effect then runs [hydrate]. *)
Definition reloaded (st : state) : state :=
  {| user := JNull; localStorage := localStorage st |}.

(** A call of one of the three operations of the context value. *)
Inductive call : Type :=
| call_login (email password : string)
| call_signup (uuid name email password : string)
| call_logout.

(** The settled promise of the call ([logout] returns nothing: [true] stands
    for its normal end) and the state after it. *)
Definition perform (c : call) (st : state) : completion bool * state :=
  match c with
  | call_login email password => login email password st
  | call_signup uuid name email password => signup uuid name email password st
  | call_logout =>
      match logout st with
      | (Normal _, st') => (Normal true, st')
      | (Throw e, st') => (Throw e, st')
      end
  end.

(** Calls made one after the other, whatever they return. *)
Fixpoint perform_all (calls : list call) (st : state) : state :=
  match calls with
  | [] => st
  | c :: rest => perform_all rest (perform c st).2
  end.


End AuthUse.

(** ** The download name of a report *)

(** [s.split(sep)] for a one-character separator: the pieces between the
    separators, at least one. *)
Fixpoint split (sep : ascii) (s : text) : list text :=
  match s with
  | [] => [[]]
  | c :: r =>
      if (c =? sep)%char then [] :: split sep r
      else match split sep r with
           | piece :: pieces => (c :: piece) :: pieces
           | [] => [[c]]
           end
  end%list.

(** [path.split('/').pop() || 'report']: what [handleDownloadReport] gives
    the [download] attribute of its link. [pop] of an array is its last
    element. *)
Definition download_name (path : string) : string :=
  or_default (string_of <$> last (split "/" (text_of path))) "report".

(** ** The views as event systems *)

(** A view is the state of its component and the analyze calls that are in
    flight. The events are those of the elements the component renders, and
    the settling of a call in flight; each runs its handler to the end. *)
Module ChatView.
Import Chat.

Record view : Type := { st : state; pending : list in_flight }.

Definition initial_view : view := {| st := initial; pending := [] |}.

(** [e.type] is the name of the drag event. *)
Definition handleDrag (type : string) (st : state) : state :=
  if (type =? "dragenter") || (type =? "dragover") then setDragActive true st
  else if type =? "dragleave" then setDragActive false st
  else st.

(** [files] is [e.dataTransfer.files]. *)
Definition handleDrop (files : list File.t) (st : state) : state :=
  let st := setDragActive false st in
  match files with
  | file :: _ => setUploadedFile (Some file) st
  | [] => st
  end.

(** [files] is [e.target.files]; no list at all counts as the empty one. *)
Definition handleFileChange (files : list File.t) (st : state) : state :=
  match files with
  | file :: _ => setUploadedFile (Some file) st
  | [] => st
  end.

(** The button next to the staged file. *)
Definition remove_file_onClick (st : state) : state := setUploadedFile None st.

(** The agent selector. *)
Definition agent_onChange (a : AgentType) (st : state) : state := setSelectedAgent a st.

Inductive event : Type :=
| Change (value : string)
| KeyDown (key : string) (shiftKey : bool) (id : string) (now : Z)
| SendClick (id : string) (now : Z)
| Drag (type : string)
| Drop (files : list File.t)
| FileChange (files : list File.t)
| RemoveFile
| SelectAgent (a : AgentType)
| ClearChat (confirmed : bool)
| Settle (i : nat) (outcome : fetched) (id : string) (now : Z).

(** A handler that may issue a call. *)
Definition issue (r : state * option in_flight) (v : view) : view :=
  {| st := r.1;
     pending := match r.2 with
                | Some call => (pending v ++ [call])%list
                | None => pending v
                end |}.

Definition update (s : state) (v : view) : view := {| st := s; pending := pending v |}.

(** The text area and the agent selector are disabled while [loading]: a
    disabled control gets no input events. [Settle i] is the [i]th call in
    flight settling; there is no such event when there is no such call. *)
Definition step (e : event) (v : view) : view :=
  match e with
  | Change value =>
      if loading (st v) then v else update (textarea_onChange value (st v)) v
  | KeyDown key shiftKey id now =>
      if loading (st v) then v else issue (textarea_onKeyDown key shiftKey id now (st v)) v
  | SendClick id now => issue (send_onClick id now (st v)) v
  | Drag type => update (handleDrag type (st v)) v
  | Drop files => update (handleDrop files (st v)) v
  | FileChange files => update (handleFileChange files (st v)) v
  | RemoveFile => update (remove_file_onClick (st v)) v
  | SelectAgent a =>
      if loading (st v) then v else update (agent_onChange a (st v)) v
  | ClearChat confirmed => update (handleClearChat confirmed (st v)) v
  | Settle i outcome id now =>
      match pending v !! i with
      | Some call =>
          {| st := handleSendMessage_settled call outcome id now (st v);
             pending := delete i (pending v) |}
      | None => v
      end
  end.

Definition run (events : list event) (v : view) : view := fold_left (fun v e => step e v) events v.

End ChatView.

Module AgentPageView.
Import AgentPage.

Record view : Type := { st : state; pending : list in_flight }.

Definition initial_view (agentType : AgentType) : view :=
  {| st := initial agentType; pending := [] |}.

Definition handleDrag (type : string) (st : state) : state :=
  if (type =? "dragenter") || (type =? "dragover") then setDragActive true st
  else if type =? "dragleave" then setDragActive false st
  else st.

Definition handleDrop (files : list File.t) (st : state) : state :=
  let st := setDragActive false st in
  match files with
  | file :: _ => setUploadedFile (Some file) st
  | [] => st
  end.

Definition handleFileChange (files : list File.t) (st : state) : state :=
  match files with
  | file :: _ => setUploadedFile (Some file) st
  | [] => st
  end.

(** The button in the file badge. *)
Definition remove_file_onClick (st : state) : state := setUploadedFile None st.

Inductive event : Type :=
| Change (value : string)
| KeyDown (key : string) (shiftKey : bool) (id : string) (now : Z)
| SendClick (id : string) (now : Z)
| Drag (type : string)
| Drop (files : list File.t)
| FileChange (files : list File.t)
| RemoveFile
| Settle (i : nat) (outcome : fetched) (id : string) (now : Z).

Definition issue (r : state * option in_flight) (v : view) : view :=
  {| st := r.1;
     pending := match r.2 with
                | Some call => (pending v ++ [call])%list
                | None => pending v
                end |}.

Definition update (s : state) (v : view) : view := {| st := s; pending := pending v |}.

(** No control of this view is disabled while [loading], the send button
    apart. *)
Definition step (e : event) (v : view) : view :=
  match e with
  | Change value => update (textarea_onChange value (st v)) v
  | KeyDown key shiftKey id now => issue (textarea_onKeyDown key shiftKey id now (st v)) v
  | SendClick id now => issue (send_onClick id now (st v)) v
  | Drag type => update (handleDrag type (st v)) v
  | Drop files => update (handleDrop files (st v)) v
  | FileChange files => update (handleFileChange files (st v)) v
  | RemoveFile => update (remove_file_onClick (st v)) v
  | Settle i outcome id now =>
      match pending v !! i with
      | Some call =>
          {| st := handleSendMessage_settled call outcome id now (st v);
             pending := delete i (pending v) |}
      | None => v
      end
  end.

Definition run (events : list event) (v : view) : view := fold_left (fun v e => step e v) events v.

End AgentPageView.

(** The path a conversation shows last: the path of the last message that
    has one. *)
Definition last_path (field : Message.t -> option string) (messages : list Message.t)
  : option string :=
  fold_left (fun found m => if truthy_string (field m) then field m else found)
            messages None.

Definition has_type (t : message_type) (m : Message.t) : bool :=
  match t, Message.type m with
  | user, user | assistant, assistant => true
  | _, _ => false
  end.

(** How many messages a conversation has from the user, or the assistant. *)
Definition count_type (t : message_type) (messages : list Message.t) : nat :=
  length (List.filter (has_type t) messages).

(** ** What the views keep up, event after event *)

(** The chat view is idle with nothing in flight, or busy with one call. *)
Definition chat_idle_or_one (v : ChatView.view) : Prop :=
  (Chat.loading (ChatView.st v) = false /\ ChatView.pending v = [])
  \/ (Chat.loading (ChatView.st v) = true /\ exists call, ChatView.pending v = [call]).

(** Each pointer is the last path of its kind among the messages. *)
Definition chat_pointers (s : Chat.state) : Prop :=
  Chat.latestPdf s = last_path Message.pdfPath (Chat.messages s)
  /\ Chat.latestPpt s = last_path Message.pptPath (Chat.messages s)
  /\ Chat.latestDashboard s = last_path Message.dashboardPath (Chat.messages s).

Definition page_pointers (s : AgentPage.state) : Prop :=
  AgentPage.latestPdf s = last_path Message.pdfPath (AgentPage.messages s)
  /\ AgentPage.latestPpt s = last_path Message.pptPath (AgentPage.messages s)
  /\ AgentPage.latestDashboard s
     = last_path Message.dashboardPath (AgentPage.messages s).

(** Every user message of the agent page has its reply or its call. *)
Definition page_balance (v : AgentPageView.view) : Prop :=
  count_type user (AgentPage.messages (AgentPageView.st v))
  = count_type assistant (AgentPage.messages (AgentPageView.st v))
    + length (AgentPageView.pending v).

(** Whose turn the [i]th message is when user and assistant alternate. *)
Definition turn (i : nat) : message_type := if Nat.even i then user else assistant.

(** No confirmed reset among the events. *)
Definition no_reset (e : ChatView.event) : Prop :=
  match e with
  | ChatView.ClearChat true => False
  | _ => True
  end.

Definition chat_turns (v : ChatView.view) : Prop :=
  chat_idle_or_one v
  /\ map Message.type (Chat.messages (ChatView.st v))
     = map turn (seq 0 (length (Chat.messages (ChatView.st v))))
  /\ Nat.even (length (Chat.messages (ChatView.st v)))
     = negb (Chat.loading (ChatView.st v)).

(** ** [App]: the routes and their guards *)

Module App.

Inductive page : Type :=
| Landing | SignIn | SignUp | MainHub | Chat
| DataAnalysisPage | ReportPage | PresentationPage | DashboardPage.

(** The [element] of a route: a page under one of the two guards, or a
    redirect. *)
Inductive element : Type :=
| PublicRoute (children : page)
| ProtectedRoute (children : page)
| Navigate (to : string).

(** [AppRoutes]: path and element of each [Route]. *)
Definition routes : list (string * element) :=
  [ ("/", PublicRoute Landing);
    ("/signin", PublicRoute SignIn);
    ("/signup", PublicRoute SignUp);
    ("/hub", ProtectedRoute MainHub);
    ("/chat", ProtectedRoute Chat);
    ("/analysis", ProtectedRoute DataAnalysisPage);
    ("/report", ProtectedRoute ReportPage);
    ("/presentation", ProtectedRoute PresentationPage);
    ("/dashboard", ProtectedRoute DashboardPage);
    ("*", Navigate "/") ]%list.

(** What an element renders to: its page, or a redirect. *)
Inductive rendered : Type :=
| Shows (p : page)
| Redirects (to : string).

Definition render (isAuthenticated : bool) (e : element) : rendered :=
  match e with
  | ProtectedRoute children =>
      if negb isAuthenticated then Redirects "/signin" else Shows children
  | PublicRoute children =>
      if isAuthenticated then Redirects "/hub" else Shows children
  | Navigate to => Redirects to
  end.

(** The route a redirect arrives at. The targets are paths written in the
    table, which match their own route; any other path falls to the [*]
    route. *)
Fixpoint route_at (table : list (string * element)) (path : string) : element :=
  match table with
  | [] => Navigate "/"
  | (pattern, e) :: rest =>
      if (pattern =? path) || (pattern =? "*") then e else route_at rest path
  end%list.

(** Rendering a route in the mounted application and going after at most
    [redirects] redirects: a redirect changes the location and not the
    user, so the guards along the way see the same answer. *)
Fixpoint follow (redirects : nat) (isAuthenticated : bool) (e : element) : option page :=
  match render isAuthenticated e with
  | Shows p => Some p
  | Redirects to =>
      match redirects with
      | 0 => None
      | S n => follow n isAuthenticated (route_at routes to)
      end
  end.

Definition public (p : page) : bool :=
  match p with
  | Landing | SignIn | SignUp => true
  | _ => false
  end.

(** A page load at the route [e], over the browser storage of [st]. The
    provider starts with no user, so the first render sees a visitor who is
    not signed in, and a redirect it makes is taken. Then the mount effect of
    the provider has read the session, and the route the browser is at by
    then renders with the user it found, redirects and all. An effect that
    throws leaves no page. *)
Definition load (st : AuthContext.state) (e : element) : completion (option page) :=
  let first :=
    match render false e with
    | Shows _ => e
    | Redirects to => route_at routes to
    end in
  match AuthContext.hydrate (AuthUse.reloaded st) with
  | (Throw err, _) => Throw err
  | (Normal _, st') => Normal (follow 2 (AuthContext.isAuthenticated st') first)
  end.

End App.

(** ** Regular expressions *)

(** Patterns over code units, and [test] for a pattern between [^] and [$]:
    the whole string has to match. Matching is by derivatives. *)
Module RegExp.
Local Open Scope list_scope.

Inductive regex : Type :=
| Void
| Eps
| Class (member : N -> bool)
| Cat (r1 r2 : regex)
| Alt (r1 r2 : regex)
| Star (r : regex).

(** [r+] *)
Definition Plus (r : regex) : regex := Cat r (Star r).

Fixpoint nullable (r : regex) : bool :=
  match r with
  | Void | Class _ => false
  | Eps | Star _ => true
  | Cat r1 r2 => nullable r1 && nullable r2
  | Alt r1 r2 => nullable r1 || nullable r2
  end.

Fixpoint derive (u : N) (r : regex) : regex :=
  match r with
  | Void | Eps => Void
  | Class member => if member u then Eps else Void
  | Cat r1 r2 =>
      if nullable r1 then Alt (Cat (derive u r1) r2) (derive u r2)
      else Cat (derive u r1) r2
  | Alt r1 r2 => Alt (derive u r1) (derive u r2)
  | Star r => Cat (derive u r) (Star r)
  end.

Fixpoint matches_all (r : regex) (units : list N) : bool :=
  match units with
  | [] => nullable r
  | u :: rest => matches_all (derive u r) rest
  end.

Definition test (r : regex) (s : string) : bool := matches_all r (Utf16.code_units s).

(** What it is for a sequence of units to match a pattern. *)
Inductive accepts : regex -> list N -> Prop :=
| accepts_eps : accepts Eps []
| accepts_class member u : member u = true -> accepts (Class member) [u]
| accepts_cat r1 r2 s1 s2 : accepts r1 s1 -> accepts r2 s2 -> accepts (Cat r1 r2) (s1 ++ s2)
| accepts_alt_l r1 r2 s : accepts r1 s -> accepts (Alt r1 r2) s
| accepts_alt_r r1 r2 s : accepts r2 s -> accepts (Alt r1 r2) s
| accepts_star_nil r : accepts (Star r) []
| accepts_star_cons r s1 s2 :
    accepts r s1 -> accepts (Star r) s2 -> accepts (Star r) (s1 ++ s2).

(** [\s]: the white space and line terminator code units. *)
Definition space (u : N) : bool :=
  ((9 <=? u) && (u <=? 13) || (u =? 32) || (u =? 160) || (u =? 5760)
   || (8192 <=? u) && (u <=? 8202) || (u =? 8232) || (u =? 8233) || (u =? 8239)
   || (u =? 8287) || (u =? 12288) || (u =? 65279))%N.

End RegExp.

(** ** [components/SignUp.tsx] *)

Module SignUp.
Import RegExp.

(** The component's [useState] cells. *)
Record state : Type :=
  { name : string;
    email : string;
    password : string;
    confirmPassword : string;
    error : string;
    loading : bool }.

Definition setError (v : string) (st : state) : state :=
  {| name := name st; email := email st; password := password st;
     confirmPassword := confirmPassword st; error := v; loading := loading st |}.

Definition setLoading (v : bool) (st : state) : state :=
  {| name := name st; email := email st; password := password st;
     confirmPassword := confirmPassword st; error := error st; loading := v |}.

(** [[^\s@]] *)
Definition no_space_no_at (u : N) : bool := negb (space u || (u =? 64)%N).

(** [/^[^\s@]+@[^\s@]+\.[^\s@]+$/] *)
Definition emailRegex : regex :=
  Cat (Plus (Class no_space_no_at))
    (Cat (Class (N.eqb 64))
       (Cat (Plus (Class no_space_no_at))
          (Cat (Class (N.eqb 46))
             (Plus (Class no_space_no_at))))).

(** The outcome of a submit: how the promise of [handleSubmit] settled, the
    form, where [navigate] was sent if it was called, and the state of the
    auth provider. *)
Record submitted : Type :=
  { settled : completion unit;
    form : state;
    navigated : option string;
    auth : AuthContext.state }.

(** [uuid] is what [crypto.randomUUID()] returns if [signup] gets to it. *)
Definition handleSubmit (uuid : string) (st : state) (a : AuthContext.state) : submitted :=
  let st := setError "" st in
  let st := setLoading true st in
  if falsy_string (name st) || falsy_string (email st) || falsy_string (password st)
     || falsy_string (confirmPassword st)
  then {| settled := Normal tt;
          form := setLoading false (setError "Please fill in all fields" st);
          navigated := None; auth := a |}
  else if (Utf16.length (password st) <? 6)%nat
  then {| settled := Normal tt;
          form := setLoading false (setError "Password must be at least 6 characters" st);
          navigated := None; auth := a |}
  else if negb (password st =? confirmPassword st)
  then {| settled := Normal tt;
          form := setLoading false (setError "Passwords do not match" st);
          navigated := None; auth := a |}
  else if negb (test emailRegex (email st))
  then {| settled := Normal tt;
          form := setLoading false (setError "Please enter a valid email" st);
          navigated := None; auth := a |}
  else
    match AuthContext.signup uuid (name st) (email st) (password st) a with
    | (Throw e, a') =>
        {| settled := Throw e; form := st; navigated := None; auth := a' |}
    | (Normal success, a') =>
        let st := setLoading false st in
        if success
        then {| settled := Normal tt; form := st; navigated := Some "/chat"; auth := a' |}
        else {| settled := Normal tt; form := setError "Email already exists" st;
                navigated := None; auth := a' |}
    end.

(** The form gets past the four checks of [handleSubmit]. *)
Definition passes_checks (st : state) : Prop :=
  name st <> "" /\ email st <> "" /\ password st <> "" /\ confirmPassword st <> ""
  /\ 6 <= Utf16.length (password st)
  /\ password st = confirmPassword st
  /\ test emailRegex (email st) = true.

(** The messages of the four checks. *)
Definition check_messages : list string :=
  [ "Please fill in all fields";
    "Password must be at least 6 characters";
    "Passwords do not match";
    "Please enter a valid email" ]%list.

(** A form that gets past the checks, and one with too short a password. *)
Definition cy_form : state :=
  {| name := "Cy"; email := "cy@x.io"; password := "letmein";
     confirmPassword := "letmein"; error := "Passwords do not match"; loading := false |}.

Definition short_form : state :=
  {| name := "Cy"; email := "cy@x.io"; password := "abc";
     confirmPassword := "abc"; error := ""; loading := false |}.


End SignUp.

(** ** [handleLogout], the same in [MainHub], [Chat] and [AgentPage] *)

(** The state [logout] leaves and the path given to [navigate]. *)
Definition handleLogout (st : AuthContext.state) : AuthContext.state * string :=
  ((AuthContext.logout st).2, "/").

(** ** The dashboard button of the chat header *)

Module ChatHeader.
Import Chat.

Definition dashboard_prompt : string := "Create an interactive dashboard for this data".

(** [handleSendMessage] up to its [await], called inside another handler:
    it reads the cells of the render that made it, [seen], and its updates
    join the queue after those of the caller, [queued]. *)
Definition submit_from (seen : state) (id : string) (now : Z) (queued : state)
  : state * option in_flight :=
  if falsy_string (Trim.trim (input seen)) then (queued, None)
  else
    let userMessage :=
      {| Message.id := id;
         Message.type := user;
         Message.content :=
           match uploadedFile seen with
           | Some file => with_attachment (File.name file) (input seen)
           | None => input seen
           end;
         Message.timestamp := now;
         Message.images := None;
         Message.imageData := None;
         Message.pdfPath := None;
         Message.pptPath := None;
         Message.dashboardPath := None |} in
    let st1 := setMessages (fun prev => (prev ++ [userMessage])%list) queued in
    let st2 := setInput "" st1 in
    let st3 := setLoading true st2 in
    (st3,
     Some {| request :=
               match uploadedFile seen with
               | Some file =>
                   api.uploadAndAnalyze_request file (input seen) (selectedAgent seen)
               | None =>
                   api.analyzeWithExistingData_request (input seen) (selectedAgent seen)
               end;
             sent_file := uploadedFile seen |}).

(** The [onClick] of the button: with a dashboard at hand it shows it;
    with none it sets the input and dispatches [submit] on the form, which
    runs [handleSendMessage] before the click handler returns. *)
Definition dashboard_onClick (id : string) (now : Z) (st : state)
  : state * option in_flight :=
  if truthy_string (latestDashboard st) then (setShowDashboard true st, None)
  else submit_from st id now (setInput dashboard_prompt st).

(** The click as an event of the view: the button is never disabled. *)
Definition click (id : string) (now : Z) (v : ChatView.view) : ChatView.view :=
  ChatView.issue (dashboard_onClick id now (ChatView.st v)) v.

End ChatHeader.
(** * Theorems *)

(** ** [JSON.parse] inverts [JSON.stringify] *)

Module JSON_facts.
Import JSON.
Local Open Scope char_scope.
Local Open Scope list_scope.

Lemma text_of_string_of t : text_of (string_of t) = t.
Proof. apply list_ascii_of_string_of_list_ascii. Qed.

Lemma string_of_text_of s : string_of (text_of s) = s.
Proof. apply string_of_list_ascii_of_string. Qed.

Lemma parse_chars_quote_char c t :
  parse_chars (quote_char c ++ t) = with_prefix [c] (parse_chars t).
Proof.
  destruct c as [[] [] [] [] [] [] [] []]; reflexivity.
Qed.

Lemma parse_chars_raw c t :
  (128 <=? N_of_ascii c)%N = true ->
  parse_chars (c :: t) = with_prefix [c] (parse_chars t).
Proof.
  destruct c as [[] [] [] [] [] [] [] []]; intros H; try discriminate H; reflexivity.
Qed.

Lemma hex_value_hex_digit n : (n < 16)%N -> hex_value (hex_digit n) = Some n.
Proof.
  intros H.
  assert (Hin : In n (map N.of_nat (seq 0 16))).
  { apply in_map_iff. exists (N.to_nat n). split; [lia|]. apply in_seq. lia. }
  cbn in Hin. repeat (destruct Hin as [<-|Hin]; [reflexivity|]). contradiction.
Qed.

Lemma code_unit_hex u :
  (u < 65536)%N ->
  code_unit (hex_digit (u / 4096)) (hex_digit ((u / 256) mod 16))
            (hex_digit ((u / 16) mod 16)) (hex_digit (u mod 16)) = Some u.
Proof.
  intros H. unfold code_unit.
  rewrite !hex_value_hex_digit;
    try (apply N.mod_lt; discriminate);
    try (apply N.Div0.div_lt_upper_bound; exact H).
  f_equal.
  pose proof (N.div_mod u 16 ltac:(lia)).
  pose proof (N.div_mod (u / 16) 16 ltac:(lia)).
  pose proof (N.div_mod (u / 256) 16 ltac:(lia)).
  assert (u / 256 = u / 16 / 16)%N by (rewrite N.Div0.div_div; reflexivity).
  assert (u / 4096 = u / 256 / 16)%N by (rewrite N.Div0.div_div; reflexivity).
  lia.
Qed.

Lemma surrogate_bytes_inv a b c :
  surrogate_bytes a b c = true ->
  a = "237" /\ (160 <= N_of_ascii b <= 191)%N /\ (128 <= N_of_ascii c <= 191)%N.
Proof.
  unfold surrogate_bytes. rewrite !andb_true_iff, N.eqb_eq, !N.leb_le.
  intros ((((Ha & Hb1) & Hb2) & Hc1) & Hc2).
  split; [|lia]. rewrite <- (ascii_N_embedding a), Ha. reflexivity.
Qed.

Lemma unit_of_bytes_parts b c :
  (160 <= N_of_ascii b <= 191)%N -> (128 <= N_of_ascii c <= 191)%N ->
  (unit_of_bytes b c / 4096 = 13
   /\ (unit_of_bytes b c / 64) mod 64 = N_of_ascii b - 128
   /\ unit_of_bytes b c mod 64 = N_of_ascii c - 128)%N.
Proof.
  intros Hb Hc. unfold unit_of_bytes.
  set (x := N_of_ascii b) in *. set (y := N_of_ascii c) in *.
  assert (E : (53248 + 64 * (x - 128) + (y - 128)
               = (y - 128) + (832 + (x - 128)) * 64)%N) by lia.
  rewrite E. repeat split.
  - symmetry. apply N.div_unique with ((y - 128) + (x - 128) * 64)%N; lia.
  - rewrite N.div_add by lia. rewrite (N.div_small (y - 128)) by lia.
    rewrite N.add_0_l.
    replace (832 + (x - 128))%N with ((x - 128) + 13 * 64)%N by lia.
    rewrite N.Div0.mod_add. apply N.mod_small. lia.
  - rewrite N.Div0.mod_add. apply N.mod_small. lia.
Qed.

Lemma utf8_unit_of_bytes a b c :
  surrogate_bytes a b c = true -> utf8 (unit_of_bytes b c) = [a; b; c].
Proof.
  intros H. apply surrogate_bytes_inv in H as (-> & Hb & Hc).
  destruct (unit_of_bytes_parts b c Hb Hc) as (H1 & H2 & H3).
  assert (Hr : (55296 <= unit_of_bytes b c < 65536)%N) by (unfold unit_of_bytes; lia).
  unfold utf8.
  destruct (unit_of_bytes b c <? 128)%N eqn:E1; [apply N.ltb_lt in E1; lia|].
  destruct (unit_of_bytes b c <? 2048)%N eqn:E2; [apply N.ltb_lt in E2; lia|].
  destruct (unit_of_bytes b c <? 65536)%N eqn:E3; [|apply N.ltb_ge in E3; lia].
  rewrite H1, H2, H3. cbn [map].
  replace (128 + (N_of_ascii b - 128))%N with (N_of_ascii b) by lia.
  replace (128 + (N_of_ascii c - 128))%N with (N_of_ascii c) by lia.
  rewrite !ascii_N_embedding. reflexivity.
Qed.

Lemma high_bytes_unit a b c :
  high_bytes a b c = true ->
  surrogate_bytes a b c = true
  /\ (unit_of_bytes b c < 65536)%N
  /\ high_surrogate (unit_of_bytes b c) = true.
Proof.
  unfold high_bytes. rewrite andb_true_iff, N.ltb_lt. intros [Hs Hb].
  destruct (surrogate_bytes_inv a b c Hs) as (_ & Hb' & Hc).
  split; [exact Hs|]. unfold high_surrogate, unit_of_bytes.
  split; [lia|]. rewrite andb_true_iff, !N.leb_le. lia.
Qed.

Lemma low_bytes_unit a b c :
  low_bytes a b c = true ->
  surrogate_bytes a b c = true
  /\ (unit_of_bytes b c < 65536)%N
  /\ high_surrogate (unit_of_bytes b c) = false.
Proof.
  unfold low_bytes. rewrite andb_true_iff, N.leb_le. intros [Hs Hb].
  destruct (surrogate_bytes_inv a b c Hs) as (_ & Hb' & Hc).
  split; [exact Hs|]. unfold high_surrogate, unit_of_bytes.
  split; [lia|]. rewrite andb_false_iff, !N.leb_gt. lia.
Qed.

(** The parser at an escape that is not the first half of an escaped
    pair. *)
Lemma parse_chars_escape u h1 h2 h3 h4 t :
  code_unit h1 h2 h3 h4 = Some u ->
  high_surrogate u = false \/ low_escape t = false ->
  parse_chars (backslash :: "u" :: h1 :: h2 :: h3 :: h4 :: t)
  = with_prefix (utf8 u) (parse_chars t).
Proof.
  intros Hu Hcase.
  change (parse_chars (backslash :: "u" :: h1 :: h2 :: h3 :: h4 :: t))
    with (match code_unit h1 h2 h3 h4 with
          | Some hi =>
              if high_surrogate hi then
                match t with
                | b' :: u' :: e' :: f' :: g' :: h' :: r3 =>
                    match code_unit e' f' g' h' with
                    | Some lo =>
                        if (b' =? backslash) && (u' =? "u") && low_surrogate lo
                        then with_prefix
                               (utf8 (65536 + 1024 * (hi - 55296) + (lo - 56320)))
                               (parse_chars r3)
                        else with_prefix (utf8 hi) (parse_chars t)
                    | None => with_prefix (utf8 hi) (parse_chars t)
                    end
                | _ => with_prefix (utf8 hi) (parse_chars t)
                end
              else with_prefix (utf8 hi) (parse_chars t)
          | None => None
          end).
  rewrite Hu. destruct (high_surrogate u); [|reflexivity].
  destruct Hcase as [Hcase|Hcase]; [discriminate Hcase|].
  destruct t as [|b' [|u' [|e' [|f' [|g' [|h' r3]]]]]]; try reflexivity.
  unfold low_escape in Hcase.
  destruct (code_unit e' f' g' h') as [lo|]; [|reflexivity].
  rewrite Hcase. reflexivity.
Qed.

Lemma parse_chars_escape_unit u t :
  (u < 65536)%N ->
  high_surrogate u = false \/ low_escape t = false ->
  parse_chars (escape_unit u ++ t) = with_prefix (utf8 u) (parse_chars t).
Proof.
  intros Hu Hcase. unfold escape_unit. cbn [app].
  apply parse_chars_escape; [apply code_unit_hex; exact Hu|exact Hcase].
Qed.

Lemma quote_char_low_escape c t : low_escape (quote_char c ++ t) = false.
Proof.
  destruct c as [[] [] [] [] [] [] [] []];
    (set (q := quote_char _); vm_compute in q; subst q);
    destruct t as [|? [|? [|? [|? [|? ?]]]]];
    try reflexivity;
    try (unfold low_escape; cbn [app]; destruct (code_unit _ _ _ _); reflexivity).
Qed.

Lemma low_escape_head c t : (c =? backslash) = false -> low_escape (c :: t) = false.
Proof.
  intros H. destruct t as [|? [|? [|? [|? [|? ?]]]]]; try reflexivity.
  unfold low_escape. destruct (code_unit _ _ _ _); [|reflexivity].
  rewrite H. reflexivity.
Qed.

(** What [quote_chars] writes does not begin with the escape of a low
    surrogate unless the text begins with the bytes of one. *)
Lemma quote_chars_low_escape s t :
  (forall a b c r, s = a :: b :: c :: r -> low_bytes a b c = false) ->
  low_escape (quote_chars s ++ dquote :: t) = false.
Proof.
  intros Hs. destruct s as [|a r]; [apply low_escape_head; reflexivity|].
  assert (Hchar : low_escape ((quote_char a ++ quote_chars r) ++ dquote :: t) = false).
  { rewrite <- app_assoc. apply quote_char_low_escape. }
  destruct r as [|b [|c r3]]; try exact Hchar.
  cbn [quote_chars]. rewrite (Hs a b c r3 eq_refl).
  destruct (high_bytes a b c) eqn:Eh; [|exact Hchar].
  destruct (high_bytes_unit a b c Eh) as (Hsur & Hlt & Hhi).
  assert (Hesc : low_escape ((escape_unit (unit_of_bytes b c) ++ quote_chars r3)
                             ++ dquote :: t) = false).
  { unfold escape_unit, low_escape. cbn [app].
    rewrite (code_unit_hex _ Hlt).
    unfold high_surrogate in Hhi. unfold low_surrogate.
    apply andb_true_iff in Hhi as [_ Hhi]. apply N.leb_le in Hhi.
    destruct (56320 <=? unit_of_bytes b c)%N eqn:E;
      [apply N.leb_le in E; lia|]. rewrite !andb_false_r. reflexivity. }
  destruct r3 as [|a' [|b' [|c' r6]]]; try exact Hesc.
  destruct (low_bytes a' b' c'); [|exact Hesc].
  apply surrogate_bytes_inv in Hsur as (-> & _). cbn [app].
  apply low_escape_head. reflexivity.
Qed.

Lemma parse_chars_quoted s rest :
  parse_chars (quote_chars s ++ dquote :: rest) = Some (s, rest).
Proof.
  enough (H : forall n s, length s <= n ->
              parse_chars (quote_chars s ++ dquote :: rest) = Some (s, rest))
    by (apply (H (length s)); lia).
  clear s. induction n as [|n IH]; intros s Hlen.
  { destruct s; [reflexivity|cbn in Hlen; lia]. }
  destruct s as [|a r]; [reflexivity|]. cbn [length] in Hlen.
  assert (Hchar : parse_chars ((quote_char a ++ quote_chars r) ++ dquote :: rest)
                  = Some (a :: r, rest)).
  { rewrite <- app_assoc, parse_chars_quote_char, IH by lia. reflexivity. }
  destruct r as [|b [|c r3]]; try exact Hchar.
  cbn [length] in Hlen. cbn [quote_chars].
  destruct (low_bytes a b c) eqn:El.
  - destruct (low_bytes_unit a b c El) as (Hsur & Hlt & Hhi).
    rewrite <- app_assoc, parse_chars_escape_unit by auto.
    rewrite IH by lia. rewrite (utf8_unit_of_bytes a b c Hsur). reflexivity.
  - destruct (high_bytes a b c) eqn:Eh; [|exact Hchar].
    destruct (high_bytes_unit a b c Eh) as (Hsur & Hlt & Hhi).
    assert (Hesc : (forall a' b' c' r6, r3 = a' :: b' :: c' :: r6 ->
                                        low_bytes a' b' c' = false) ->
                   parse_chars ((escape_unit (unit_of_bytes b c) ++ quote_chars r3)
                                ++ dquote :: rest)
                   = Some (a :: b :: c :: r3, rest)).
    { intros Hr3. rewrite <- app_assoc, parse_chars_escape_unit.
      - rewrite IH by lia. rewrite (utf8_unit_of_bytes a b c Hsur). reflexivity.
      - exact Hlt.
      - right. apply quote_chars_low_escape. exact Hr3. }
    destruct r3 as [|a' [|b' [|c' r6]]];
      try (apply Hesc; intros ? ? ? ? [=]).
    destruct (low_bytes a' b' c') eqn:El'.
    + destruct (low_bytes_unit a' b' c' El') as (Hsur' & _ & _).
      destruct (surrogate_bytes_inv a b c Hsur) as (Ha & Hb & Hc).
      destruct (surrogate_bytes_inv a' b' c' Hsur') as (Ha' & Hb' & Hc').
      cbn [length] in Hlen. cbn [app].
      rewrite !parse_chars_raw, IH;
        try lia; try (apply N.leb_le; lia);
        try (subst; reflexivity).
    + apply Hesc. intros ? ? ? ? [= <- <- <- <-]. exact El'.
Qed.

Lemma parse_value_string fuel s rest :
  parse_value (S fuel) (quote s ++ rest) = Some (JStr (string_of s), rest).
Proof.
  unfold quote. cbn [app]. rewrite <- app_assoc. cbn [app].
  cbn -[parse_chars]. rewrite parse_chars_quoted. reflexivity.
Qed.

Lemma print_head v :
  plain v = true -> exists c t, print v = c :: t /\ opens_value c = true.
Proof.
  destruct v as [|[]|n|s|items|members]; intros Hv; try discriminate Hv;
    eexists _, _; split; reflexivity.
Qed.

Lemma print_length v : plain v = true -> 1 <= length (print v).
Proof. intros Hv. destruct (print_head v Hv) as (c & t & -> & _). cbn. lia. Qed.

Lemma skip_ws_opens c t : opens_value c = true -> skip_ws (c :: t) = c :: t.
Proof.
  unfold opens_value. intros H. cbn [skip_ws].
  destruct (is_ws c); [discriminate H|reflexivity].
Qed.

Lemma parse_value_array fuel s :
  parse_value (S fuel) ("[" :: s) =
  match skip_ws s with
  | c :: r =>
      if c =? "]" then Some (JArr [], r)
      else match parse_elements fuel (c :: r) with
           | Some (vs, r') => Some (JArr vs, r')
           | None => None
           end
  | [] => None
  end.
Proof. reflexivity. Qed.

Lemma parse_value_object fuel s :
  parse_value (S fuel) ("{" :: s) =
  match skip_ws s with
  | c :: r =>
      if c =? "}" then Some (JObj [], r)
      else match parse_members fuel (c :: r) with
           | Some (ms, r') => Some (JObj ms, r')
           | None => None
           end
  | [] => None
  end.
Proof. reflexivity. Qed.

Lemma parse_elements_S fuel s :
  parse_elements (S fuel) s =
  match parse_value fuel s with
  | Some (v, r) =>
      match skip_ws r with
      | c :: r' =>
          if c =? "," then
            match parse_elements fuel r' with
            | Some (vs, r2) => Some (v :: vs, r2)
            | None => None
            end
          else if c =? "]" then Some ([v], r')
          else None
      | [] => None
      end
  | None => None
  end.
Proof. reflexivity. Qed.

Lemma parse_members_S fuel k s :
  parse_members (S fuel) (quote k ++ ":" :: s) =
  match parse_value fuel s with
  | Some (v, r) =>
      match skip_ws r with
      | c :: r' =>
          if c =? "," then
            match parse_members fuel r' with
            | Some (ms, r2) => Some ((string_of k, v) :: ms, r2)
            | None => None
            end
          else if c =? "}" then Some ([(string_of k, v)], r')
          else None
      | [] => None
      end
  | None => None
  end.
Proof.
  unfold quote. cbn [app]. rewrite <- app_assoc. cbn [app].
  cbn -[parse_chars]. rewrite parse_chars_quoted. reflexivity.
Qed.

(** With fuel for every character of the printed value, the parser reads
    the value back and stops right behind it. *)
Lemma parse_print_fuel fuel :
  (forall v rest,
      plain v = true -> length (print v) <= fuel ->
      parse_value fuel (print v ++ rest) = Some (v, rest)) /\
  (forall v vs rest,
      forallb plain (v :: vs) = true ->
      length (commas (map print (v :: vs))) < fuel ->
      parse_elements fuel (commas (map print (v :: vs)) ++ "]" :: rest)
      = Some (v :: vs, rest)) /\
  (forall m ms rest,
      forallb (fun m => plain (snd m)) (m :: ms) = true ->
      length (commas (map (member print) (m :: ms))) < fuel ->
      parse_members fuel (commas (map (member print) (m :: ms)) ++ "}" :: rest)
      = Some (m :: ms, rest)).
Proof.
  induction fuel as [|fuel (IHv & IHe & IHm)].
  { split; [|split]; intros; try lia.
    pose proof (print_length v ltac:(assumption)). lia. }
  split; [|split].
  - intros v rest Hplain Hlen.
    destruct v as [|[]|n|s|items|members]; try reflexivity.
    + discriminate Hplain.
    + cbn [print]. rewrite parse_value_string, string_of_text_of. reflexivity.
    + cbn [print plain] in *. cbn [app]. rewrite <- app_assoc. cbn [app].
      rewrite parse_value_array.
      destruct items as [|v vs]; [reflexivity|].
      pose proof (IHe v vs rest Hplain) as IH.
      cbn [length] in Hlen. rewrite length_app in Hlen. cbn [length] in Hlen.
      assert (Hv : plain v = true).
      { cbn [forallb] in Hplain. apply andb_true_iff in Hplain. tauto. }
      destruct (print_head v Hv) as (c & t & E & Hc).
      assert (Hs : exists t', commas (map print (v :: vs)) ++ "]" :: rest = c :: t').
      { cbn [map commas]. rewrite E. destruct (map print vs); eexists; reflexivity. }
      destruct Hs as (t' & Hs). rewrite Hs in *.
      rewrite skip_ws_opens by exact Hc.
      assert ((c =? "]") = false) as ->.
      { unfold opens_value in Hc. destruct (c =? "]"); [|reflexivity].
        rewrite andb_false_r in Hc. discriminate Hc. }
      rewrite IH by lia. reflexivity.
    + cbn [print plain] in *. cbn [app]. rewrite <- app_assoc. cbn [app].
      rewrite parse_value_object.
      destruct members as [|m ms]; [reflexivity|].
      pose proof (IHm m ms rest Hplain) as IH.
      cbn [length] in Hlen. rewrite length_app in Hlen. cbn [length] in Hlen.
      assert (Hs : exists t', commas (map (member print) (m :: ms)) ++ "}" :: rest
                              = dquote :: t').
      { cbn [map commas].
        destruct (map (member print) ms); unfold member, quote; cbn [app];
          eexists; reflexivity. }
      destruct Hs as (t' & Hs). rewrite Hs in *.
      cbn [skip_ws]. change (is_ws dquote) with false. cbv iota.
      change (dquote =? "}") with false. cbv iota.
      rewrite IH by lia. reflexivity.
  - intros v vs rest Hplain Hlen.
    cbn [forallb] in Hplain. apply andb_true_iff in Hplain as [Hv Hvs].
    rewrite parse_elements_S.
    pose proof (print_length v Hv) as Hv1.
    destruct vs as [|v' vs].
    + cbn [map commas] in *.
      rewrite IHv by (trivial; lia). reflexivity.
    + change (commas (map print (v :: v' :: vs)))
        with (print v ++ "," :: commas (map print (v' :: vs))) in *.
      rewrite length_app in Hlen. cbn [length] in Hlen.
      rewrite <- app_assoc. cbn [app].
      rewrite IHv by (trivial; lia).
      cbn [skip_ws]. change (is_ws ",") with false. cbv iota.
      change ("," =? ",") with true. cbv iota.
      rewrite IHe by (trivial; lia). reflexivity.
  - intros [k v] ms rest Hplain Hlen.
    cbn [forallb snd] in Hplain. apply andb_true_iff in Hplain as [Hv Hms].
    pose proof (print_length v Hv) as Hv1.
    assert (Hm : forall tl, member print (k, v) ++ tl
                            = quote (text_of k) ++ ":" :: print v ++ tl).
    { intros tl. unfold member. cbn [fst snd]. rewrite <- app_assoc. reflexivity. }
    assert (Hml : length (member print (k, v))
                  = length (quote (text_of k)) + 1 + length (print v)).
    { unfold member. cbn [fst snd]. rewrite length_app. cbn [length]. lia. }
    destruct ms as [|m' ms].
    + cbn [map commas] in *. rewrite Hm, parse_members_S.
      rewrite IHv by (trivial; lia).
      rewrite string_of_text_of. reflexivity.
    + change (commas (map (member print) ((k, v) :: m' :: ms)))
        with (member print (k, v) ++ "," :: commas (map (member print) (m' :: ms))) in *.
      rewrite length_app in Hlen. cbn [length] in Hlen.
      rewrite <- app_assoc. cbn [app]. rewrite Hm, parse_members_S.
      rewrite IHv by (trivial; lia).
      cbn [skip_ws]. change (is_ws ",") with false. cbv iota.
      change ("," =? ",") with true. cbv iota.
      rewrite IHm by (trivial; lia). rewrite string_of_text_of. reflexivity.
Qed.

(** [JSON.parse (JSON.stringify v)] is [v]. *)
Lemma parse_stringify v : plain v = true -> parse (stringify v) = Some v.
Proof.
  intros Hplain. unfold parse, stringify. rewrite text_of_string_of.
  destruct (parse_print_fuel (length (print v))) as (Hv & _).
  rewrite <- (app_nil_r (print v)) at 2.
  rewrite Hv by trivial. reflexivity.
Qed.

End JSON_facts.

(** ** The fuel of [JSON.parse] *)

Module JSON_fuel.
Import JSON.
Local Open Scope char_scope.
Local Open Scope list_scope.

Ltac break_match :=
  match goal with
  | H : context [match ?x with _ => _ end] |- _ => destruct x eqn:?
  | H : context [if ?x then _ else _] |- _ => destruct x eqn:?
  end.

Lemma skip_ws_length s : length (skip_ws s) <= length s.
Proof.
  induction s as [|c s IH]; cbn [skip_ws length]; [lia|].
  destruct (is_ws c); cbn [length]; lia.
Qed.

Lemma keyword_length k v s v' r : keyword k v s = Some (v', r) -> length r <= length s.
Proof.
  revert s. induction k as [|c k IH]; intros s H; cbn [keyword] in H.
  - injection H as _ ->. lia.
  - destruct s as [|c' s]; [discriminate H|].
    destruct (c =? c'); [|discriminate H]. apply IH in H. cbn [length]. lia.
Qed.

Lemma with_prefix_Some p o cs r :
  with_prefix p o = Some (cs, r) -> exists cs', o = Some (cs', r).
Proof.
  destruct o as [[cs' r']|]; cbn; intros H; [|discriminate H].
  injection H as _ ->. eauto.
Qed.

Lemma parse_chars_length_bounded n : forall s cs r,
  length s <= n -> parse_chars s = Some (cs, r) -> length r < length s.
Proof.
  induction n as [|n IH]; intros s cs r Hlen H.
  { destruct s; [discriminate H|cbn in Hlen; lia]. }
  assert (Hrec : forall p s', length s' <= n ->
                   with_prefix p (parse_chars s') = Some (cs, r) ->
                   length r < length s').
  { intros p s' Hs' Hp. apply with_prefix_Some in Hp as [cs' Hp]. eauto. }
  destruct s as [|c s]; [discriminate H|].
  cbn [parse_chars] in H. cbn [length] in *.
  repeat (first
    [ discriminate H
    | match type of H with
      | Some _ = Some _ => injection H as <- <-; cbn [length]; lia
      | with_prefix _ (parse_chars ?s') = Some _ =>
          apply Hrec in H; [cbn [length] in *; lia | cbn [length] in *; lia]
      end
    | break_match; subst; cbn [length] in * ]).
Qed.

Lemma parse_chars_length s cs r : parse_chars s = Some (cs, r) -> length r < length s.
Proof. apply (parse_chars_length_bounded (length s)). lia. Qed.

Lemma span_digits_length s ds r :
  span_digits s = (ds, r) -> length ds + length r = length s.
Proof.
  revert ds r. induction s as [|c s IH]; intros ds r H; cbn [span_digits] in H.
  - injection H as <- <-. reflexivity.
  - destruct (is_digit c).
    + destruct (span_digits s) as [ds' r']. injection H as <- <-.
      cbn [length]. rewrite <- (IH ds' r' eq_refl). lia.
    + injection H as <- <-. reflexivity.
Qed.

Lemma scan_int_length s i r : scan_int s = Some (i, r) -> length r < length s.
Proof.
  unfold scan_int. intros H.
  destruct (span_digits s) as [ds r'] eqn:E. apply span_digits_length in E.
  destruct ds as [|c [|c' ds]]; [discriminate H| |].
  - injection H as _ <-. cbn [length] in E. lia.
  - destruct (c =? "0"); [discriminate H|]. injection H as _ <-.
    cbn [length] in E. lia.
Qed.

Lemma scan_frac_length s f r : scan_frac s = Some (f, r) -> length r <= length s.
Proof.
  unfold scan_frac. intros H. destruct s as [|c s].
  - injection H as _ <-. lia.
  - destruct (c =? ".").
    + destruct (span_digits s) as [ds r'] eqn:E. apply span_digits_length in E.
      destruct ds; [discriminate H|]. injection H as _ <-. cbn [length] in *. lia.
    + injection H as _ <-. lia.
Qed.

Lemma scan_exp_length s e r : scan_exp s = Some (e, r) -> length r <= length s.
Proof.
  unfold scan_exp. intros H. destruct s as [|c s].
  - injection H as _ <-. lia.
  - destruct ((c =? "e") || (c =? "E")).
    + assert (Hsign : forall sign r1,
                 match s with
                 | c' :: r' => if (c' =? "+") || (c' =? "-") then ([c'], r') else ([], s)
                 | [] => ([], [])
                 end = (sign, r1) -> length r1 <= length s).
      { intros sign r1 Hs. destruct s as [|c' s']; [injection Hs as _ <-; lia|].
        destruct ((c' =? "+") || (c' =? "-")); injection Hs as _ <-; cbn [length]; lia. }
      destruct (match s with
                | c' :: r' => if (c' =? "+") || (c' =? "-") then ([c'], r') else ([], s)
                | [] => ([], [])
                end) as [sign r1] eqn:Es.
      pose proof (Hsign _ _ eq_refl) as Hr1.
      destruct (span_digits r1) as [ds r2] eqn:E. apply span_digits_length in E.
      destruct ds; [discriminate H|]. injection H as _ <-. cbn [length] in *. lia.
    + injection H as _ <-. lia.
Qed.

Lemma parse_number_length s v r : parse_number s = Some (v, r) -> length r < length s.
Proof.
  unfold parse_number. intros H.
  destruct (match s with
            | c :: r0 => if c =? "-" then ([c], r0) else ([], s)
            | [] => ([], [])
            end) as [sign s1] eqn:Es.
  assert (Hs1 : length s1 <= length s).
  { destruct s as [|c s']; [injection Es as _ <-; lia|].
    destruct (c =? "-"); injection Es as _ <-; cbn [length]; lia. }
  destruct (scan_int s1) as [[i s2]|] eqn:Ei; [|discriminate H].
  destruct (scan_frac s2) as [[f s3]|] eqn:Ef; [|discriminate H].
  destruct (scan_exp s3) as [[e s4]|] eqn:Ee; [|discriminate H].
  injection H as _ <-.
  apply scan_int_length in Ei. apply scan_frac_length in Ef.
  apply scan_exp_length in Ee. lia.
Qed.

(** The three parsers, one step unfolded. *)
Lemma parse_value_unfold fuel s :
  parse_value (S fuel) s =
  match skip_ws s with
  | [] => None
  | c :: r =>
      if c =? "n" then keyword (text_of "ull") JNull r
      else if c =? "t" then keyword (text_of "rue") (JBool true) r
      else if c =? "f" then keyword (text_of "alse") (JBool false) r
      else if c =? dquote then
        match parse_chars r with
        | Some (cs, r') => Some (JStr (string_of cs), r')
        | None => None
        end
      else if c =? "[" then
        match skip_ws r with
        | c' :: r' =>
            if c' =? "]" then Some (JArr [], r')
            else match parse_elements fuel (c' :: r') with
                 | Some (vs, r'') => Some (JArr vs, r'')
                 | None => None
                 end
        | [] => None
        end
      else if c =? "{" then
        match skip_ws r with
        | c' :: r' =>
            if c' =? "}" then Some (JObj [], r')
            else match parse_members fuel (c' :: r') with
                 | Some (ms, r'') => Some (JObj ms, r'')
                 | None => None
                 end
        | [] => None
        end
      else parse_number (c :: r)
  end.
Proof. reflexivity. Qed.

Lemma parse_members_unfold fuel s :
  parse_members (S fuel) s =
  match skip_ws s with
  | q :: r0 =>
      if q =? dquote then
        match parse_chars r0 with
        | Some (k, r1) =>
            match skip_ws r1 with
            | c1 :: r2 =>
                if c1 =? ":" then
                  match parse_value fuel r2 with
                  | Some (v, r3) =>
                      match skip_ws r3 with
                      | c :: r' =>
                          if c =? "," then
                            match parse_members fuel r' with
                            | Some (ms, r'') => Some ((string_of k, v) :: ms, r'')
                            | None => None
                            end
                          else if c =? "}" then Some ([(string_of k, v)], r')
                          else None
                      | [] => None
                      end
                  | None => None
                  end
                else None
            | [] => None
            end
        | None => None
        end
      else None
  | [] => None
  end.
Proof. reflexivity. Qed.

Ltac rewrite_tests :=
  repeat match goal with
         | E : ?x = _ |- context [?x] => rewrite E
         end.

(** A parse that succeeds with some fuel has read at least one character,
    and succeeds the same way with as much fuel as it has read characters. *)
Lemma parse_fuel_enough fuel :
  (forall s v r,
      parse_value fuel s = Some (v, r) ->
      length r < length s /\
      forall fuel', length s - length r <= fuel' -> parse_value fuel' s = Some (v, r)) /\
  (forall s vs r,
      parse_elements fuel s = Some (vs, r) ->
      length r < length s /\
      forall fuel', length s - length r <= fuel' -> parse_elements fuel' s = Some (vs, r)) /\
  (forall s ms r,
      parse_members fuel s = Some (ms, r) ->
      length r < length s /\
      forall fuel', length s - length r <= fuel' -> parse_members fuel' s = Some (ms, r)).
Proof.
  induction fuel as [|fuel (IHv & IHe & IHm)].
  { split; [|split]; intros; discriminate. }
  split; [|split].
  - intros s v r H. rewrite parse_value_unfold in H.
    pose proof (skip_ws_length s) as Hs.
    destruct (skip_ws s) as [|c r0] eqn:Es; [discriminate H|]. cbn [length] in Hs.
    destruct (c =? "n") eqn:En.
    { pose proof (keyword_length _ _ _ _ _ H). split; [lia|].
      intros [|g] Hg; [lia|]. rewrite parse_value_unfold. rewrite_tests. reflexivity. }
    destruct (c =? "t") eqn:Et.
    { pose proof (keyword_length _ _ _ _ _ H). split; [lia|].
      intros [|g] Hg; [lia|]. rewrite parse_value_unfold. rewrite_tests. reflexivity. }
    destruct (c =? "f") eqn:Ef.
    { pose proof (keyword_length _ _ _ _ _ H). split; [lia|].
      intros [|g] Hg; [lia|]. rewrite parse_value_unfold. rewrite_tests. reflexivity. }
    destruct (c =? dquote) eqn:Eq.
    { destruct (parse_chars r0) as [[cs r1]|] eqn:Ec; [|discriminate H].
      injection H as <- <-. pose proof (parse_chars_length _ _ _ Ec).
      split; [lia|].
      intros [|g] Hg; [lia|]. rewrite parse_value_unfold. rewrite_tests. reflexivity. }
    destruct (c =? "[") eqn:Ea.
    { pose proof (skip_ws_length r0) as Hr0.
      destruct (skip_ws r0) as [|c' r'] eqn:Er0; [discriminate H|].
      cbn [length] in Hr0.
      destruct (c' =? "]") eqn:Ecl.
      { injection H as <- <-. split; [lia|].
        intros [|g] Hg; [lia|]. rewrite parse_value_unfold. rewrite_tests. reflexivity. }
      destruct (parse_elements fuel (c' :: r')) as [[vs r2]|] eqn:Ee; [|discriminate H].
      injection H as <- <-. destruct (IHe _ _ _ Ee) as [Hlen Hmore].
      cbn [length] in Hlen. split; [lia|].
      intros [|g] Hg; [lia|]. rewrite parse_value_unfold. rewrite_tests.
      rewrite Hmore by (cbn [length]; lia). reflexivity. }
    destruct (c =? "{") eqn:Eo.
    { pose proof (skip_ws_length r0) as Hr0.
      destruct (skip_ws r0) as [|c' r'] eqn:Er0; [discriminate H|].
      cbn [length] in Hr0.
      destruct (c' =? "}") eqn:Ecl.
      { injection H as <- <-. split; [lia|].
        intros [|g] Hg; [lia|]. rewrite parse_value_unfold. rewrite_tests. reflexivity. }
      destruct (parse_members fuel (c' :: r')) as [[ms r2]|] eqn:Ee; [|discriminate H].
      injection H as <- <-. destruct (IHm _ _ _ Ee) as [Hlen Hmore].
      cbn [length] in Hlen. split; [lia|].
      intros [|g] Hg; [lia|]. rewrite parse_value_unfold. rewrite_tests.
      rewrite Hmore by (cbn [length]; lia). reflexivity. }
    pose proof (parse_number_length _ _ _ H) as Hn. cbn [length] in Hn.
    split; [lia|].
    intros [|g] Hg; [lia|]. rewrite parse_value_unfold. rewrite_tests. reflexivity.
  - intros s vs r H. rewrite JSON_facts.parse_elements_S in H.
    destruct (parse_value fuel s) as [[v r1]|] eqn:Ev; [|discriminate H].
    destruct (IHv _ _ _ Ev) as [Hlen1 Hmore1].
    pose proof (skip_ws_length r1) as Hr1.
    destruct (skip_ws r1) as [|c r'] eqn:Er1; [discriminate H|]. cbn [length] in Hr1.
    destruct (c =? ",") eqn:Ecomma.
    + destruct (parse_elements fuel r') as [[vs' r2]|] eqn:Ee; [|discriminate H].
      injection H as <- <-. destruct (IHe _ _ _ Ee) as [Hlen2 Hmore2].
      split; [lia|].
      intros [|g] Hg; [lia|]. rewrite JSON_facts.parse_elements_S.
      rewrite Hmore1 by lia. rewrite_tests. rewrite Hmore2 by lia. reflexivity.
    + destruct (c =? "]") eqn:Ecl; [|discriminate H].
      injection H as <- <-. split; [lia|].
      intros [|g] Hg; [lia|]. rewrite JSON_facts.parse_elements_S.
      rewrite Hmore1 by lia. rewrite_tests. reflexivity.
  - intros s ms r H. rewrite parse_members_unfold in H.
    pose proof (skip_ws_length s) as Hs.
    destruct (skip_ws s) as [|q r0] eqn:Es; [discriminate H|]. cbn [length] in Hs.
    destruct (q =? dquote) eqn:Eq; [|discriminate H].
    destruct (parse_chars r0) as [[k r1]|] eqn:Ek; [|discriminate H].
    pose proof (parse_chars_length _ _ _ Ek) as Hk.
    pose proof (skip_ws_length r1) as Hr1.
    destruct (skip_ws r1) as [|c1 r2] eqn:Er1; [discriminate H|]. cbn [length] in Hr1.
    destruct (c1 =? ":") eqn:Ecolon; [|discriminate H].
    destruct (parse_value fuel r2) as [[v r3]|] eqn:Ev; [|discriminate H].
    destruct (IHv _ _ _ Ev) as [Hlen1 Hmore1].
    pose proof (skip_ws_length r3) as Hr3.
    destruct (skip_ws r3) as [|c r'] eqn:Er3; [discriminate H|]. cbn [length] in Hr3.
    destruct (c =? ",") eqn:Ecomma.
    + destruct (parse_members fuel r') as [[ms' r4]|] eqn:Em; [|discriminate H].
      injection H as <- <-. destruct (IHm _ _ _ Em) as [Hlen2 Hmore2].
      split; [lia|].
      intros [|g] Hg; [lia|]. rewrite parse_members_unfold. rewrite_tests.
      rewrite Hmore1 by lia. rewrite_tests. rewrite Hmore2 by lia. reflexivity.
    + destruct (c =? "}") eqn:Ecl; [|discriminate H].
      injection H as <- <-. split; [lia|].
      intros [|g] Hg; [lia|]. rewrite parse_members_unfold. rewrite_tests.
      rewrite Hmore1 by lia. rewrite_tests. reflexivity.
Qed.

(** [JSON.parse] takes the length of its text as fuel. No text is rejected
    for want of fuel: a text that parses to a value with any amount of fuel,
    leaving white space only, is what [parse] accepts, with that value. *)
Lemma parse_complete fuel (s : string) v r :
  parse_value fuel (text_of s) = Some (v, r) -> skip_ws r = [] ->
  parse s = Some v.
Proof.
  intros H Hr. unfold parse.
  destruct (parse_fuel_enough fuel) as (Hv & _).
  destruct (Hv _ _ _ H) as [_ Hmore].
  rewrite Hmore by lia. rewrite Hr. reflexivity.
Qed.

End JSON_fuel.


(** ** The auth facade *)

(** ** [encodeURIComponent] *)

Module Encode_facts.
Local Open Scope list_scope.








End Encode_facts.

Module AuthContext_facts.
Import AuthContext.

Lemma login_callback_record email password c :
  login_callback email password (Credential.to_json c) = Normal (matches email password c).
Proof.
  unfold login_callback, matches. cbn.
  destruct (Credential.email c =? email); reflexivity.
Qed.

Lemma signup_callback_record email c :
  signup_callback email (Credential.to_json c) = Normal (same_email email c).
Proof. reflexivity. Qed.

(** [Array.prototype.find] over stored records is [List.find]. *)
Lemma Array_find_records (callback : json -> completion bool) (p : Credential.t -> bool) store :
  (forall c, callback (Credential.to_json c) = Normal (p c)) ->
  Array_find callback (map Credential.to_json store)
  = Normal (Credential.to_json <$> List.find p store).
Proof.
  intros Hcb. induction store as [|c store IH]; [reflexivity|].
  cbn [map Array_find List.find]. rewrite Hcb.
  destruct (p c); [reflexivity|exact IH].
Qed.

Lemma login_run st store email password :
  stored_credentials st store ->
  login email password st =
  match List.find (matches email password) store with
  | Some c =>
      (Normal true,
       {| user := Credential.session c;
          localStorage := <["user" := JSON.stringify (Credential.session c)]>
                            (localStorage st) |})
  | None => (Normal false, st)
  end.
Proof.
  unfold stored_credentials. intros Hst.
  unfold login, bind, getItem, JSON_parse. rewrite Hst.
  unfold ret, lift, find.
  rewrite (Array_find_records _ _ _ (login_callback_record email password)).
  destruct (List.find (matches email password) store) as [c|]; reflexivity.
Qed.

Lemma stringify_array_nonempty items : (JSON.stringify (JArr items) =? "") = false.
Proof. reflexivity. Qed.

Lemma signup_run st store uuid name email password :
  stored_credentials st store ->
  signup uuid name email password st =
  match List.find (same_email email) store with
  | Some _ => (Normal false, st)
  | None =>
      match encodeURIComponent name with
      | Throw e => (Throw e, st)
      | Normal seed =>
          let c := new_credential uuid name email password seed in
          (Normal true,
           {| user := Credential.session c;
              localStorage :=
                <["user" := JSON.stringify (Credential.session c)]>
                  (<["users" :=
                       JSON.stringify (JArr (map Credential.to_json (store ++ [c])))]>
                     (localStorage st)) |})
      end
  end.
Proof.
  unfold stored_credentials. intros Hst.
  unfold signup, bind, getItem, JSON_parse. rewrite Hst.
  unfold ret, lift, find.
  rewrite (Array_find_records _ _ _ (signup_callback_record email)).
  destruct (List.find (same_email email) store) as [c|]; [reflexivity|].
  cbn -[JSON.stringify encodeURIComponent]. unfold avatar_url.
  destruct (encodeURIComponent name) as [seed|e]; [|reflexivity].
  cbn -[JSON.stringify]. rewrite map_app. reflexivity.
Qed.

Lemma plain_records store : JSON.plain (JArr (map Credential.to_json store)) = true.
Proof. induction store as [|c store IH]; [reflexivity|exact IH]. Qed.

Lemma stored_after_insert st u store :
  stored_credentials
    {| user := u;
       localStorage :=
         <["user" := JSON.stringify u]>
           (<["users" := JSON.stringify (JArr (map Credential.to_json store))]>
              (localStorage st)) |}
    store.
Proof.
  unfold stored_credentials. cbn [localStorage].
  rewrite lookup_insert_ne by discriminate. rewrite lookup_insert_eq.
  unfold or_default. rewrite stringify_array_nonempty.
  apply JSON_facts.parse_stringify, plain_records.
Qed.



Lemma find_app_None {A} (p : A -> bool) (l l' : list A) :
  List.find p l = None -> List.find p (l ++ l') = List.find p l'.
Proof.
  induction l as [|x l IH]; [reflexivity|].
  cbn [List.find app]. destruct (p x); [discriminate|exact IH].
Qed.



(** A store that is absent, or the empty string, reads as no records. *)
Lemma stored_absent st :
  truthy_string (localStorage st !! "users") = false -> stored_credentials st [].
Proof.
  unfold stored_credentials, truthy_string, or_default.
  destruct (localStorage st !! "users") as [raw|]; [|reflexivity].
  destruct (raw =? ""); [reflexivity|discriminate].
Qed.

(** [JSON.parse] throws on the [users] item, and nothing catches it. *)
Lemma users_corrupt st raw :
  localStorage st !! "users" = Some raw -> raw <> "" -> JSON.parse raw = None ->
  JSON_parse (or_default (localStorage st !! "users") "[]") st
  = (Throw (SyntaxError "JSON.parse: unexpected input"), st).
Proof.
  intros Hraw Hne Hparse. rewrite Hraw. unfold or_default.
  destruct (raw =? "") eqn:E; [apply String.eqb_eq in E; contradiction|].
  unfold JSON_parse. rewrite Hparse. reflexivity.
Qed.

Lemma login_corrupt st raw email password :
  localStorage st !! "users" = Some raw -> raw <> "" -> JSON.parse raw = None ->
  login email password st = (Throw (SyntaxError "JSON.parse: unexpected input"), st).
Proof.
  intros Hraw Hne Hparse. unfold login, bind at 1, getItem. 
  unfold bind at 1. rewrite (users_corrupt st raw) by assumption. reflexivity.
Qed.

Lemma signup_corrupt st raw uuid name email password :
  localStorage st !! "users" = Some raw -> raw <> "" -> JSON.parse raw = None ->
  signup uuid name email password st
  = (Throw (SyntaxError "JSON.parse: unexpected input"), st).
Proof.
  intros Hraw Hne Hparse. unfold signup, bind at 1, getItem.
  unfold bind at 1. rewrite (users_corrupt st raw) by assumption. reflexivity.
Qed.

Lemma hydrate_corrupt st raw :
  localStorage st !! "user" = Some raw -> raw <> "" -> JSON.parse raw = None ->
  hydrate st = (Throw (SyntaxError "JSON.parse: unexpected input"), st).
Proof.
  intros Hraw Hne Hparse. unfold hydrate, bind at 1, getItem. rewrite Hraw.
  unfold truthy_string.
  destruct (raw =? "") eqn:E; [apply String.eqb_eq in E; contradiction|].
  cbn [negb ToString]. unfold bind, JSON_parse. rewrite Hparse. reflexivity.
Qed.

Lemma hydrate_absent st :
  truthy_string (localStorage st !! "user") = false -> hydrate st = (Normal tt, st).
Proof.
  intros H. unfold hydrate, bind, getItem. rewrite H. reflexivity.
Qed.

End AuthContext_facts.

(** ** Claims about the auth facade *)

Section auth_claims.
Import AuthContext AuthContext_facts Samples.






(** C3, as stated, fails: on items that are not valid JSON [login] does
    not return false, [signup] does not proceed as on an empty store and
    the hydration effect does not complete; each ends in the [SyntaxError]
    of [JSON.parse]. *)
Lemma corrupt_storage_counterexample :
  JSON.parse "{oops" = None /\
  (login "ann@x.io" "secret1" corrupt).1 <> Normal false /\
  (signup "u-1" "Ann Lee" "ann@x.io" "secret1" corrupt).1 <> Normal true /\
  (hydrate corrupt).1 <> Normal tt.
Proof.
  split; [vm_compute; reflexivity|].
  split; [|split]; vm_compute; discriminate.
Qed.

(** C3, amended. A [users] item that is absent or the empty string reads as
    the empty list: [login] returns false and changes nothing, and [signup],
    given a name that [encodeURIComponent] takes, stores its record as the
    only one. A [user] item that is absent or empty
    leaves the current user as it is. An item that is not empty and not
    valid JSON makes [JSON.parse] throw; nothing catches the [SyntaxError]:
    [login] and [signup] end rejected, the hydration effect throws, and the
    state is unchanged. *)
Theorem corrupt_storage st :
  (truthy_string (localStorage st !! "users") = false ->
     (forall email password, login email password st = (Normal false, st)) /\
     (forall uuid name email password seed,
         encodeURIComponent name = Normal seed ->
         exists st', signup uuid name email password st = (Normal true, st')
                     /\ stored_credentials st'
                          [{| Credential.id := uuid;
                              Credential.name := name;
                              Credential.email := email;
                              Credential.password := password;
                              Credential.avatar :=
                                "https://api.dicebear.com/7.x/initials/svg?seed="
                                +:+ seed |}])) /\
  (truthy_string (localStorage st !! "user") = false ->
     hydrate st = (Normal tt, st)) /\
  (forall raw,
      localStorage st !! "users" = Some raw -> raw <> "" -> JSON.parse raw = None ->
      exists m,
        (forall email password,
            login email password st = (Throw (SyntaxError m), st)) /\
        (forall uuid name email password,
            signup uuid name email password st = (Throw (SyntaxError m), st))) /\
  (forall raw,
      localStorage st !! "user" = Some raw -> raw <> "" -> JSON.parse raw = None ->
      exists m, hydrate st = (Throw (SyntaxError m), st)).
Proof.
  split; [|split; [|split]].
  - intros Habs. pose proof (stored_absent st Habs) as Hst. split.
    + intros email password. apply (login_run st [] email password Hst).
    + intros uuid name email password seed Hseed.
      rewrite (signup_run st [] uuid name email password Hst).
      cbn [List.find]. rewrite Hseed. eexists. split; [reflexivity|].
      apply (stored_after_insert st _ [_]).
  - apply hydrate_absent.
  - intros raw Hraw Hne Hparse. eexists. split; intros.
    + apply (login_corrupt st raw); assumption.
    + apply (signup_corrupt st raw); assumption.
  - intros raw Hraw Hne Hparse. eexists. apply (hydrate_corrupt st raw); assumption.
Qed.

Lemma corrupt_storage_witness :
  (localStorage corrupt !! "users" = Some "{oops" /\ "{oops" <> ""
   /\ JSON.parse "{oops" = None) /\
  exists m,
    (forall email password,
        login email password corrupt = (Throw (SyntaxError m), corrupt)) /\
    (forall uuid name email password,
        signup uuid name email password corrupt = (Throw (SyntaxError m), corrupt)).
Proof.
  assert (H1 : localStorage corrupt !! "users" = Some "{oops")
    by (vm_compute; reflexivity).
  assert (H2 : "{oops" <> "") by discriminate.
  assert (H3 : JSON.parse "{oops" = None) by (vm_compute; reflexivity).
  split; [repeat split; assumption|].
  exact (proj1 (proj2 (proj2 (corrupt_storage corrupt))) "{oops" H1 H2 H3).
Defined.

End auth_claims.

(** ** [trim] on white space *)

Module Trim_facts.
Import Trim.
Local Open Scope char_scope.
Local Open Scope list_scope.

Lemma ws2_not_ws1 a b : ws2 a b = true -> ws1 a = false.
Proof.
  unfold ws2. destruct a as [[] [] [] [] [] [] [] []]; cbn; congruence.
Qed.

Lemma ws3_not_ws1 a b c : ws3 a b c = true -> ws1 a = false.
Proof.
  unfold ws3. destruct a as [[] [] [] [] [] [] [] []]; cbn; congruence.
Qed.

Lemma ws3_not_ws2 a b c : ws3 a b c = true -> ws2 a b = false.
Proof.
  unfold ws3, ws2. destruct a as [[] [] [] [] [] [] [] []]; cbn; congruence.
Qed.

Lemma trimStart_blank s : blank s -> trimStart s = [].
Proof.
  induction 1 as [|w s Hw _ IH]; [reflexivity|].
  destruct w as [|a [|b [|c [|d w]]]]; cbn in Hw; try contradiction.
  - cbn [app trimStart]. rewrite Hw. exact IH.
  - cbn [app trimStart]. rewrite (ws2_not_ws1 a b Hw), Hw. exact IH.
  - cbn [app trimStart].
    rewrite (ws3_not_ws1 a b c Hw), (ws3_not_ws2 a b c Hw), Hw. exact IH.
Qed.

Lemma blank_app w s : blank w -> blank s -> blank (w ++ s).
Proof.
  induction 1 as [|w1 w2 Hw _ IH]; intros Hs; [exact Hs|].
  rewrite <- app_assoc. apply blank_cons; [exact Hw|exact (IH Hs)].
Qed.

(** [trimStart] takes off a prefix of white space. *)
Lemma trimStart_split_bounded n : forall s,
  length s <= n -> exists w, blank w /\ s = w ++ trimStart s.
Proof.
  induction n as [|n IH]; intros s Hlen.
  { destruct s; [|cbn in Hlen; lia]. exists []. split; [constructor|reflexivity]. }
  assert (Hnone : exists w, blank w /\ s = w ++ s).
  { exists []. split; [constructor|reflexivity]. }
  destruct s as [|a [|b [|c r3]]]; cbn [trimStart]; cbn [length] in Hlen.
  - exact Hnone.
  - destruct (ws1 a) eqn:E1; [|exact Hnone].
    exists [a]. split; [|reflexivity].
    apply (blank_cons [a] []); [exact E1|constructor].
  - destruct (ws1 a) eqn:E1.
    { destruct (IH [b] ltac:(cbn; lia)) as (w & Hw & Hs).
      exists ([a] ++ w). split; [apply blank_cons; assumption|].
      cbn [app]. f_equal. exact Hs. }
    destruct (ws2 a b) eqn:E2; [|exact Hnone].
    exists [a; b]. split; [|reflexivity].
    apply (blank_cons [a; b] []); [exact E2|constructor].
  - destruct (ws1 a) eqn:E1.
    { destruct (IH (b :: c :: r3) ltac:(cbn; lia)) as (w & Hw & Hs).
      exists ([a] ++ w). split; [apply blank_cons; assumption|].
      cbn [app]. f_equal. exact Hs. }
    destruct (ws2 a b) eqn:E2.
    { destruct (IH (c :: r3) ltac:(cbn; lia)) as (w & Hw & Hs).
      exists ([a; b] ++ w). split; [apply blank_cons; assumption|].
      cbn [app]. do 2 f_equal. exact Hs. }
    destruct (ws3 a b c) eqn:E3; [|exact Hnone].
    destruct (IH r3 ltac:(lia)) as (w & Hw & Hs).
    exists ([a; b; c] ++ w). split; [apply blank_cons; assumption|].
    cbn [app]. do 3 f_equal. exact Hs.
Qed.

Lemma trimStart_split s : exists w, blank w /\ s = w ++ trimStart s.
Proof. exact (trimStart_split_bounded (length s) s (le_n _)). Qed.

Lemma trimStart_nil_blank s : trimStart s = [] -> blank s.
Proof.
  intros H. destruct (trimStart_split s) as (w & Hw & Hs).
  rewrite H, app_nil_r in Hs. subst s. exact Hw.
Qed.

Lemma trimEnd_nil s : trimEnd s = [] -> trimStart s = [].
Proof.
  destruct s as [|c r]; [reflexivity|]. cbn [trimEnd].
  destruct (trimStart (c :: r)); [reflexivity|discriminate].
Qed.

(** [!input.trim()] holds exactly for a prompt of white space only. *)
Lemma trim_blank (s : string) : blank (text_of s) -> falsy_string (trim s) = true.
Proof.
  intros H. unfold trim. rewrite (trimStart_blank _ H). reflexivity.
Qed.

Lemma trim_blank_iff (s : string) : falsy_string (trim s) = true <-> blank (text_of s).
Proof.
  split; [|apply trim_blank].
  unfold falsy_string, trim. intros H. apply String.eqb_eq in H.
  assert (Hnil : trimEnd (trimStart (text_of s)) = []).
  { destruct (trimEnd (trimStart (text_of s))); [reflexivity|discriminate H]. }
  apply trimEnd_nil, trimStart_nil_blank in Hnil.
  destruct (trimStart_split (text_of s)) as (w & Hw & Hs).
  rewrite Hs. apply blank_app; assumption.
Qed.

Lemma trim_not_blank (s : string) :
  ~ blank (text_of s) -> falsy_string (trim s) = false.
Proof.
  intros H. destruct (falsy_string (trim s)) eqn:E; [|reflexivity].
  apply trim_blank_iff in E. contradiction.
Qed.

End Trim_facts.

(** ** Claims about the backend client *)

Section api_claims.

Lemma analyze_form_agent_type (prefix : FormData) agent v :
  (forall w, ("agent_type", w) ∉ prefix) ->
  ("agent_type", v) ∈
    (if negb (AgentType_string agent =? "auto")
     then append prefix "agent_type" (FormString (AgentType_string agent))
     else prefix)
  <-> agent <> auto /\ v = FormString (AgentType_string agent).
Proof.
  intros Hprefix. unfold append.
  destruct agent; cbn [AgentType_string String.eqb Ascii.eqb Bool.eqb negb];
    rewrite ?elem_of_app, ?list_elem_of_singleton;
    split;
    try (intros [H|H]; [destruct (Hprefix _ H)|]; injection H as ->; split; congruence);
    try (intros [_ ->]; right; reflexivity);
    try (intros H; destruct (Hprefix _ H));
    try (intros [H _]; congruence).
Qed.

(** C9. In both analyze requests the form has an [agent_type] field exactly
    when the agent kind is not [auto]; the field then holds the kind, one of
    [data_analysis], [pdf], [ppt], [dashboard]. *)
Theorem agent_type_field agent prompt :
  let named v :=
    agent <> auto /\ v = FormString (AgentType_string agent)
    /\ AgentType_string agent ∈ ["data_analysis"; "pdf"; "ppt"; "dashboard"] in
  (forall file,
      let form := body (api.uploadAndAnalyze_request file prompt agent) in
      ((exists v, ("agent_type", v) ∈ form) <-> agent <> auto) /\
      (forall v, ("agent_type", v) ∈ form -> named v)) /\
  (let form := body (api.analyzeWithExistingData_request prompt agent) in
   ((exists v, ("agent_type", v) ∈ form) <-> agent <> auto) /\
   (forall v, ("agent_type", v) ∈ form -> named v)).
Proof.
  assert (Hkind : agent <> auto ->
                  AgentType_string agent ∈ ["data_analysis"; "pdf"; "ppt"; "dashboard"]).
  { intros Hne. apply list_elem_of_In. destruct agent; cbn; tauto. }
  assert (Hup : forall file w,
             ("agent_type", w) ∉ append (append [] "file" (FormFile file))
                                        "prompt" (FormString prompt)).
  { intros file w H. apply list_elem_of_In in H. cbn in H.
    destruct H as [H|[H|[]]]; discriminate H. }
  assert (Hex : forall w, ("agent_type", w) ∉ append [] "prompt" (FormString prompt)).
  { intros w H. apply list_elem_of_In in H. cbn in H.
    destruct H as [H|[]]; discriminate H. }
  intros named. split; [intros file|]; intros form; subst form named;
    unfold api.uploadAndAnalyze_request, api.analyzeWithExistingData_request;
    cbn [body].
  - split.
    + split.
      * intros [v Hv]. apply (analyze_form_agent_type _ _ _ (Hup file)) in Hv.
        tauto.
      * intros Hne. eexists.
        apply (analyze_form_agent_type _ _ _ (Hup file)). eauto.
    + intros v Hv. apply (analyze_form_agent_type _ _ _ (Hup file)) in Hv.
      destruct Hv as [Hne ->]. auto.
  - split.
    + split.
      * intros [v Hv]. apply (analyze_form_agent_type _ _ _ Hex) in Hv. tauto.
      * intros Hne. eexists. apply (analyze_form_agent_type _ _ _ Hex). eauto.
    + intros v Hv. apply (analyze_form_agent_type _ _ _ Hex) in Hv.
      destruct Hv as [Hne ->]. auto.
Qed.

End api_claims.

(** ** Claims about the conversation controller *)

Section conversation_claims.
Import Samples.

(** Which of the two requests carries the file. *)
Lemma upload_request_has_file file prompt agent :
  ("file", FormFile file) ∈ body (api.uploadAndAnalyze_request file prompt agent).
Proof.
  unfold api.uploadAndAnalyze_request, append. cbn [body].
  destruct (negb (AgentType_string agent =? "auto"));
    apply list_elem_of_In; cbn; tauto.
Qed.

Lemma existing_request_has_no_file prompt agent v :
  ("file", v) ∉ body (api.analyzeWithExistingData_request prompt agent).
Proof.
  unfold api.analyzeWithExistingData_request, append. cbn [body].
  intros H. apply list_elem_of_In in H.
  destruct (negb (AgentType_string agent =? "auto")); cbn in H;
    intuition discriminate.
Qed.

(** C10. With a prompt that is empty or white space only, sending does
    nothing in either view: [handleSendMessage], the Enter key and the send
    button all return the state as it was (messages, busy flag, staged file
    and artifact pointers included) and issue no request. *)
Theorem blank_prompt_is_noop (chat : Chat.state) (page : AgentPage.state) id now :
  Trim.blank (text_of (Chat.input chat)) ->
  Trim.blank (text_of (AgentPage.input page)) ->
  (Chat.handleSendMessage id now chat = (chat, None)
   /\ Chat.textarea_onKeyDown "Enter" false id now chat = (chat, None)
   /\ Chat.send_onClick id now chat = (chat, None)) /\
  (AgentPage.handleSendMessage id now page = (page, None)
   /\ AgentPage.textarea_onKeyDown "Enter" false id now page = (page, None)
   /\ AgentPage.send_onClick id now page = (page, None)).
Proof.
  intros Hchat Hpage.
  apply Trim_facts.trim_blank in Hchat, Hpage.
  unfold Chat.textarea_onKeyDown, Chat.send_onClick, Chat.send_disabled,
    Chat.handleSendMessage, AgentPage.textarea_onKeyDown, AgentPage.send_onClick,
    AgentPage.send_disabled, AgentPage.handleSendMessage.
  rewrite Hchat, Hpage. cbn [String.eqb Ascii.eqb Bool.eqb negb andb].
  rewrite !orb_true_r. repeat split.
Qed.

Lemma blank_spaces : Trim.blank (text_of spaces).
Proof.
  change (text_of spaces)
    with ([" "%char] ++ ["009"%char] ++ ["010"%char] ++ ["194"%char; "160"%char] ++ [])%list.
  repeat (apply Trim.blank_cons; [reflexivity|]). apply Trim.blank_nil.
Qed.

Lemma blank_prompt_is_noop_witness :
  Trim.blank (text_of (Chat.input (Chat.setInput spaces chat_with_reports))) /\
  Trim.blank (text_of (AgentPage.input (AgentPage.initial pdf))) /\
  Chat.handleSendMessage "m1" 0 (Chat.setInput spaces chat_with_reports)
  = (Chat.setInput spaces chat_with_reports, None) /\
  AgentPage.handleSendMessage "m1" 0 (AgentPage.initial pdf)
  = (AgentPage.initial pdf, None).
Proof.
  assert (H1 : Trim.blank (text_of (Chat.input (Chat.setInput spaces chat_with_reports))))
    by exact blank_spaces.
  assert (H2 : Trim.blank (text_of (AgentPage.input (AgentPage.initial pdf))))
    by exact Trim.blank_nil.
  split; [exact H1|]. split; [exact H2|].
  pose proof (blank_prompt_is_noop (Chat.setInput spaces chat_with_reports)
                (AgentPage.initial pdf) "m1" 0 H1 H2) as [[Hc _] [Hp _]].
  split; [exact Hc|exact Hp].
Defined.

(** C8. The confirmed reset of the chat view empties the message list, the
    staged file and the three artifact pointers in the one step the handler
    is, and touches nothing else; a declined reset changes nothing. So
    whatever the answer, the state after the handler is the old state or
    the state with all five cleared. *)
Theorem clear_chat_is_atomic (st : Chat.state) :
  let cleared := Chat.handleClearChat true st in
  (Chat.messages cleared = []
   /\ Chat.uploadedFile cleared = None
   /\ Chat.latestPdf cleared = None
   /\ Chat.latestPpt cleared = None
   /\ Chat.latestDashboard cleared = None) /\
  (Chat.input cleared = Chat.input st
   /\ Chat.loading cleared = Chat.loading st
   /\ Chat.dragActive cleared = Chat.dragActive st
   /\ Chat.showDashboard cleared = Chat.showDashboard st
   /\ Chat.selectedAgent cleared = Chat.selectedAgent st) /\
  Chat.handleClearChat false st = st /\
  (forall confirmed, Chat.handleClearChat confirmed st = st
                     \/ Chat.handleClearChat confirmed st = cleared).
Proof.
  cbn zeta. repeat split. intros [|]; [right|left]; reflexivity.
Qed.

(** C4, as stated, fails: with a file staged, the send issues the upload
    request and the file is still staged afterwards; it is still staged
    after the request has failed. *)
Lemma staged_file_counterexample :
  exists st1 call,
    Chat.handleSendMessage "m1" 0 chat_staged = (st1, Some call)
    /\ request call = api.uploadAndAnalyze_request sales_csv "Summarise the sales" auto
    /\ Chat.uploadedFile st1 = Some sales_csv
    /\ Chat.uploadedFile
         (Chat.handleSendMessage_settled call (responded false (Throw (Error "")))
            "m2" 1 st1)
       = Some sales_csv.
Proof. eexists _, _. repeat split. Qed.

(** C4, amended. A send of a prompt that is not blank issues the upload
    request (the one with the [file] field) when a file is staged, and the
    request without a file otherwise. The send itself leaves the staged file
    in place. When the request of a send with a file succeeds, the staged
    file is cleared; when it fails, and after a send without a file, the
    staged file is left as it is at that moment. *)
Theorem staged_file_cleared_on_success
    (chat : Chat.state) (page : AgentPage.state) id now :
  ~ Trim.blank (text_of (Chat.input chat)) ->
  ~ Trim.blank (text_of (AgentPage.input page)) ->
  (exists st1 call,
      Chat.handleSendMessage id now chat = (st1, Some call)
      /\ request call =
         match Chat.uploadedFile chat with
         | Some file =>
             api.uploadAndAnalyze_request file (Chat.input chat) (Chat.selectedAgent chat)
         | None =>
             api.analyzeWithExistingData_request (Chat.input chat) (Chat.selectedAgent chat)
         end
      /\ Chat.uploadedFile st1 = Chat.uploadedFile chat
      /\ forall outcome id' now' later,
           Chat.uploadedFile (Chat.handleSendMessage_settled call outcome id' now' later)
           = match api.analyze_result outcome, Chat.uploadedFile chat with
             | Normal _, Some _ => None
             | _, _ => Chat.uploadedFile later
             end) /\
  (exists st1 call,
      AgentPage.handleSendMessage id now page = (st1, Some call)
      /\ request call =
         match AgentPage.uploadedFile page with
         | Some file =>
             api.uploadAndAnalyze_request file (AgentPage.input page)
               (AgentPage.agentType page)
         | None =>
             api.analyzeWithExistingData_request (AgentPage.input page)
               (AgentPage.agentType page)
         end
      /\ AgentPage.uploadedFile st1 = AgentPage.uploadedFile page
      /\ forall outcome id' now' later,
           AgentPage.uploadedFile
             (AgentPage.handleSendMessage_settled call outcome id' now' later)
           = match api.analyze_result outcome, AgentPage.uploadedFile page with
             | Normal _, Some _ => None
             | _, _ => AgentPage.uploadedFile later
             end).
Proof.
  intros Hchat Hpage.
  apply Trim_facts.trim_not_blank in Hchat, Hpage. split.
  - unfold Chat.handleSendMessage. rewrite Hchat.
    eexists _, _. split; [reflexivity|]. cbn [request sent_file].
    split; [reflexivity|]. split; [reflexivity|].
    intros outcome id' now' later. unfold Chat.handleSendMessage_settled.
    cbn [sent_file].
    destruct (api.analyze_result outcome) as [response|error]; [|reflexivity].
    destruct (Chat.uploadedFile chat);
      destruct (truthy_string (AnalysisResponse.pdf_path response));
      destruct (truthy_string (AnalysisResponse.ppt_path response));
      destruct (truthy_string (AnalysisResponse.dashboard_path response));
      reflexivity.
  - unfold AgentPage.handleSendMessage. rewrite Hpage.
    eexists _, _. split; [reflexivity|]. cbn [request sent_file].
    split; [reflexivity|]. split; [reflexivity|].
    intros outcome id' now' later. unfold AgentPage.handleSendMessage_settled.
    cbn [sent_file].
    destruct (api.analyze_result outcome) as [response|error]; [|reflexivity].
    destruct (AgentPage.uploadedFile page);
      destruct (truthy_string (AnalysisResponse.pdf_path response));
      destruct (truthy_string (AnalysisResponse.ppt_path response));
      destruct (truthy_string (AnalysisResponse.dashboard_path response));
      reflexivity.
Qed.

Lemma not_blank_by_trim (s : string) :
  falsy_string (Trim.trim s) = false -> ~ Trim.blank (text_of s).
Proof.
  intros H Hb. apply Trim_facts.trim_blank in Hb. congruence.
Defined.

Lemma staged_file_cleared_on_success_witness :
  ~ Trim.blank (text_of (Chat.input chat_staged)) /\
  ~ Trim.blank
      (text_of (AgentPage.input (AgentPage.setInput "Plot it" (AgentPage.initial pdf)))) /\
  exists st1 call,
    Chat.handleSendMessage "m1" 0 chat_staged = (st1, Some call)
    /\ request call =
       api.uploadAndAnalyze_request sales_csv "Summarise the sales" auto
    /\ Chat.uploadedFile st1 = Some sales_csv.
Proof.
  assert (H1 : ~ Trim.blank (text_of (Chat.input chat_staged)))
    by (apply not_blank_by_trim; vm_compute; reflexivity).
  assert (H2 : ~ Trim.blank
                 (text_of (AgentPage.input
                             (AgentPage.setInput "Plot it" (AgentPage.initial pdf)))))
    by (apply not_blank_by_trim; vm_compute; reflexivity).
  split; [exact H1|]. split; [exact H2|].
  destruct (staged_file_cleared_on_success chat_staged
              (AgentPage.setInput "Plot it" (AgentPage.initial pdf)) "m1" 0 H1 H2)
    as [(st1 & call & Hsend & Hreq & Hfile & _) _].
  exists st1, call. split; [exact Hsend|]. split; [exact Hreq|exact Hfile].
Defined.

(** The analyze calls fail in three ways: [fetch] rejects, the status is
    not a success, or the body cannot be read. *)
Lemma analyze_result_failure outcome error :
  api.analyze_result outcome = Throw error <->
  outcome = rejected error
  \/ (exists json, outcome = responded false json /\ error = Error "Analysis request failed")
  \/ outcome = responded true (Throw error).
Proof.
  split.
  - destruct outcome as [e|[|] [r|e]]; cbn; intros H; inversion H; subst; eauto.
  - intros [->|[(json & -> & ->)| ->]]; reflexivity.
Qed.

(** C6. When the analyze request of a send fails, the rest of
    [handleSendMessage] appends one assistant message whose content is
    [Error: ] followed by the description, clears the busy flag and changes
    nothing else: the messages before it, the three artifact pointers, the
    staged file and the input are as they were. *)
Theorem failed_request_is_reported
    call outcome error id now (chat : Chat.state) (page : AgentPage.state) :
  api.analyze_result outcome = Throw error ->
  (exists m detail,
      Chat.handleSendMessage_settled call outcome id now chat
      = Chat.setLoading false (Chat.setMessages (fun prev => (prev ++ [m])%list) chat)
      /\ Message.type m = assistant
      /\ Message.content m = "Error: " +:+ detail
      /\ Chat.messages (Chat.handleSendMessage_settled call outcome id now chat)
         = (Chat.messages chat ++ [m])%list
      /\ Chat.loading (Chat.handleSendMessage_settled call outcome id now chat) = false
      /\ Chat.latestPdf (Chat.handleSendMessage_settled call outcome id now chat)
         = Chat.latestPdf chat
      /\ Chat.latestPpt (Chat.handleSendMessage_settled call outcome id now chat)
         = Chat.latestPpt chat
      /\ Chat.latestDashboard (Chat.handleSendMessage_settled call outcome id now chat)
         = Chat.latestDashboard chat
      /\ Chat.uploadedFile (Chat.handleSendMessage_settled call outcome id now chat)
         = Chat.uploadedFile chat
      /\ Chat.input (Chat.handleSendMessage_settled call outcome id now chat)
         = Chat.input chat) /\
  (exists m detail,
      AgentPage.handleSendMessage_settled call outcome id now page
      = AgentPage.setLoading false
          (AgentPage.setMessages (fun prev => (prev ++ [m])%list) page)
      /\ Message.type m = assistant
      /\ Message.content m = "Error: " +:+ detail
      /\ AgentPage.messages (AgentPage.handleSendMessage_settled call outcome id now page)
         = (AgentPage.messages page ++ [m])%list
      /\ AgentPage.loading (AgentPage.handleSendMessage_settled call outcome id now page)
         = false
      /\ AgentPage.latestPdf (AgentPage.handleSendMessage_settled call outcome id now page)
         = AgentPage.latestPdf page
      /\ AgentPage.latestPpt (AgentPage.handleSendMessage_settled call outcome id now page)
         = AgentPage.latestPpt page
      /\ AgentPage.latestDashboard
           (AgentPage.handleSendMessage_settled call outcome id now page)
         = AgentPage.latestDashboard page
      /\ AgentPage.uploadedFile
           (AgentPage.handleSendMessage_settled call outcome id now page)
         = AgentPage.uploadedFile page
      /\ AgentPage.input (AgentPage.handleSendMessage_settled call outcome id now page)
         = AgentPage.input page).
Proof.
  intros Hfail.
  unfold Chat.handleSendMessage_settled, AgentPage.handleSendMessage_settled.
  rewrite Hfail. split; eexists _, _; repeat split.
Qed.

Lemma failed_request_is_reported_witness :
  api.analyze_result (responded false (Normal (no_artifacts "")))
  = Throw (Error "Analysis request failed") /\
  exists m detail,
    Chat.messages
      (Chat.handleSendMessage_settled
         {| request := api.analyzeWithExistingData_request "Plot it" auto;
            sent_file := None |}
         (responded false (Normal (no_artifacts ""))) "m2" 1 chat_with_reports)
    = [m]
    /\ Message.type m = assistant
    /\ Message.content m = "Error: " +:+ detail
    /\ Chat.latestPdf
         (Chat.handleSendMessage_settled
            {| request := api.analyzeWithExistingData_request "Plot it" auto;
               sent_file := None |}
            (responded false (Normal (no_artifacts ""))) "m2" 1 chat_with_reports)
       = Some "/files/report.pdf".
Proof.
  assert (H : api.analyze_result (responded false (Normal (no_artifacts "")))
              = Throw (Error "Analysis request failed")) by reflexivity.
  split; [exact H|].
  destruct (failed_request_is_reported
              {| request := api.analyzeWithExistingData_request "Plot it" auto;
                 sent_file := None |}
              (responded false (Normal (no_artifacts "")))
              (Error "Analysis request failed") "m2" 1
              chat_with_reports (AgentPage.initial pdf) H)
    as [(m & detail & _ & Htype & Hcontent & Hmsgs & _ & Hpdf & _) _].
  exists m, detail.
  split; [exact Hmsgs|]. split; [exact Htype|]. split; [exact Hcontent|exact Hpdf].
Defined.

(** C7, as stated, fails: the response carries a [pdf_path], the empty
    string, and the PDF pointer keeps its previous value. *)
Lemma artifact_pointer_counterexample :
  let call := {| request := api.analyzeWithExistingData_request "Plot it" auto;
                 sent_file := None |} in
  let st' := Chat.handleSendMessage_settled call (responded true (Normal empty_pdf_path))
               "m2" 1 chat_with_reports in
  AnalysisResponse.pdf_path empty_pdf_path = Some ""
  /\ Chat.latestPdf chat_with_reports = Some "/files/report.pdf"
  /\ Chat.latestPdf st' = Some "/files/report.pdf"
  /\ Chat.latestPdf st' <> AnalysisResponse.pdf_path empty_pdf_path.
Proof. cbn. repeat split. discriminate. Qed.

(** C7, amended. On a successful analyze response each of the three
    artifact pointers takes the value of its path field when that field is
    present and not the empty string, and keeps its previous value when the
    field is absent or empty; so a response with a dashboard path only
    leaves the PDF and deck pointers as they were. *)
Theorem artifact_pointers_follow_response
    call outcome response id now (chat : Chat.state) (page : AgentPage.state) :
  api.analyze_result outcome = Normal response ->
  let pointer (field previous : option string) :=
    if truthy_string field then field else previous in
  (Chat.latestPdf (Chat.handleSendMessage_settled call outcome id now chat)
   = pointer (AnalysisResponse.pdf_path response) (Chat.latestPdf chat)
   /\ Chat.latestPpt (Chat.handleSendMessage_settled call outcome id now chat)
      = pointer (AnalysisResponse.ppt_path response) (Chat.latestPpt chat)
   /\ Chat.latestDashboard (Chat.handleSendMessage_settled call outcome id now chat)
      = pointer (AnalysisResponse.dashboard_path response) (Chat.latestDashboard chat)) /\
  (AgentPage.latestPdf (AgentPage.handleSendMessage_settled call outcome id now page)
   = pointer (AnalysisResponse.pdf_path response) (AgentPage.latestPdf page)
   /\ AgentPage.latestPpt (AgentPage.handleSendMessage_settled call outcome id now page)
      = pointer (AnalysisResponse.ppt_path response) (AgentPage.latestPpt page)
   /\ AgentPage.latestDashboard
        (AgentPage.handleSendMessage_settled call outcome id now page)
      = pointer (AnalysisResponse.dashboard_path response)
          (AgentPage.latestDashboard page)).
Proof.
  intros Hok pointer. subst pointer.
  unfold Chat.handleSendMessage_settled, AgentPage.handleSendMessage_settled.
  rewrite Hok.
  destruct (sent_file call);
    destruct (truthy_string (AnalysisResponse.pdf_path response));
    destruct (truthy_string (AnalysisResponse.ppt_path response));
    destruct (truthy_string (AnalysisResponse.dashboard_path response));
    repeat split.
Qed.

Lemma artifact_pointers_follow_response_witness :
  api.analyze_result (responded true (Normal dashboard_only)) = Normal dashboard_only /\
  let st' := Chat.handleSendMessage_settled
               {| request := api.analyzeWithExistingData_request "Plot it" auto;
                  sent_file := None |}
               (responded true (Normal dashboard_only)) "m2" 1 chat_with_reports in
  Chat.latestPdf st' = Some "/files/report.pdf"
  /\ Chat.latestPpt st' = Some "/files/deck.pptx"
  /\ Chat.latestDashboard st' = Some "/files/dash.html".
Proof.
  assert (H : api.analyze_result (responded true (Normal dashboard_only))
              = Normal dashboard_only) by reflexivity.
  split; [exact H|].
  exact (proj1 (artifact_pointers_follow_response
                  {| request := api.analyzeWithExistingData_request "Plot it" auto;
                     sent_file := None |}
                  (responded true (Normal dashboard_only)) dashboard_only "m2" 1
                  chat_with_reports (AgentPage.initial pdf) H)).
Defined.

(** In the chat view the Enter key and the send button do nothing while a
    request is in flight, and so does the send button of the agent page. *)
Lemma chat_send_inert_while_busy (st : Chat.state) id now :
  Chat.loading st = true ->
  Chat.textarea_onKeyDown "Enter" false id now st = (st, None)
  /\ Chat.send_onClick id now st = (st, None).
Proof.
  intros Hbusy. unfold Chat.textarea_onKeyDown, Chat.send_onClick, Chat.send_disabled.
  rewrite Hbusy. cbn [String.eqb Ascii.eqb Bool.eqb negb andb orb].
  rewrite andb_false_r. split; reflexivity.
Qed.

Lemma page_button_inert_while_busy (st : AgentPage.state) id now :
  AgentPage.loading st = true -> AgentPage.send_onClick id now st = (st, None).
Proof.
  intros Hbusy. unfold AgentPage.send_onClick, AgentPage.send_disabled.
  rewrite Hbusy. reflexivity.
Qed.

(** The Enter key of the agent page is not gated on the busy flag. *)
Lemma page_enter_ignores_busy (st : AgentPage.state) id now :
  AgentPage.textarea_onKeyDown "Enter" false id now st
  = AgentPage.handleSendMessage id now st.
Proof. reflexivity. Qed.

Lemma page_enter_sends_while_busy (st : AgentPage.state) id now :
  AgentPage.loading st = true ->
  ~ Trim.blank (text_of (AgentPage.input st)) ->
  exists st' call,
    AgentPage.textarea_onKeyDown "Enter" false id now st = (st', Some call)
    /\ length (AgentPage.messages st') = S (length (AgentPage.messages st))
    /\ AgentPage.loading st' = true.
Proof.
  intros _ Hinput. apply Trim_facts.trim_not_blank in Hinput.
  rewrite page_enter_ignores_busy. unfold AgentPage.handleSendMessage.
  rewrite Hinput. eexists _, _. split; [reflexivity|].
  cbn. rewrite length_app. cbn. split; [lia|reflexivity].
Qed.

(** C5 does not hold of the agent page. A question is typed and sent with
    Enter; while that request is in flight a second question is typed and
    Enter is pressed again: the view is busy, yet a second user message is
    appended and a second request is issued. *)
Theorem page_enter_while_busy :
  let st1 := AgentPage.textarea_onChange "First question" (AgentPage.initial pdf) in
  let sent1 := AgentPage.textarea_onKeyDown "Enter" false "m1" 1 st1 in
  let st2 := AgentPage.textarea_onChange "Second question" sent1.1 in
  let sent2 := AgentPage.textarea_onKeyDown "Enter" false "m2" 2 st2 in
  sent1.2 = Some {| request := api.analyzeWithExistingData_request "First question" pdf;
                    sent_file := None |}
  /\ AgentPage.loading st2 = true
  /\ sent2.2 = Some {| request := api.analyzeWithExistingData_request
                                    "Second question" pdf;
                       sent_file := None |}
  /\ length (AgentPage.messages sent2.1) = S (length (AgentPage.messages st2))
  /\ map Message.content (AgentPage.messages sent2.1)
     = ["First question"; "Second question"].
Proof. cbn. repeat split. Qed.

End conversation_claims.

(** * More about the code *)

(** ** The auth facade in use *)

Module AuthUse_facts.
Import AuthContext AuthContext_facts AuthUse.

Lemma stringify_object_nonempty members : (JSON.stringify (JObj members) =? "") = false.
Proof. reflexivity. Qed.

Lemma hydrate_session st raw v :
  localStorage st !! "user" = Some raw -> JSON.parse raw = Some v -> raw <> "" ->
  hydrate st = (Normal tt, {| user := v; localStorage := localStorage st |}).
Proof.
  intros Hraw Hparse Hne. unfold hydrate, bind at 1, getItem. rewrite Hraw.
  unfold truthy_string.
  destruct (raw =? "") eqn:E; [apply String.eqb_eq in E; contradiction|].
  cbn [negb ToString]. unfold bind, JSON_parse. rewrite Hparse. reflexivity.
Qed.

(** Reloading a state whose session item is the serialised current user. *)
Lemma reload_session c ls :
  hydrate (reloaded {| user := Credential.session c;
                       localStorage :=
                         <["user" := JSON.stringify (Credential.session c)]> ls |})
  = (Normal tt,
     {| user := Credential.session c;
        localStorage := <["user" := JSON.stringify (Credential.session c)]> ls |}).
Proof.
  rewrite (hydrate_session _ (JSON.stringify (Credential.session c))
             (Credential.session c)).
  - reflexivity.
  - apply lookup_insert_eq.
  - apply JSON_facts.parse_stringify. reflexivity.
  - intros H. pose proof (stringify_object_nonempty
                            [("id", JStr (Credential.id c));
                             ("name", JStr (Credential.name c));
                             ("email", JStr (Credential.email c));
                             ("avatar", JStr (Credential.avatar c))]) as Hne.
    unfold Credential.session in H. rewrite H in Hne. discriminate Hne.
Qed.

Lemma login_true_find st store email password :
  stored_credentials st store ->
  (login email password st).1 = Normal true ->
  exists c, List.find (matches email password) store = Some c.
Proof.
  intros Hst. rewrite (login_run st store email password Hst).
  destruct (List.find (matches email password) store) as [c|]; [eauto|discriminate].
Qed.

Lemma signup_true_find st store uuid name email password :
  stored_credentials st store ->
  (signup uuid name email password st).1 = Normal true ->
  List.find (same_email email) store = None
  /\ exists seed, encodeURIComponent name = Normal seed.
Proof.
  intros Hst. rewrite (signup_run st store uuid name email password Hst).
  destruct (List.find (same_email email) store) as [c|]; [discriminate|].
  destruct (encodeURIComponent name) as [seed|e]; [eauto|discriminate].
Qed.

Lemma stored_same_users st st' store :
  localStorage st' !! "users" = localStorage st !! "users" ->
  stored_credentials st store -> stored_credentials st' store.
Proof. unfold stored_credentials. intros ->. trivial. Qed.

Lemma find_matches_same_email email password store :
  List.find (same_email email) store = None ->
  List.find (matches email password) store = None.
Proof.
  induction store as [|c store IH]; [reflexivity|].
  cbn [List.find]. unfold same_email at 1, matches at 1.
  destruct (Credential.email c =? email); [discriminate|exact IH].
Qed.



End AuthUse_facts.

Section auth_use.
Import AuthContext AuthContext_facts AuthUse AuthUse_facts Samples.

(** X1. [logout] ends, from every state, with the current user null, not
    authenticated, the session item gone and every other item of
    [localStorage] (the credential store among them) as it was; a second
    [logout] changes nothing more. *)
Theorem logout_clears_session st :
  let st' := (logout st).2 in
  (logout st).1 = Normal tt
  /\ user st' = JNull
  /\ isAuthenticated st' = false
  /\ localStorage st' !! "user" = None
  /\ (forall key, key <> "user" -> localStorage st' !! key = localStorage st !! key)
  /\ logout st' = (Normal tt, st').
Proof.
  cbn. repeat split.
  - apply lookup_delete_eq.
  - intros key Hkey. apply lookup_delete_ne. congruence.
  - unfold logout, bind, setUser, removeItem. cbn. f_equal. f_equal.
    apply delete_id, lookup_delete_eq.
Qed.

(** X2. The session survives a reload: after a [login] or a [signup] that
    returned true, starting the provider again on the same [localStorage]
    and running the mount effect gives back exactly the state the operation
    left, current user included. *)
Theorem session_survives_reload st store :
  stored_credentials st store ->
  (forall email password,
      (login email password st).1 = Normal true ->
      hydrate (reloaded (login email password st).2)
      = (Normal tt, (login email password st).2)) /\
  (forall uuid name email password,
      (signup uuid name email password st).1 = Normal true ->
      hydrate (reloaded (signup uuid name email password st).2)
      = (Normal tt, (signup uuid name email password st).2)).
Proof.
  intros Hst. split.
  - intros email password Hok.
    destruct (login_true_find _ _ _ _ Hst Hok) as [c Hc].
    rewrite (login_run st store email password Hst), Hc. cbn [snd].
    apply reload_session.
  - intros uuid name email password Hok.
    pose proof (signup_true_find _ _ _ _ _ _ Hst Hok) as (Hc & seed & Hseed).
    rewrite (signup_run st store uuid name email password Hst), Hc, Hseed. cbn [snd].
    apply reload_session.
Qed.

Lemma session_survives_reload_witness :
  stored_credentials two_users [ann; bob] /\
  (login "ann@x.io" "secret1" two_users).1 = Normal true /\
  hydrate (reloaded (login "ann@x.io" "secret1" two_users).2)
  = (Normal tt, (login "ann@x.io" "secret1" two_users).2).
Proof.
  assert (H : stored_credentials two_users [ann; bob]) by (vm_compute; reflexivity).
  assert (H1 : (login "ann@x.io" "secret1" two_users).1 = Normal true)
    by (vm_compute; reflexivity).
  split; [exact H|]. split; [exact H1|].
  exact (proj1 (session_survives_reload two_users [ann; bob] H)
           "ann@x.io" "secret1" H1).
Defined.

(** X3. After [logout] a reload finds no session: the mount effect ends
    normally and the current user stays null, whatever the state was. *)
Theorem reload_after_logout st :
  hydrate (reloaded (logout st).2) = (Normal tt, (logout st).2)
  /\ isAuthenticated (logout st).2 = false.
Proof.
  split; [|reflexivity].
  rewrite hydrate_absent; [reflexivity|].
  cbn. rewrite lookup_delete_eq. reflexivity.
Qed.

(** X4. A new account can sign in: after a [signup] that returned true,
    [login] with the same email and password returns true and sets the very
    state the signup left, whether it is called right away or after a
    [logout]. *)
Theorem login_after_signup st store uuid name email password :
  stored_credentials st store ->
  (signup uuid name email password st).1 = Normal true ->
  login email password (signup uuid name email password st).2
  = (Normal true, (signup uuid name email password st).2) /\
  login email password (logout (signup uuid name email password st).2).2
  = (Normal true, (signup uuid name email password st).2).
Proof.
  intros Hst Hok.
  pose proof (signup_true_find _ _ _ _ _ _ Hst Hok) as (Hnone & seed & Hseed).
  rewrite (signup_run st store uuid name email password Hst), Hnone, Hseed. cbn [snd].
  set (c := new_credential uuid name email password seed).
  assert (Hfind : List.find (matches email password) (store ++ [c]) = Some c).
  { rewrite (find_app_None _ _ _ (find_matches_same_email _ password _ Hnone)).
    cbn [List.find]. unfold matches. cbn [c new_credential Credential.email
                                          Credential.password].
    rewrite !String.eqb_refl. reflexivity. }
  split.
  - rewrite (login_run _ (store ++ [c]) email password
               (stored_after_insert st (Credential.session c) (store ++ [c]))), Hfind.
    cbn [localStorage]. rewrite insert_insert_eq. reflexivity.
  - assert (Hst' : stored_credentials
                     (logout {| user := Credential.session c;
                                localStorage :=
                                  <["user" := JSON.stringify (Credential.session c)]>
                                    (<["users" := JSON.stringify
                                         (JArr (map Credential.to_json (store ++ [c])))]>
                                       (localStorage st)) |}).2
                     (store ++ [c])).
    { eapply stored_same_users; [|apply (stored_after_insert st (Credential.session c) (store ++ [c]))].
      cbn. rewrite lookup_delete_ne by discriminate. reflexivity. }
    rewrite (login_run _ (store ++ [c]) email password Hst'), Hfind.
    cbn. rewrite insert_delete_eq, insert_insert_eq. reflexivity.
Qed.

Lemma login_after_signup_witness :
  stored_credentials two_users [ann; bob] /\
  (signup "u-3" "Cy" "cy@x.io" "letmein" two_users).1 = Normal true /\
  login "cy@x.io" "letmein" (logout (signup "u-3" "Cy" "cy@x.io" "letmein" two_users).2).2
  = (Normal true, (signup "u-3" "Cy" "cy@x.io" "letmein" two_users).2).
Proof.
  assert (H : stored_credentials two_users [ann; bob]) by (vm_compute; reflexivity).
  assert (H1 : (signup "u-3" "Cy" "cy@x.io" "letmein" two_users).1 = Normal true)
    by (vm_compute; reflexivity).
  split; [exact H|]. split; [exact H1|].
  exact (proj2 (login_after_signup two_users [ann; bob] "u-3" "Cy" "cy@x.io" "letmein"
                  H H1)).
Defined.



(** X6. A [users] item that is valid JSON but not an array is not treated
    as an empty store either: [users.find] is not a function (or [users] is
    null), and [login] and [signup] end rejected with that [TypeError],
    leaving the state as it was. *)
Theorem users_not_an_array st raw v :
  localStorage st !! "users" = Some raw -> raw <> "" ->
  JSON.parse raw = Some v -> (forall items, v <> JArr items) ->
  exists m,
    (forall email password, login email password st = (Throw (TypeError m), st)) /\
    (forall uuid name email password,
        signup uuid name email password st = (Throw (TypeError m), st)).
Proof.
  intros Hraw Hne Hparse Hshape.
  assert (Hor : or_default (localStorage st !! "users") "[]" = raw).
  { rewrite Hraw. unfold or_default.
    destruct (raw =? "") eqn:E; [apply String.eqb_eq in E; contradiction|reflexivity]. }
  destruct v as [|b|n|s|items|members];
    try (eexists; split; intros;
         unfold login, signup, bind, getItem, JSON_parse; rewrite Hor, Hparse;
         reflexivity).
  destruct (Hshape items eq_refl).
Qed.

Lemma users_not_an_array_witness :
  exists m, login "ann@x.io" "secret1"
              {| user := JNull; localStorage := {[ "users" := "{}" ]} |}
            = (Throw (TypeError m),
               {| user := JNull; localStorage := {[ "users" := "{}" ]} |}).
Proof.
  assert (H1 : localStorage {| user := JNull; localStorage := {[ "users" := "{}" ]} |}
               !! "users" = Some "{}") by (vm_compute; reflexivity).
  assert (H2 : "{}" <> "") by discriminate.
  assert (H3 : JSON.parse "{}" = Some (JObj [])) by (vm_compute; reflexivity).
  assert (H4 : forall items, JObj [] <> JArr items) by discriminate.
  destruct (users_not_an_array _ "{}" (JObj []) H1 H2 H3 H4) as (m & Hlogin & _).
  exists m. apply Hlogin.
Defined.

End auth_use.

(** ** The views as event systems *)

Module View_facts.

(** What a send leaves behind: nothing, or a user message, the busy flag and
    a call. *)
Lemma chat_send_cases id now (s : Chat.state) :
  Chat.handleSendMessage id now s = (s, None) \/
  exists m call,
    Chat.handleSendMessage id now s
    = (Chat.setLoading true
         (Chat.setInput "" (Chat.setMessages (fun prev => (prev ++ [m])%list) s)),
       Some call)
    /\ Message.type m = user
    /\ Message.pdfPath m = None /\ Message.pptPath m = None
    /\ Message.dashboardPath m = None.
Proof.
  unfold Chat.handleSendMessage.
  destruct (falsy_string (Trim.trim (Chat.input s))); [left; reflexivity|].
  right. eexists _, _. repeat split.
Qed.

Lemma page_send_cases id now (s : AgentPage.state) :
  AgentPage.handleSendMessage id now s = (s, None) \/
  exists m call,
    AgentPage.handleSendMessage id now s
    = (AgentPage.setLoading true
         (AgentPage.setInput ""
            (AgentPage.setMessages (fun prev => (prev ++ [m])%list) s)),
       Some call)
    /\ Message.type m = user
    /\ Message.pdfPath m = None /\ Message.pptPath m = None
    /\ Message.dashboardPath m = None.
Proof.
  unfold AgentPage.handleSendMessage.
  destruct (falsy_string (Trim.trim (AgentPage.input s))); [left; reflexivity|].
  right. eexists _, _. repeat split.
Qed.

(** What a settled call leaves behind: one assistant message, the busy flag
    cleared, and each pointer on the path of that message if it has one. *)
Lemma chat_settled_cases call outcome id now (s : Chat.state) :
  let s' := Chat.handleSendMessage_settled call outcome id now s in
  exists m,
    Chat.messages s' = (Chat.messages s ++ [m])%list
    /\ Message.type m = assistant
    /\ Chat.loading s' = false
    /\ Chat.latestPdf s'
       = (if truthy_string (Message.pdfPath m) then Message.pdfPath m else Chat.latestPdf s)
    /\ Chat.latestPpt s'
       = (if truthy_string (Message.pptPath m) then Message.pptPath m else Chat.latestPpt s)
    /\ Chat.latestDashboard s'
       = (if truthy_string (Message.dashboardPath m) then Message.dashboardPath m
          else Chat.latestDashboard s).
Proof.
  unfold Chat.handleSendMessage_settled.
  destruct (api.analyze_result outcome) as [response|error].
  - destruct (sent_file call);
      destruct (truthy_string (AnalysisResponse.pdf_path response)) eqn:E1;
      destruct (truthy_string (AnalysisResponse.ppt_path response)) eqn:E2;
      destruct (truthy_string (AnalysisResponse.dashboard_path response)) eqn:E3;
      eexists; (split; [reflexivity|]); cbn; rewrite ?E1, ?E2, ?E3; repeat split.
  - eexists. cbn. repeat split.
Qed.

Lemma page_settled_cases call outcome id now (s : AgentPage.state) :
  let s' := AgentPage.handleSendMessage_settled call outcome id now s in
  exists m,
    AgentPage.messages s' = (AgentPage.messages s ++ [m])%list
    /\ Message.type m = assistant
    /\ AgentPage.loading s' = false
    /\ AgentPage.latestPdf s'
       = (if truthy_string (Message.pdfPath m) then Message.pdfPath m
          else AgentPage.latestPdf s)
    /\ AgentPage.latestPpt s'
       = (if truthy_string (Message.pptPath m) then Message.pptPath m
          else AgentPage.latestPpt s)
    /\ AgentPage.latestDashboard s'
       = (if truthy_string (Message.dashboardPath m) then Message.dashboardPath m
          else AgentPage.latestDashboard s).
Proof.
  unfold AgentPage.handleSendMessage_settled.
  destruct (api.analyze_result outcome) as [response|error].
  - destruct (sent_file call);
      destruct (truthy_string (AnalysisResponse.pdf_path response)) eqn:E1;
      destruct (truthy_string (AnalysisResponse.ppt_path response)) eqn:E2;
      destruct (truthy_string (AnalysisResponse.dashboard_path response)) eqn:E3;
      eexists; (split; [reflexivity|]); cbn; rewrite ?E1, ?E2, ?E3; repeat split.
  - eexists. cbn. repeat split.
Qed.

(** A property kept by every step is kept by every run. *)
Lemma chat_run_invariant (P : ChatView.view -> Prop) :
  (forall e v, P v -> P (ChatView.step e v)) ->
  forall events v, P v -> P (ChatView.run events v).
Proof.
  intros Hstep events. unfold ChatView.run.
  induction events as [|e events IH]; intros v Hv; [exact Hv|].
  cbn [fold_left]. apply IH, Hstep, Hv.
Qed.

Lemma page_run_invariant (P : AgentPageView.view -> Prop) :
  (forall e v, P v -> P (AgentPageView.step e v)) ->
  forall events v, P v -> P (AgentPageView.run events v).
Proof.
  intros Hstep events. unfold AgentPageView.run.
  induction events as [|e events IH]; intros v Hv; [exact Hv|].
  cbn [fold_left]. apply IH, Hstep, Hv.
Qed.


Lemma chat_issue_idle r (s : Chat.state) id now v :
  Chat.loading (ChatView.st v) = false -> ChatView.pending v = [] ->
  r = Chat.handleSendMessage id now (ChatView.st v) \/ r = (ChatView.st v, None) ->
  chat_idle_or_one (ChatView.issue r v).
Proof.
  intros Hidle Hnone [->| ->].
  - destruct (chat_send_cases id now (ChatView.st v)) as [->|(m & call & -> & _)].
    + left. cbn. auto.
    + right. cbn. rewrite Hnone. eauto.
  - left. cbn. auto.
Qed.

Lemma chat_step_idle_or_one e v :
  chat_idle_or_one v -> chat_idle_or_one (ChatView.step e v).
Proof.
  intros Hv. destruct e as [value|key shift id now|id now|type|files|files| |a|confirmed
                           |i outcome id now].
  - cbn [ChatView.step]. destruct (Chat.loading (ChatView.st v)) eqn:E; [exact Hv|].
    destruct Hv as [[H1 H2]|[H1 H2]]; [|congruence]. left. cbn. auto.
  - cbn [ChatView.step]. destruct (Chat.loading (ChatView.st v)) eqn:E; [exact Hv|].
    destruct Hv as [[H1 H2]|[H1 H2]]; [|congruence].
    apply (chat_issue_idle _ (ChatView.st v) id now); [assumption..|].
    unfold Chat.textarea_onKeyDown. rewrite E.
    destruct ((key =? "Enter") && negb shift); [|right; reflexivity].
    destruct (negb (falsy_string (Trim.trim (Chat.input (ChatView.st v)))) && negb false);
      [left|right]; reflexivity.
  - cbn [ChatView.step]. unfold Chat.send_onClick, Chat.send_disabled.
    destruct Hv as [[H1 H2]|[H1 (call & H2)]].
    + apply (chat_issue_idle _ (ChatView.st v) id now); [assumption..|].
      rewrite H1. cbn [orb].
      destruct (falsy_string (Trim.trim (Chat.input (ChatView.st v))));
        [right|left]; reflexivity.
    + rewrite H1. cbn [orb]. right. cbn. rewrite H1, H2. eauto.
  - unfold chat_idle_or_one in *. cbn. unfold ChatView.handleDrag.
    destruct ((type =? "dragenter") || (type =? "dragover")); [exact Hv|].
    destruct (type =? "dragleave"); exact Hv.
  - unfold chat_idle_or_one in *. cbn. destruct files; exact Hv.
  - unfold chat_idle_or_one in *. cbn. unfold ChatView.handleFileChange.
    destruct files; exact Hv.
  - exact Hv.
  - cbn [ChatView.step]. destruct (Chat.loading (ChatView.st v)) eqn:E; [exact Hv|].
    destruct Hv as [[H1 H2]|[H1 H2]]; [|congruence]. left. cbn. auto.
  - unfold chat_idle_or_one in *. cbn. destruct confirmed; exact Hv.
  - cbn [ChatView.step].
    destruct (ChatView.pending v !! i) as [call|] eqn:Ei; [|exact Hv].
    destruct Hv as [[H1 H2]|[H1 (call' & H2)]].
    + rewrite H2 in Ei. discriminate Ei.
    + rewrite H2 in Ei. destruct i as [|i]; [|discriminate Ei].
      destruct (chat_settled_cases call outcome id now (ChatView.st v))
        as (m & _ & _ & Hl & _).
      left. cbn [ChatView.st ChatView.pending]. rewrite H2. auto.
Qed.

Lemma chat_keydown_cases key shift id now (s : Chat.state) :
  Chat.textarea_onKeyDown key shift id now s = Chat.handleSendMessage id now s
  \/ Chat.textarea_onKeyDown key shift id now s = (s, None).
Proof.
  unfold Chat.textarea_onKeyDown.
  destruct ((key =? "Enter") && negb shift); [|right; reflexivity].
  destruct (negb (falsy_string (Trim.trim (Chat.input s))) && negb (Chat.loading s));
    [left|right]; reflexivity.
Qed.

Lemma chat_click_cases id now (s : Chat.state) :
  Chat.send_onClick id now s = Chat.handleSendMessage id now s
  \/ Chat.send_onClick id now s = (s, None).
Proof.
  unfold Chat.send_onClick. destruct (Chat.send_disabled s); [right|left]; reflexivity.
Qed.

Lemma page_keydown_cases key shift id now (s : AgentPage.state) :
  AgentPage.textarea_onKeyDown key shift id now s = AgentPage.handleSendMessage id now s
  \/ AgentPage.textarea_onKeyDown key shift id now s = (s, None).
Proof.
  unfold AgentPage.textarea_onKeyDown.
  destruct ((key =? "Enter") && negb shift); [left|right]; reflexivity.
Qed.

Lemma page_click_cases id now (s : AgentPage.state) :
  AgentPage.send_onClick id now s = AgentPage.handleSendMessage id now s
  \/ AgentPage.send_onClick id now s = (s, None).
Proof.
  unfold AgentPage.send_onClick.
  destruct (AgentPage.send_disabled s); [right|left]; reflexivity.
Qed.

Lemma last_path_snoc field messages m :
  last_path field (messages ++ [m])
  = if truthy_string (field m) then field m else last_path field messages.
Proof. unfold last_path. rewrite fold_left_app. reflexivity. Qed.

Lemma count_type_snoc t messages m :
  count_type t (messages ++ [m])
  = count_type t messages + (if has_type t m then 1 else 0).
Proof.
  unfold count_type. rewrite List.filter_app, length_app. cbn [List.filter].
  destruct (has_type t m); reflexivity.
Qed.



Lemma chat_send_pointers r id now (s : Chat.state) :
  r = Chat.handleSendMessage id now s \/ r = (s, None) ->
  chat_pointers s -> chat_pointers r.1.
Proof.
  intros [->| ->] Hs; [|exact Hs].
  destruct (chat_send_cases id now s) as [->|(m & call & -> & _ & H1 & H2 & H3)];
    [exact Hs|].
  unfold chat_pointers in *. cbn -[last_path].
  rewrite !last_path_snoc, H1, H2, H3. exact Hs.
Qed.

Lemma chat_settled_pointers call outcome id now (s : Chat.state) :
  chat_pointers s -> chat_pointers (Chat.handleSendMessage_settled call outcome id now s).
Proof.
  intros (H1 & H2 & H3).
  destruct (chat_settled_cases call outcome id now s)
    as (m & Hm & _ & _ & Hpdf & Hppt & Hdash).
  unfold chat_pointers. rewrite Hm, !last_path_snoc, Hpdf, Hppt, Hdash, H1, H2, H3.
  auto.
Qed.

Lemma chat_step_pointers e v :
  chat_pointers (ChatView.st v) -> chat_pointers (ChatView.st (ChatView.step e v)).
Proof.
  intros Hv. destruct e as [value|key shift id now|id now|type|files|files| |a|confirmed
                           |i outcome id now]; cbn [ChatView.step].
  - destruct (Chat.loading (ChatView.st v)); exact Hv.
  - destruct (Chat.loading (ChatView.st v)); [exact Hv|].
    apply (chat_send_pointers _ id now (ChatView.st v)); [|exact Hv].
    apply chat_keydown_cases.
  - apply (chat_send_pointers _ id now (ChatView.st v)); [|exact Hv].
    apply chat_click_cases.
  - cbn. unfold ChatView.handleDrag.
    destruct ((type =? "dragenter") || (type =? "dragover")); [exact Hv|].
    destruct (type =? "dragleave"); exact Hv.
  - cbn. destruct files; exact Hv.
  - cbn. unfold ChatView.handleFileChange. destruct files; exact Hv.
  - exact Hv.
  - destruct (Chat.loading (ChatView.st v)); exact Hv.
  - destruct confirmed; [|exact Hv]. repeat split.
  - destruct (ChatView.pending v !! i); [|exact Hv].
    apply chat_settled_pointers, Hv.
Qed.

Lemma page_send_pointers r id now (s : AgentPage.state) :
  r = AgentPage.handleSendMessage id now s \/ r = (s, None) ->
  page_pointers s -> page_pointers r.1.
Proof.
  intros [->| ->] Hs; [|exact Hs].
  destruct (page_send_cases id now s) as [->|(m & call & -> & _ & H1 & H2 & H3)];
    [exact Hs|].
  unfold page_pointers in *. cbn -[last_path].
  rewrite !last_path_snoc, H1, H2, H3. exact Hs.
Qed.

Lemma page_step_pointers e v :
  page_pointers (AgentPageView.st v) ->
  page_pointers (AgentPageView.st (AgentPageView.step e v)).
Proof.
  intros Hv. destruct e as [value|key shift id now|id now|type|files|files|
                           |i outcome id now]; cbn [AgentPageView.step].
  - exact Hv.
  - apply (page_send_pointers _ id now (AgentPageView.st v)); [|exact Hv].
    apply page_keydown_cases.
  - apply (page_send_pointers _ id now (AgentPageView.st v)); [|exact Hv].
    apply page_click_cases.
  - cbn. unfold AgentPageView.handleDrag.
    destruct ((type =? "dragenter") || (type =? "dragover")); [exact Hv|].
    destruct (type =? "dragleave"); exact Hv.
  - cbn. destruct files; exact Hv.
  - cbn. unfold AgentPageView.handleFileChange. destruct files; exact Hv.
  - exact Hv.
  - destruct (AgentPageView.pending v !! i) as [call|]; [|exact Hv].
    destruct Hv as (H1 & H2 & H3).
    destruct (page_settled_cases call outcome id now (AgentPageView.st v))
      as (m & Hm & _ & _ & Hpdf & Hppt & Hdash).
    unfold page_pointers. cbn [AgentPageView.st].
    rewrite Hm, !last_path_snoc, Hpdf, Hppt, Hdash, H1, H2, H3. auto.
Qed.


Lemma page_issue_balance r id now v :
  r = AgentPage.handleSendMessage id now (AgentPageView.st v)
  \/ r = (AgentPageView.st v, None) ->
  page_balance v -> page_balance (AgentPageView.issue r v).
Proof.
  intros [->| ->] Hv; [|exact Hv].
  destruct (page_send_cases id now (AgentPageView.st v))
    as [->|(m & call & -> & Hm & _)]; [exact Hv|].
  unfold page_balance in *. cbn -[count_type].
  rewrite !count_type_snoc, length_app. unfold has_type. rewrite Hm. cbn. lia.
Qed.

Lemma page_step_balance e v : page_balance v -> page_balance (AgentPageView.step e v).
Proof.
  intros Hv. destruct e as [value|key shift id now|id now|type|files|files|
                           |i outcome id now]; cbn [AgentPageView.step].
  - exact Hv.
  - apply (page_issue_balance _ id now); [apply page_keydown_cases|exact Hv].
  - apply (page_issue_balance _ id now); [apply page_click_cases|exact Hv].
  - unfold page_balance in *. cbn. unfold AgentPageView.handleDrag.
    destruct ((type =? "dragenter") || (type =? "dragover")); [exact Hv|].
    destruct (type =? "dragleave"); exact Hv.
  - unfold page_balance in *. cbn. destruct files; exact Hv.
  - unfold page_balance in *. cbn. unfold AgentPageView.handleFileChange.
    destruct files; exact Hv.
  - exact Hv.
  - destruct (AgentPageView.pending v !! i) as [call|] eqn:Ei; [|exact Hv].
    destruct (page_settled_cases call outcome id now (AgentPageView.st v))
      as (m & Hm & Ht & _).
    unfold page_balance in *. cbn [AgentPageView.st AgentPageView.pending].
    rewrite Hm, !count_type_snoc. unfold has_type. rewrite Ht.
    assert (Hlen : length (delete i (AgentPageView.pending v))
                   = length (AgentPageView.pending v) - 1)
      by (apply length_delete; eauto).
    apply lookup_lt_Some in Ei. lia.
Qed.




Lemma turns_snoc (messages : list Message.t) m :
  map Message.type messages = map turn (seq 0 (length messages)) ->
  Message.type m = turn (length messages) ->
  map Message.type (messages ++ [m]) = map turn (seq 0 (length (messages ++ [m]))).
Proof.
  intros H Hm. rewrite length_app. cbn [length].
  rewrite Nat.add_1_r, seq_S, !map_app, H. cbn. rewrite Hm. reflexivity.
Qed.

Lemma chat_issue_turns r id now v :
  r = Chat.handleSendMessage id now (ChatView.st v) \/ r = (ChatView.st v, None) ->
  Chat.loading (ChatView.st v) = false \/ r = (ChatView.st v, None) ->
  chat_turns v -> chat_idle_or_one (ChatView.issue r v) -> chat_turns (ChatView.issue r v).
Proof.
  intros Hr Hidle (_ & Hturns & Heven) Hone. split; [exact Hone|].
  destruct Hr as [->| ->]; [|split; assumption].
  destruct (chat_send_cases id now (ChatView.st v)) as [E|(m & call & E & Hm & _)].
  { rewrite E. split; assumption. }
  destruct Hidle as [Hidle|Hidle]; [|rewrite E in Hidle; discriminate Hidle].
  rewrite E. cbn [ChatView.issue ChatView.st fst Chat.setLoading Chat.setInput
                  Chat.setMessages Chat.messages Chat.loading].
  rewrite Hidle in Heven. cbn in Heven. split.
  - apply turns_snoc; [exact Hturns|]. rewrite Hm. unfold turn. rewrite Heven.
    reflexivity.
  - rewrite length_app. cbn [length]. rewrite Nat.add_1_r, Nat.even_succ.
    rewrite <- Nat.negb_even, Heven. reflexivity.
Qed.

Lemma chat_step_turns e v : no_reset e -> chat_turns v -> chat_turns (ChatView.step e v).
Proof.
  intros He Hv. pose proof (chat_step_idle_or_one e v (proj1 Hv)) as Hone.
  destruct e as [value|key shift id now|id now|type|files|files| |a|confirmed
                |i outcome id now]; cbn [ChatView.step] in *.
  - destruct (Chat.loading (ChatView.st v)); [exact Hv|].
    split; [exact Hone|exact (proj2 Hv)].
  - destruct (Chat.loading (ChatView.st v)) eqn:E; [exact Hv|].
    apply (chat_issue_turns _ id now); auto. apply chat_keydown_cases.
  - apply (chat_issue_turns _ id now); auto; [apply chat_click_cases|].
    unfold Chat.send_onClick, Chat.send_disabled.
    destruct (Chat.loading (ChatView.st v)); [right|left]; reflexivity.
  - split; [exact Hone|]. destruct Hv as (_ & Hv). cbn. unfold ChatView.handleDrag.
    destruct ((type =? "dragenter") || (type =? "dragover")); [exact Hv|].
    destruct (type =? "dragleave"); exact Hv.
  - split; [exact Hone|]. destruct Hv as (_ & Hv). cbn. destruct files; exact Hv.
  - split; [exact Hone|]. destruct Hv as (_ & Hv). cbn.
    unfold ChatView.handleFileChange. destruct files; exact Hv.
  - split; [exact Hone|exact (proj2 Hv)].
  - destruct (Chat.loading (ChatView.st v)); [exact Hv|].
    split; [exact Hone|exact (proj2 Hv)].
  - destruct confirmed; [destruct He|exact Hv].
  - destruct (ChatView.pending v !! i) as [call|] eqn:Ei; [|exact Hv].
    split; [exact Hone|]. destruct Hv as (Hidle & Hturns & Heven).
    assert (Hbusy : Chat.loading (ChatView.st v) = true).
    { destruct Hidle as [[_ H]|[H _]]; [rewrite H in Ei; discriminate Ei|exact H]. }
    destruct (chat_settled_cases call outcome id now (ChatView.st v))
      as (m & Hm & Ht & Hl & _).
    cbn [ChatView.st]. rewrite Hm, Hl. rewrite Hbusy in Heven. cbn in Heven. split.
    + apply turns_snoc; [exact Hturns|]. rewrite Ht. unfold turn. rewrite Heven.
      reflexivity.
    + rewrite length_app. cbn [length]. rewrite Nat.add_1_r, Nat.even_succ.
      rewrite <- Nat.negb_even, Heven. reflexivity.
Qed.

End View_facts.

Section view_claims.
Import View_facts.

(** X7. In the chat view at most one analyze call is in flight, and the busy
    flag is set exactly while one is: this holds after every sequence of
    typing, key, send-button, drag-and-drop, file, agent-selector, reset and
    settling events from the initial view. The dashboard button of the
    header, which submits without looking at the busy flag, is not among
    these events. *)
Theorem chat_one_call_in_flight events :
  let v := ChatView.run events ChatView.initial_view in
  length (ChatView.pending v) <= 1
  /\ (Chat.loading (ChatView.st v) = true <-> ChatView.pending v <> []).
Proof.
  assert (H : chat_idle_or_one (ChatView.run events ChatView.initial_view)).
  { apply chat_run_invariant; [apply chat_step_idle_or_one|]. left. auto. }
  cbn zeta. destruct H as [[H1 H2]|[H1 (call & H2)]]; rewrite H1, H2; cbn.
  - split; [lia|]. split; [discriminate|congruence].
  - split; [lia|]. split; [discriminate|reflexivity].
Qed.

(** X8. In both views each latest-artifact pointer always is the path of
    the last message that carries a path of its kind, and null when no
    message does: so the header buttons offer what the newest such reply in
    the conversation offers. This holds after every sequence of events from
    the initial view. *)
Theorem pointers_follow_messages :
  (forall events,
      let s := ChatView.st (ChatView.run events ChatView.initial_view) in
      Chat.latestPdf s = last_path Message.pdfPath (Chat.messages s)
      /\ Chat.latestPpt s = last_path Message.pptPath (Chat.messages s)
      /\ Chat.latestDashboard s = last_path Message.dashboardPath (Chat.messages s)) /\
  (forall agentType events,
      let s := AgentPageView.st
                 (AgentPageView.run events (AgentPageView.initial_view agentType)) in
      AgentPage.latestPdf s = last_path Message.pdfPath (AgentPage.messages s)
      /\ AgentPage.latestPpt s = last_path Message.pptPath (AgentPage.messages s)
      /\ AgentPage.latestDashboard s
         = last_path Message.dashboardPath (AgentPage.messages s)).
Proof.
  split.
  - intros events.
    apply (chat_run_invariant (fun v => chat_pointers (ChatView.st v)));
      [apply chat_step_pointers|]. repeat split.
  - intros agentType events.
    apply (page_run_invariant (fun v => page_pointers (AgentPageView.st v)));
      [apply page_step_pointers|]. repeat split.
Qed.

(** X9. In the agent page no reply is lost and none comes twice, also when
    calls overlap: after every sequence of events from the initial view, the
    user messages are as many as the assistant messages and the calls in
    flight together. *)
Theorem page_replies_balance agentType events :
  let v := AgentPageView.run events (AgentPageView.initial_view agentType) in
  count_type user (AgentPage.messages (AgentPageView.st v))
  = count_type assistant (AgentPage.messages (AgentPageView.st v))
    + length (AgentPageView.pending v).
Proof.
  apply (page_run_invariant page_balance); [apply page_step_balance|]. reflexivity.
Qed.

(** X10. As long as the chat is not reset and the dashboard button of the
    header is left alone, the chat reads as a dialogue: after every sequence
    of typing, key, send-button, drag-and-drop, file, agent-selector,
    declined-reset and settling events from the initial view, the messages
    are in turn from the user and from the assistant, beginning with the
    user, and the last one is from the user exactly while the view is busy.
    The dashboard button is left out for a reason: with no dashboard at
    hand, two clicks on it over a blank input add a user message and a call
    in flight, whoever wrote the last message and whether or not the view
    is busy. *)
Theorem chat_turns_alternate :
  (forall events,
      Forall no_reset events ->
      let s := ChatView.st (ChatView.run events ChatView.initial_view) in
      map Message.type (Chat.messages s) = map turn (seq 0 (length (Chat.messages s)))
      /\ Nat.even (length (Chat.messages s)) = negb (Chat.loading s)) /\
  (forall v id1 now1 id2 now2,
      truthy_string (Chat.latestDashboard (ChatView.st v)) = false ->
      Trim.blank (text_of (Chat.input (ChatView.st v))) ->
      let v2 := ChatHeader.click id2 now2 (ChatHeader.click id1 now1 v) in
      exists m call,
        Chat.messages (ChatView.st v2) = (Chat.messages (ChatView.st v) ++ [m])%list
        /\ Message.type m = user
        /\ Message.id m = id2
        /\ Chat.loading (ChatView.st v2) = true
        /\ ChatView.pending v2 = (ChatView.pending v ++ [call])%list).
Proof.
  split.
  - intros events Hev.
    enough (H : forall v, chat_turns v -> chat_turns (ChatView.run events v)).
    { apply (H ChatView.initial_view). split; [left; auto|]. split; reflexivity. }
    unfold ChatView.run. induction Hev as [|e events He _ IH]; intros v Hv; [exact Hv|].
    cbn [fold_left]. apply IH, chat_step_turns; assumption.
  - intros v id1 now1 id2 now2 Hnone Hblank. cbn zeta.
    apply Trim_facts.trim_blank_iff in Hblank.
    assert (H1 : ChatHeader.click id1 now1 v
                 = ChatView.update (Chat.setInput ChatHeader.dashboard_prompt (ChatView.st v)) v).
    { unfold ChatHeader.click, ChatHeader.dashboard_onClick, ChatHeader.submit_from.
      rewrite Hnone, Hblank. reflexivity. }
    rewrite H1.
    unfold ChatHeader.click, ChatHeader.dashboard_onClick, ChatHeader.submit_from.
    cbn [ChatView.update ChatView.st ChatView.pending Chat.latestDashboard
         Chat.setInput Chat.input].
    rewrite Hnone.
    change (falsy_string (Trim.trim ChatHeader.dashboard_prompt)) with false.
    cbv iota. eexists _, _. cbn. repeat split.
Qed.

Lemma chat_turns_alternate_witness :
  Forall no_reset [ChatView.Change "Plot it"; ChatView.SendClick "m1" 1;
                   ChatView.ClearChat false;
                   ChatView.Settle 0 (rejected (TypeError "Failed to fetch")) "m2" 2] /\
  map Message.type
    (Chat.messages
       (ChatView.st
          (ChatView.run [ChatView.Change "Plot it"; ChatView.SendClick "m1" 1;
                         ChatView.ClearChat false;
                         ChatView.Settle 0 (rejected (TypeError "Failed to fetch")) "m2" 2]
             ChatView.initial_view)))
  = [user; assistant].
Proof.
  assert (H : Forall no_reset
                [ChatView.Change "Plot it"; ChatView.SendClick "m1" 1;
                 ChatView.ClearChat false;
                 ChatView.Settle 0 (rejected (TypeError "Failed to fetch")) "m2" 2])
    by (repeat constructor).
  split; [exact H|].
  pose proof (proj1 (proj1 chat_turns_alternate _ H)) as Ht.
  cbn zeta in Ht. rewrite Ht. reflexivity.
Defined.

(** X11. A confirmed reset does not cancel a call in flight: the busy flag
    and the calls in flight are as before; when such a call settles right
    after the reset, its reply or error message is the only message of the
    chat and the busy flag is cleared. *)
Theorem reset_keeps_call_in_flight v i call outcome id now :
  ChatView.pending v !! i = Some call ->
  let v1 := ChatView.step (ChatView.ClearChat true) v in
  let v2 := ChatView.step (ChatView.Settle i outcome id now) v1 in
  Chat.loading (ChatView.st v1) = Chat.loading (ChatView.st v)
  /\ ChatView.pending v1 = ChatView.pending v
  /\ Chat.messages (ChatView.st v1) = []
  /\ exists m, Chat.messages (ChatView.st v2) = [m]
              /\ Message.type m = assistant
              /\ Chat.loading (ChatView.st v2) = false.
Proof.
  intros Hi. cbn zeta. split; [reflexivity|]. split; [reflexivity|].
  split; [reflexivity|].
  destruct (chat_settled_cases call outcome id now
              (Chat.handleClearChat true (ChatView.st v)))
    as (m & Hm & Ht & Hl & _).
  exists m.
  cbn -[Chat.handleSendMessage_settled Chat.handleClearChat lookup delete].
  rewrite Hi. cbn -[Chat.handleSendMessage_settled Chat.handleClearChat lookup delete].
  rewrite Hm. auto.
Qed.

Lemma reset_keeps_call_in_flight_witness :
  let v := ChatView.run [ChatView.Change "Plot it"; ChatView.SendClick "m1" 1]
             ChatView.initial_view in
  ChatView.pending v !! 0
  = Some {| request := api.analyzeWithExistingData_request "Plot it" auto;
            sent_file := None |} /\
  exists m,
    Chat.messages
      (ChatView.st
         (ChatView.step (ChatView.Settle 0 (responded true (Normal Samples.dashboard_only))
                           "m2" 2)
            (ChatView.step (ChatView.ClearChat true) v)))
    = [m] /\ Message.type m = assistant.
Proof.
  cbn zeta.
  assert (H : ChatView.pending
                (ChatView.run [ChatView.Change "Plot it"; ChatView.SendClick "m1" 1]
                   ChatView.initial_view) !! 0
              = Some {| request := api.analyzeWithExistingData_request "Plot it" auto;
                        sent_file := None |}) by reflexivity.
  split; [exact H|].
  destruct (reset_keeps_call_in_flight _ 0 _
              (responded true (Normal Samples.dashboard_only)) "m2" 2 H)
    as (_ & _ & _ & m & Hm & Ht & _).
  exists m. split; assumption.
Defined.

End view_claims.

(** ** The download name *)

Module Download_facts.
Local Open Scope list_scope.

Lemma split_nonempty sep s : split sep s <> [].
Proof.
  destruct s as [|c r]; cbn [split]; [discriminate|].
  destruct (c =? sep)%char; [discriminate|]. destruct (split sep r); discriminate.
Qed.

Lemma split_app sep d n : split sep (d ++ sep :: n) = split sep d ++ split sep n.
Proof.
  induction d as [|c d IH]; cbn [app split].
  - rewrite Ascii.eqb_refl. reflexivity.
  - destruct (c =? sep)%char; [rewrite IH; reflexivity|].
    rewrite IH. pose proof (split_nonempty sep d) as Hd.
    destruct (split sep d) as [|p ps]; [contradiction|]. reflexivity.
Qed.

Lemma split_none sep s : sep ∉ s -> split sep s = [s].
Proof.
  induction s as [|c r IH]; intros Hs; [reflexivity|].
  cbn [split]. apply not_elem_of_cons in Hs as [Hc Hr].
  destruct (Ascii.eqb_spec c sep) as [->|_]; [contradiction|].
  rewrite (IH Hr). reflexivity.
Qed.

Lemma split_pieces sep s : Forall (fun piece => sep ∉ piece) (split sep s).
Proof.
  induction s as [|c r IH]; cbn [split].
  - constructor; [apply not_elem_of_nil|constructor].
  - destruct (Ascii.eqb_spec c sep) as [->|Hne].
    + constructor; [apply not_elem_of_nil|exact IH].
    + destruct (split sep r) as [|p ps]; [repeat constructor|].
      * intros H. apply list_elem_of_singleton in H. congruence.
      * inversion IH as [|? ? Hp Hps]; subst. constructor; [|exact Hps].
        intros H. apply elem_of_cons in H as [H|H]; [congruence|contradiction].
Qed.

Lemma last_split sep s : exists piece, last (split sep s) = Some piece /\ sep ∉ piece.
Proof.
  pose proof (split_nonempty sep s) as Hne. pose proof (split_pieces sep s) as Hall.
  destruct (last (split sep s)) as [piece|] eqn:E.
  - exists piece. split; [reflexivity|].
    rewrite Forall_forall in Hall. apply Hall, last_Some_elem_of, E.
  - apply last_None in E. contradiction.
Qed.

Lemma string_of_nonempty c t : (string_of (c :: t) =? "")%string = false.
Proof. reflexivity. Qed.

End Download_facts.

Section download_claims.
Import Download_facts.

(** X12. The name [handleDownloadReport] gives a download is never empty and
    never has a slash in it: it is what follows the last slash of the path,
    the whole path when that has no slash, and [report] when nothing follows
    the last slash or the path is empty. *)
Theorem download_name_is_last_segment :
  (forall path, download_name path <> "" /\ "/"%char ∉ text_of (download_name path)) /\
  (forall dir name,
      "/"%char ∉ text_of name -> name <> "" ->
      download_name (dir +:+ "/" +:+ name) = name) /\
  (forall path, "/"%char ∉ text_of path -> path <> "" -> download_name path = path) /\
  (forall dir, download_name (dir +:+ "/") = "report") /\
  download_name "" = "report".
Proof.
  assert (Happ : forall a b, text_of (a +:+ b) = (text_of a ++ text_of b)%list).
  { intros a b. unfold text_of. induction a as [|c a IH]; [reflexivity|].
    change (String c a +:+ b) with (String c (a +:+ b)).
    cbn [list_ascii_of_string app]. rewrite IH. reflexivity. }
  split; [|split; [|split; [|split]]].
  - intros path. unfold download_name.
    destruct (last_split "/" (text_of path)) as (piece & -> & Hpiece).
    cbn [fmap option_fmap option_map or_default].
    destruct piece as [|c t].
    + cbn. split; [discriminate|]. intros H. apply list_elem_of_In in H. cbn in H.
      intuition discriminate.
    + rewrite string_of_nonempty. split.
      * discriminate.
      * unfold text_of, string_of. rewrite list_ascii_of_string_of_list_ascii.
        exact Hpiece.
  - intros dir name Hname Hne. unfold download_name.
    rewrite Happ. change (text_of ("/" +:+ name)) with ("/"%char :: text_of name).
    rewrite split_app, (split_none _ _ Hname), last_snoc.
    cbn [fmap option_fmap option_map or_default].
    unfold string_of, text_of. rewrite string_of_list_ascii_of_string.
    destruct name; [contradiction|reflexivity].
  - intros path Hpath Hne. unfold download_name.
    rewrite (split_none _ _ Hpath). cbn [last fmap option_fmap option_map or_default].
    unfold string_of, text_of. rewrite string_of_list_ascii_of_string.
    destruct path; [contradiction|reflexivity].
  - intros dir. unfold download_name. rewrite Happ.
    change (text_of "/") with ("/"%char :: []). rewrite split_app.
    cbn [split]. rewrite last_snoc. reflexivity.
  - reflexivity.
Qed.

End download_claims.

(** ** Routes *)

Module App_facts.

Lemma follow_routes (signed_in : bool) pattern e :
  (pattern, e) ∈ App.routes ->
  exists p,
    App.follow 2 signed_in e = Some p
    /\ App.public p = negb signed_in
    /\ p = match e with
           | App.ProtectedRoute children => if signed_in then children else App.SignIn
           | App.PublicRoute children => if signed_in then App.MainHub else children
           | App.Navigate _ => if signed_in then App.MainHub else App.Landing
           end.
Proof.
  intros Hin. unfold App.routes in Hin.
  repeat (apply elem_of_cons in Hin as [Hin|Hin];
          [injection Hin as -> ->;
           destruct signed_in; eexists; (split; [reflexivity|]);
           split; reflexivity|]).
  apply elem_of_nil in Hin. contradiction.
Qed.

End App_facts.

Section route_claims.
Import AuthContext.

(** X13. Every route of the table ends on a page, and the page fits the
    session. In the mounted application (after the mount effect and any
    [login], [signup] and [logout] calls), where the user does not change
    while redirects are followed, a route ends after at most two redirects:
    a visitor who is not signed in only ever gets [Landing], [SignIn] or
    [SignUp] ([SignIn] for a protected route, [Landing] for an unknown
    path), one who is signed in never gets any of these three ([MainHub]
    for a public route or an unknown path, the page of the route
    otherwise). On a page load the first render is before the provider has
    read the session: with a session in the storage every route ends on
    [MainHub], a protected one by way of [/signin]; with none the load ends
    where a visitor who is not signed in ends; and when the mount effect
    throws, no page is left. *)
Theorem routes_fit_session :
  (forall st0 st1 calls pattern e,
      hydrate (AuthUse.reloaded st0) = (Normal tt, st1) ->
      (pattern, e) ∈ App.routes ->
      let st := AuthUse.perform_all calls st1 in
      exists p,
        App.follow 2 (isAuthenticated st) e = Some p
        /\ App.public p = negb (isAuthenticated st)
        /\ p = match e with
               | App.ProtectedRoute children =>
                   if isAuthenticated st then children else App.SignIn
               | App.PublicRoute children =>
                   if isAuthenticated st then App.MainHub else children
               | App.Navigate _ =>
                   if isAuthenticated st then App.MainHub else App.Landing
               end) /\
  (forall st st' pattern e,
      (pattern, e) ∈ App.routes ->
      hydrate (AuthUse.reloaded st) = (Normal tt, st') ->
      exists p,
        App.load st e = Normal (Some p)
        /\ App.public p = negb (isAuthenticated st')
        /\ p = if isAuthenticated st' then App.MainHub
               else match e with
                    | App.ProtectedRoute _ => App.SignIn
                    | App.PublicRoute children => children
                    | App.Navigate _ => App.Landing
                    end) /\
  (forall st st' err e,
      hydrate (AuthUse.reloaded st) = (Throw err, st') -> App.load st e = Throw err).
Proof.
  split; [|split].
  - intros st0 st1 calls pattern e _ Hin. apply (App_facts.follow_routes _ _ _ Hin).
  - intros st st' pattern e Hin Hload. unfold App.load. rewrite Hload.
    unfold App.routes in Hin.
    repeat (apply elem_of_cons in Hin as [Hin|Hin];
            [injection Hin as -> ->;
             destruct (isAuthenticated st'); eexists; (split; [reflexivity|]);
             split; reflexivity|]).
    apply elem_of_nil in Hin. contradiction.
  - intros st st' err e Hload. unfold App.load. rewrite Hload. reflexivity.
Qed.

(** A protected route loaded with Ann's session in the storage. *)
Lemma routes_fit_session_witness :
  exists p,
    App.load (login "ann@x.io" "secret1" Samples.two_users).2
      (App.ProtectedRoute App.Chat) = Normal (Some p)
    /\ p = App.MainHub.
Proof.
  assert (Hin : ("/chat"%string, App.ProtectedRoute App.Chat) ∈ App.routes).
  { unfold App.routes. rewrite !elem_of_cons. do 4 right. left. reflexivity. }
  assert (Hload : hydrate (AuthUse.reloaded (login "ann@x.io" "secret1" Samples.two_users).2)
                  = (Normal tt, (login "ann@x.io" "secret1" Samples.two_users).2))
    by (vm_compute; reflexivity).
  destruct (proj1 (proj2 routes_fit_session) _ _ _ _ Hin Hload) as (p & Hp & _ & Hpage).
  exists p. split; [exact Hp|]. rewrite Hpage. reflexivity.
Defined.

(** X14. [handleLogout] ends on the landing page whoever was signed in: the
    path it navigates to shows [Landing] without a redirect, every route of
    the table then ends on a public page, and a reload changes nothing. *)
Theorem logout_lands_on_landing st :
  App.follow 0 (isAuthenticated (handleLogout st).1)
    (App.route_at App.routes (handleLogout st).2) = Some App.Landing
  /\ (forall pattern e, (pattern, e) ∈ App.routes ->
      exists p, App.follow 2 (isAuthenticated (handleLogout st).1) e = Some p
                /\ App.public p = true)
  /\ hydrate (AuthUse.reloaded (handleLogout st).1) = (Normal tt, (handleLogout st).1).
Proof.
  split; [reflexivity|]. split.
  - intros pattern e Hin.
    destruct (App_facts.follow_routes false pattern e Hin) as (p & Hp & Hpub & _).
    exists p. split; [exact Hp|exact Hpub].
  - cbn [handleLogout fst]. rewrite AuthContext_facts.hydrate_absent; [reflexivity|].
    cbn. rewrite lookup_delete_eq. reflexivity.
Qed.

End route_claims.

(** ** The dashboard button *)

Section header_claims.
Import Chat ChatHeader.

(** X15. With no dashboard at hand, the dashboard button of the chat header
    never sends its own prompt on the click that writes it. Over a blank
    input the click sends nothing and leaves the prompt in the input, and
    the next click sends it; over a typed input the click does what a submit
    does, sending what was typed. Whether a call is in flight plays no
    part. *)
Theorem dashboard_button_sends_what_is_typed id now st :
  truthy_string (latestDashboard st) = false ->
  (Trim.blank (text_of (input st)) ->
   dashboard_onClick id now st = (setInput dashboard_prompt st, None)
   /\ forall id' now',
       dashboard_onClick id' now' (setInput dashboard_prompt st)
       = handleSendMessage id' now' (setInput dashboard_prompt st)
       /\ exists call,
           (handleSendMessage id' now' (setInput dashboard_prompt st)).2 = Some call
           /\ request call
              = match uploadedFile st with
                | Some file =>
                    api.uploadAndAnalyze_request file dashboard_prompt (selectedAgent st)
                | None =>
                    api.analyzeWithExistingData_request dashboard_prompt (selectedAgent st)
                end)
  /\ (~ Trim.blank (text_of (input st)) ->
      dashboard_onClick id now st = handleSendMessage id now st
      /\ exists call,
          (handleSendMessage id now st).2 = Some call
          /\ request call
             = match uploadedFile st with
               | Some file =>
                   api.uploadAndAnalyze_request file (input st) (selectedAgent st)
               | None =>
                   api.analyzeWithExistingData_request (input st) (selectedAgent st)
               end).
Proof.
  intros Hnone. split.
  - intros Hblank. apply Trim_facts.trim_blank_iff in Hblank.
    split.
    + unfold dashboard_onClick, submit_from. rewrite Hnone, Hblank. reflexivity.
    + intros id' now'.
      unfold dashboard_onClick, submit_from, handleSendMessage.
      cbn [latestDashboard setInput input uploadedFile selectedAgent messages].
      rewrite Hnone.
      change (falsy_string (Trim.trim dashboard_prompt)) with false.
      cbn [snd]. split; [reflexivity|].
      eexists. split; reflexivity.
  - intros Hnb.
    assert (Hf : falsy_string (Trim.trim (input st)) = false).
    { destruct (falsy_string (Trim.trim (input st))) eqn:E; [|reflexivity].
      apply Trim_facts.trim_blank_iff in E. contradiction. }
    unfold dashboard_onClick, submit_from, handleSendMessage.
    rewrite Hnone, Hf. cbn [snd]. split.
    + destruct st; reflexivity.
    + eexists. split; reflexivity.
Qed.

Lemma dashboard_button_sends_what_is_typed_witness :
  dashboard_onClick "m-1" 0 Chat.initial = (setInput dashboard_prompt Chat.initial, None).
Proof.
  assert (H : truthy_string (latestDashboard Chat.initial) = false) by reflexivity.
  assert (Hb : Trim.blank (text_of (input Chat.initial))) by (vm_compute; constructor).
  exact (proj1 (proj1 (dashboard_button_sends_what_is_typed "m-1" 0 Chat.initial H) Hb)).
Defined.

End header_claims.

(** ** Regular expressions: the matcher decides [accepts] *)

Module RegExp_facts.
Import RegExp.
Local Open Scope list_scope.

Lemma nullable_accepts r : nullable r = true <-> accepts r [].
Proof.
  split.
  - induction r as [| |p|r1 IH1 r2 IH2|r1 IH1 r2 IH2|r IH]; cbn; intros H;
      try discriminate.
    + constructor.
    + apply andb_true_iff in H as [H1 H2].
      apply (accepts_cat _ _ [] []); auto.
    + apply orb_true_iff in H as [H|H];
        [apply accepts_alt_l|apply accepts_alt_r]; auto.
    + constructor.
  - intros H. remember [] as s eqn:Es.
    induction H; cbn; try reflexivity; try discriminate.
    + apply app_eq_nil in Es as [-> ->].
      rewrite IHaccepts1, IHaccepts2; auto.
    + rewrite IHaccepts; auto.
    + rewrite IHaccepts; auto. apply orb_true_r.
Qed.

Lemma accepts_cat_inv r1 r2 s :
  accepts (Cat r1 r2) s <->
  exists s1 s2, s = s1 ++ s2 /\ accepts r1 s1 /\ accepts r2 s2.
Proof.
  split.
  - intros H. inversion H; subst. eauto.
  - intros (s1 & s2 & -> & H1 & H2). constructor; assumption.
Qed.

Lemma accepts_alt_inv r1 r2 s :
  accepts (Alt r1 r2) s <-> accepts r1 s \/ accepts r2 s.
Proof.
  split.
  - intros H. inversion H; subst; auto.
  - intros [H|H]; [apply accepts_alt_l|apply accepts_alt_r]; assumption.
Qed.

Lemma accepts_class_inv p s :
  accepts (Class p) s <-> exists u, s = [u] /\ p u = true.
Proof.
  split.
  - intros H. inversion H; subst. eauto.
  - intros (u & -> & H). constructor. exact H.
Qed.

Lemma accepts_star_cons_inv r u s :
  accepts (Star r) (u :: s) ->
  exists s1 s2, s = s1 ++ s2 /\ accepts r (u :: s1) /\ accepts (Star r) s2.
Proof.
  intros H. remember (Star r) as r' eqn:Er. remember (u :: s) as w eqn:Ew.
  induction H as [| | | | | |r0 s1 s2 H1 _ H2 IH2]; try discriminate.
  injection Er as ->.
  destruct s1 as [|u' s1].
  - apply IH2; [reflexivity|exact Ew].
  - cbn in Ew. injection Ew as -> <-. eauto.
Qed.

Lemma derive_accepts u r : forall s, accepts (derive u r) s <-> accepts r (u :: s).
Proof.
  induction r as [| |p|r1 IH1 r2 IH2|r1 IH1 r2 IH2|r IH]; intros s; cbn [derive].
  - split; intros H; inversion H.
  - split; intros H; inversion H.
  - destruct (p u) eqn:Ep; split; intros H.
    + inversion H; subst. constructor. exact Ep.
    + inversion H; subst. constructor.
    + inversion H.
    + inversion H; subst. congruence.
  - assert (Hcat : accepts (Cat (derive u r1) r2) s ->
                   accepts (Cat r1 r2) (u :: s)).
    { intros H. apply accepts_cat_inv in H as (s1 & s2 & -> & H1 & H2).
      apply IH1 in H1. apply (accepts_cat _ _ (u :: s1) s2); assumption. }
    assert (Hinv : accepts (Cat r1 r2) (u :: s) ->
                   accepts (Cat (derive u r1) r2) s
                   \/ (accepts r1 [] /\ accepts r2 (u :: s))).
    { intros H. apply accepts_cat_inv in H as (s1 & s2 & E & H1 & H2).
      destruct s1 as [|u' s1].
      - right. cbn in E. subst s2. auto.
      - injection E as <- ->. left. constructor; [apply IH1|]; assumption. }
    destruct (nullable r1) eqn:En.
    + rewrite accepts_alt_inv. split.
      * intros [H|H]; [apply Hcat, H|].
        apply IH2 in H. apply nullable_accepts in En.
        apply (accepts_cat _ _ [] (u :: s)); assumption.
      * intros H. apply Hinv in H as [H|[_ H]]; [left; exact H|].
        right. apply IH2. exact H.
    + split; [exact Hcat|].
      intros H. apply Hinv in H as [H|[H _]]; [exact H|].
      apply nullable_accepts in H. congruence.
  - rewrite !accepts_alt_inv, IH1, IH2. reflexivity.
  - split.
    + intros H. apply accepts_cat_inv in H as (s1 & s2 & -> & H1 & H2).
      apply IH in H1. apply (accepts_star_cons _ (u :: s1) s2); assumption.
    + intros H. apply accepts_star_cons_inv in H as (s1 & s2 & -> & H1 & H2).
      constructor; [apply IH|]; assumption.
Qed.

Lemma matches_all_accepts s : forall r, matches_all r s = true <-> accepts r s.
Proof.
  induction s as [|u s IH]; intros r; cbn [matches_all].
  - apply nullable_accepts.
  - rewrite IH. apply derive_accepts.
Qed.

Lemma accepts_star_class p s :
  accepts (Star (Class p)) s <-> Forall (fun u => p u = true) s.
Proof.
  split.
  - induction s as [|u s IH]; intros H; [constructor|].
    apply accepts_star_cons_inv in H as (s1 & s2 & -> & H1 & H2).
    apply accepts_class_inv in H1 as (u' & E & Hp).
    injection E as -> ->. constructor; [exact Hp|]. apply IH. exact H2.
  - induction 1 as [|u s Hp _ IH]; [constructor|].
    apply (accepts_star_cons _ [u] s); [constructor; exact Hp|exact IH].
Qed.

Lemma accepts_plus_class p s :
  accepts (Plus (Class p)) s <-> s <> [] /\ Forall (fun u => p u = true) s.
Proof.
  unfold Plus. rewrite accepts_cat_inv. split.
  - intros (s1 & s2 & -> & H1 & H2).
    apply accepts_class_inv in H1 as (u & -> & Hp).
    split; [discriminate|]. constructor; [exact Hp|].
    apply accepts_star_class. exact H2.
  - intros [Hne H]. destruct s as [|u s]; [contradiction|].
    apply Forall_cons in H as [Hp H].
    exists [u], s. split; [reflexivity|].
    split; [constructor; exact Hp|apply accepts_star_class; exact H].
Qed.

End RegExp_facts.

(** ** The sign-up form *)

Module SignUp_facts.
Import AuthContext RegExp RegExp_facts SignUp.
Local Open Scope list_scope.

Lemma accepts_emailRegex units :
  accepts emailRegex units <->
  exists local domain tld,
    units = local ++ [64%N] ++ domain ++ [46%N] ++ tld
    /\ local <> [] /\ domain <> [] /\ tld <> []
    /\ Forall (fun u => no_space_no_at u = true) (local ++ domain ++ tld).
Proof.
  unfold emailRegex. split.
  - intros H.
    apply accepts_cat_inv in H as (l & r1 & -> & Hl & H).
    apply accepts_cat_inv in H as (at_ & r2 & -> & Hat & H).
    apply accepts_cat_inv in H as (d & r3 & -> & Hd & H).
    apply accepts_cat_inv in H as (dot & t & -> & Hdot & Ht).
    apply accepts_class_inv in Hat as (u & -> & Hu). apply N.eqb_eq in Hu as <-.
    apply accepts_class_inv in Hdot as (u & -> & Hu). apply N.eqb_eq in Hu as <-.
    apply accepts_plus_class in Hl as [Hl1 Hl2], Hd as [Hd1 Hd2], Ht as [Ht1 Ht2].
    exists l, d, t. repeat split; try assumption.
    rewrite !Forall_app. auto.
  - intros (l & d & t & -> & Hl & Hd & Ht & Hall).
    rewrite !Forall_app in Hall. destruct Hall as (Hl2 & Hd2 & Ht2).
    constructor; [apply accepts_plus_class; auto|].
    constructor; [constructor; reflexivity|].
    constructor; [apply accepts_plus_class; auto|].
    constructor; [constructor; reflexivity|].
    apply accepts_plus_class; auto.
Qed.

(** The four checks, as [handleSubmit] tests them. *)
Lemma passes_checks_tests st :
  passes_checks st <->
  falsy_string (name st) || falsy_string (email st) || falsy_string (password st)
  || falsy_string (confirmPassword st) = false
  /\ (Utf16.length (password st) <? 6)%nat = false
  /\ negb (password st =? confirmPassword st)%string = false
  /\ negb (test emailRegex (email st)) = false.
Proof.
  unfold passes_checks, falsy_string.
  rewrite !orb_false_iff, !negb_false_iff, Nat.ltb_ge, !String.eqb_neq, String.eqb_eq.
  tauto.
Qed.

Lemma handleSubmit_passed uuid st a :
  passes_checks st ->
  handleSubmit uuid st a =
  match signup uuid (name st) (email st) (password st) a with
  | (Throw e, a') =>
      {| settled := Throw e; form := setLoading true (setError "" st);
         navigated := None; auth := a' |}
  | (Normal true, a') =>
      {| settled := Normal tt; form := setLoading false (setError "" st);
         navigated := Some "/chat"%string; auth := a' |}
  | (Normal false, a') =>
      {| settled := Normal tt;
         form := setError "Email already exists" (setLoading false (setError "" st));
         navigated := None; auth := a' |}
  end.
Proof.
  intros H. apply passes_checks_tests in H as (H1 & H2 & H3 & H4).
  unfold handleSubmit. cbn [name email password confirmPassword setError setLoading].
  rewrite H1, H2, H3, H4.
  destruct (signup uuid (name st) (email st) (password st) a) as [[[]|e] a'];
    reflexivity.
Qed.

Lemma handleSubmit_failed uuid st a :
  ~ passes_checks st ->
  exists m,
    m ∈ check_messages /\
    handleSubmit uuid st a =
    {| settled := Normal tt;
       form := {| name := name st; email := email st; password := password st;
                  confirmPassword := confirmPassword st; error := m;
                  loading := false |};
       navigated := None; auth := a |}.
Proof.
  intros H. rewrite passes_checks_tests in H.
  unfold handleSubmit, check_messages.
  cbn [name email password confirmPassword setError setLoading].
  destruct (falsy_string (name st) || falsy_string (email st)
            || falsy_string (password st) || falsy_string (confirmPassword st));
    [eexists; split; [|reflexivity]; rewrite !elem_of_cons; auto|].
  destruct (Utf16.length (password st) <? 6)%nat;
    [eexists; split; [|reflexivity]; rewrite !elem_of_cons; auto|].
  destruct (negb (password st =? confirmPassword st)%string);
    [eexists; split; [|reflexivity]; rewrite !elem_of_cons; auto|].
  destruct (negb (test emailRegex (email st)));
    [eexists; split; [|reflexivity]; rewrite !elem_of_cons; auto 6|].
  exfalso. apply H. auto.
Qed.

Lemma signup_true_signed_in uuid name email password st :
  (signup uuid name email password st).1 = Normal true ->
  isAuthenticated (signup uuid name email password st).2 = true.
Proof.
  unfold signup, bind, getItem, JSON_parse, lift, ret.
  destruct (JSON.parse _) as [users|]; [|discriminate].
  destruct (find users _) as [existing|e]; [|discriminate].
  destruct (truthy existing); [discriminate|].
  destruct (avatar_url name) as [url|e]; [|discriminate].
  destruct (push users _) as [users'|e]; [|discriminate].
  intros _. reflexivity.
Qed.

End SignUp_facts.

Section signup_claims.
Import AuthContext SignUp SignUp_facts.
Local Open Scope list_scope.

(** X16. The email test of the sign-up form accepts exactly the strings
    whose code units are a local part, [@] (64), a domain, [.] (46) and a
    last part, the three parts non-empty and free of white space and of
    [@]. *)
Theorem email_test_shape email :
  RegExp.test emailRegex email = true <->
  exists local domain tld,
    Utf16.code_units email = local ++ [64%N] ++ domain ++ [46%N] ++ tld
    /\ local <> [] /\ domain <> [] /\ tld <> []
    /\ Forall (fun u => no_space_no_at u = true) (local ++ domain ++ tld).
Proof.
  unfold RegExp.test. rewrite RegExp_facts.matches_all_accepts.
  apply accepts_emailRegex.
Qed.

(** X17. The checks of [handleSubmit] come before [signup]: a form that
    fails one of them leaves the auth state and the browser storage as they
    were and navigates nowhere; the promise resolves, the form is not
    loading any more, shows one of the four messages, and keeps its
    fields. *)
Theorem submit_checks_come_first uuid st a :
  ~ passes_checks st ->
  settled (handleSubmit uuid st a) = Normal tt
  /\ auth (handleSubmit uuid st a) = a
  /\ navigated (handleSubmit uuid st a) = None
  /\ loading (form (handleSubmit uuid st a)) = false
  /\ error (form (handleSubmit uuid st a)) ∈ check_messages
  /\ name (form (handleSubmit uuid st a)) = name st
  /\ email (form (handleSubmit uuid st a)) = email st
  /\ password (form (handleSubmit uuid st a)) = password st
  /\ confirmPassword (form (handleSubmit uuid st a)) = confirmPassword st.
Proof.
  intros H. destruct (handleSubmit_failed uuid st a H) as (m & Hm & ->).
  cbn. repeat split. exact Hm.
Qed.

Lemma submit_checks_come_first_witness :
  auth (handleSubmit "u-3" short_form Samples.two_users) = Samples.two_users
  /\ error (form (handleSubmit "u-3" short_form Samples.two_users)) ∈ check_messages.
Proof.
  assert (H : ~ passes_checks short_form).
  { intros (_ & _ & _ & _ & H & _). vm_compute in H. lia. }
  destruct (submit_checks_come_first "u-3" short_form Samples.two_users H)
    as (_ & Ha & _ & _ & He & _).
  split; [exact Ha|exact He].
Defined.

(** X18. [handleSubmit] navigates only after a sign-up that worked: if it
    navigates, then to [/chat], the form had passed the checks, [signup] had
    returned true, the visitor is signed in, the form shows no error and is
    not loading, and the route of [/chat] shows the chat without a
    redirect. *)
Theorem submit_navigates_signed_in uuid st a path :
  navigated (handleSubmit uuid st a) = Some path ->
  path = "/chat"%string
  /\ passes_checks st
  /\ signup uuid (name st) (email st) (password st) a
     = (Normal true, auth (handleSubmit uuid st a))
  /\ settled (handleSubmit uuid st a) = Normal tt
  /\ error (form (handleSubmit uuid st a)) = ""%string
  /\ loading (form (handleSubmit uuid st a)) = false
  /\ isAuthenticated (auth (handleSubmit uuid st a)) = true
  /\ App.follow 0 (isAuthenticated (auth (handleSubmit uuid st a)))
       (App.route_at App.routes path) = Some App.Chat.
Proof.
  intros Hnav.
  assert (Hdec : passes_checks st \/ ~ passes_checks st).
  { rewrite passes_checks_tests.
    destruct (falsy_string (name st) || falsy_string (email st)
              || falsy_string (password st) || falsy_string (confirmPassword st));
      [right; intros [? _]; discriminate|].
    destruct (Utf16.length (password st) <? 6)%nat;
      [right; intros (_ & ? & _); discriminate|].
    destruct (negb (password st =? confirmPassword st)%string);
      [right; intros (_ & _ & ? & _); discriminate|].
    destruct (negb (RegExp.test emailRegex (email st)));
      [right; intros (_ & _ & _ & ?); discriminate|].
    left. auto. }
  destruct Hdec as [Hok|Hbad].
  2:{ destruct (handleSubmit_failed uuid st a Hbad) as (m & _ & E).
      rewrite E in Hnav. discriminate Hnav. }
  pose proof (signup_true_signed_in uuid (name st) (email st) (password st) a) as Hin.
  rewrite (handleSubmit_passed uuid st a Hok) in Hnav |- *.
  destruct (signup uuid (name st) (email st) (password st) a) as [[[]|e] a'];
    try discriminate Hnav.
  cbn [navigated] in Hnav. injection Hnav as <-.
  cbn [fst snd] in Hin. specialize (Hin eq_refl).
  cbn [auth settled form error loading setError setLoading].
  rewrite Hin. split; [reflexivity|]. split; [exact Hok|]. repeat split.
Qed.

Lemma submit_navigates_signed_in_witness :
  passes_checks cy_form
  /\ isAuthenticated (auth (handleSubmit "u-3" cy_form Samples.two_users)) = true.
Proof.
  assert (H : navigated (handleSubmit "u-3" cy_form Samples.two_users)
              = Some "/chat"%string) by (vm_compute; reflexivity).
  destruct (submit_navigates_signed_in "u-3" cy_form Samples.two_users _ H)
    as (_ & Hok & _ & _ & _ & _ & Hin & _).
  split; [exact Hok|exact Hin].
Defined.

(** X19. If [signup] throws, [handleSubmit] never gets to
    [setLoading(false)]: its promise rejects with what was thrown and the
    form stays loading, with no message and no navigation. A [users] item
    that is not JSON does this to every form that passes the checks, and
    leaves the auth state as it was. *)
Theorem submit_stays_loading_on_throw uuid st a :
  passes_checks st ->
  (forall e,
      (signup uuid (name st) (email st) (password st) a).1 = Throw e ->
      settled (handleSubmit uuid st a) = Throw e
      /\ loading (form (handleSubmit uuid st a)) = true
      /\ error (form (handleSubmit uuid st a)) = ""%string
      /\ navigated (handleSubmit uuid st a) = None) /\
  (forall raw,
      localStorage a !! "users" = Some raw -> raw <> ""%string ->
      JSON.parse raw = None ->
      (exists m, settled (handleSubmit uuid st a) = Throw (SyntaxError m))
      /\ loading (form (handleSubmit uuid st a)) = true
      /\ auth (handleSubmit uuid st a) = a).
Proof.
  intros Hok. rewrite (handleSubmit_passed uuid st a Hok). split.
  - intros e He.
    destruct (signup uuid (name st) (email st) (password st) a) as [[[]|e'] a'];
      try discriminate He.
    cbn in He. injection He as ->. repeat split.
  - intros raw Hraw Hne Hparse.
    rewrite (AuthContext_facts.signup_corrupt a raw _ _ _ _ Hraw Hne Hparse).
    cbn. split; [eexists; reflexivity|]. split; reflexivity.
Qed.

Lemma submit_stays_loading_on_throw_witness :
  passes_checks cy_form
  /\ (exists m, settled (handleSubmit "u-3" cy_form Samples.corrupt) = Throw (SyntaxError m))
  /\ loading (form (handleSubmit "u-3" cy_form Samples.corrupt)) = true.
Proof.
  assert (Hok : passes_checks cy_form).
  { unfold passes_checks. repeat split; try discriminate; vm_compute; try reflexivity.
    lia. }
  assert (H1 : localStorage Samples.corrupt !! "users" = Some "{oops"%string)
    by (vm_compute; reflexivity).
  assert (H2 : "{oops"%string <> ""%string) by discriminate.
  assert (H3 : JSON.parse "{oops" = None) by (vm_compute; reflexivity).
  destruct (proj2 (submit_stays_loading_on_throw "u-3" cy_form Samples.corrupt Hok)
              "{oops"%string H1 H2 H3) as (Hm & Hl & _).
  split; [exact Hok|]. split; [exact Hm|exact Hl].
Defined.



End signup_claims.
